(** * Quick-fix matching rules of the C++ editor (cppquickfixes.cpp)

    A shallow embedding of the matching side of the C++ quick-fix engine:
    every rule is a function [doMatch] from a [CppQuickFixInterface] (the
    ancestor path under the cursor plus the services of the host editor) and
    the list of operations collected so far to the extended list.

    Conventions
    - [int] positions and priorities are [Z]; token indices are [nat] with
      [0] for "no token", as in the C++ AST;
    - [QString], [QLatin1String] and [const char *] are [string];
    - a null pointer is [None];
    - [unsigned long] is the 64-bit type of the LP64 targets. *)

From Stdlib Require Import ZArith List String Ascii Bool Lia Sorted.
From stdpp Require Import base gmap strings.

Import ListNotations.
Local Open Scope Z_scope.

(** ** Text helpers (QString) *)

Module QStr.

(** [QString::left(n)]. *)
Fixpoint left (n : nat) (s : string) : string :=
  match n, s with
  | S k, String c r => String c (left k r)
  | _, _ => EmptyString
  end.

(** [QString::mid(n)]. *)
Fixpoint mid (n : nat) (s : string) : string :=
  match n, s with
  | S k, String _ r => mid k r
  | _, _ => s
  end.

(** [spell[i]] for [i] below the length; the terminating NUL otherwise. *)
Definition at_ (s : string) (i : nat) : ascii :=
  match String.get i s with
  | Some c => c
  | None => zero
  end.

(** The character as an [int]. *)
Definition code (c : ascii) : Z := Z.of_nat (nat_of_ascii c).

(** Lower-case folding of the letters [A] to [Z]. *)
Definition toLower (c : ascii) : ascii :=
  if (65 <=? code c) && (code c <=? 90)
  then ascii_of_nat (nat_of_ascii c + 32) else c.

(** [x.startsWith(p, Qt::CaseInsensitive)]. *)
Fixpoint startsWithCI (p s : string) : bool :=
  match p, s with
  | EmptyString, _ => true
  | String a p', String b s' =>
      Ascii.eqb (toLower a) (toLower b) && startsWithCI p' s'
  | String _ _, EmptyString => false
  end.

(** [QStringList::join(sep)]. *)
Definition join (sep : string) (l : list string) : string :=
  String.concat sep l.

(** [QString::contains(QLatin1Char(c))]. *)
Fixpoint contains (c : ascii) (s : string) : bool :=
  match s with
  | EmptyString => false
  | String d r => Ascii.eqb c d || contains c r
  end.

(** [QString::isEmpty()]. *)
Definition isEmpty (s : string) : bool :=
  match s with EmptyString => true | _ => false end.

End QStr.

(** ** [unsigned long]: parsing and printing *)

Module ULong.

(** [std::numeric_limits<unsigned long>::digits]. *)
Definition digits : nat := 64.

(** [std::numeric_limits<unsigned long>::max()]. *)
Definition max : Z := 2 ^ Z.of_nat digits - 1.

(** [std::isxdigit]. *)
Definition isxdigit (c : ascii) : bool :=
  let n := QStr.code c in
  ((48 <=? n) && (n <=? 57)) || ((97 <=? n) && (n <=? 102))
  || ((65 <=? n) && (n <=? 70)).

(** Value of a digit character in the bases up to 36. *)
Definition digitValue (c : ascii) : option Z :=
  let n := QStr.code c in
  if (48 <=? n) && (n <=? 57) then Some (n - 48)
  else if (97 <=? n) && (n <=? 122) then Some (n - 87)
  else if (65 <=? n) && (n <=? 90) then Some (n - 55)
  else None.

(** The digit loop of [strtoull]: every character has to be a digit of
    the base, and the accumulated value has to stay representable. *)
Fixpoint parseDigits (base : Z) (s : string) (acc : Z) : option Z :=
  match s with
  | EmptyString => Some acc
  | String c r =>
      match digitValue c with
      | Some d =>
          if d <? base then
            let acc' := acc * base + d in
            if acc' <=? max then parseDigits base r acc' else None
          else None
      | None => None
      end
  end.

(** A number has at least one digit. *)
Definition parseNonEmpty (base : Z) (s : string) : option Z :=
  match s with
  | EmptyString => None
  | _ => parseDigits base s 0
  end.

(** [QString::toULong(&valid, base)] on the spelling of a numeric literal
    (no sign, no blanks): [None] stands for [valid == false].  With base 0
    the C convention selects the base from the prefix; the rule passes
    base 0 only for spellings that do not start with [0b]. *)
Definition toULong (s : string) (base : Z) : option Z :=
  if base =? 0 then
    if QStr.startsWithCI "0x" s then parseNonEmpty 16 (QStr.mid 2 s)
    else if QStr.startsWithCI "0" s then parseNonEmpty 8 s
    else parseNonEmpty 10 s
  else parseNonEmpty base s.

(** Digit character of [printf]: [%lX] prints upper-case letters. *)
Definition digitChar (d : Z) : ascii :=
  if d <? 10 then ascii_of_nat (Z.to_nat (48 + d))
  else ascii_of_nat (Z.to_nat (55 + d)).

(** The conversion loop of [printf] for an unsigned argument:
    [do { *--p = digit(v % base); v /= base; } while (v);]. *)
Fixpoint utoa (fuel : nat) (base v : Z) (acc : string) : string :=
  match fuel with
  | O => acc
  | S f =>
      let acc' := String (digitChar (v mod base)) acc in
      if v / base =? 0 then acc' else utoa f base (v / base) acc'
  end.

(** ["%lX"], ["%lo"] and ["%lu"]. *)
Definition fmt_lX (v : Z) : string := utoa digits 16 v EmptyString.
Definition fmt_lo (v : Z) : string := utoa digits 8 v EmptyString.
Definition fmt_lu (v : Z) : string := utoa digits 10 v EmptyString.

(** [std::bitset<digits>(v).to_string()]: all the bits, most significant
    first. *)
Fixpoint bits (n : nat) (v : Z) : string :=
  match n with
  | O => EmptyString
  | S k =>
      String (if Z.testbit v (Z.of_nat k) then "1"%char else "0"%char)
             (bits k v)
  end.

Definition bitset_to_string (v : Z) : string := bits digits v.

(** [QString::remove(QRegularExpression("^[0]*"))]. *)
Fixpoint removeLeadingZeros (s : string) : string :=
  match s with
  | String c r => if Ascii.eqb c "0"%char then removeLeadingZeros r else s
  | EmptyString => EmptyString
  end.

End ULong.

(** ** Tokens and literals *)

(** Token kinds ([cplusplus/Token.h]); [T_EOF_SYMBOL] is the kind 0. *)
Inductive Kind : Type :=
| T_EOF_SYMBOL
| T_NUMERIC_LITERAL
| T_AMPER_AMPER
| T_PIPE_PIPE
| T_OTHER (k : nat).

(** [Token::is(k)] and the [==] of two kinds. *)
Definition kind_eqb (a b : Kind) : bool :=
  match a, b with
  | T_EOF_SYMBOL, T_EOF_SYMBOL => true
  | T_NUMERIC_LITERAL, T_NUMERIC_LITERAL => true
  | T_AMPER_AMPER, T_AMPER_AMPER => true
  | T_PIPE_PIPE, T_PIPE_PIPE => true
  | T_OTHER x, T_OTHER y => Nat.eqb x y
  | _, _ => false
  end.

(** [NumericLiteral]: the spelling and the flags its constructor derives
    from it. *)
Record NumericLiteral : Type := {
  chars : string;
  isHex : bool;
  isDouble : bool;
  isFloat : bool;
}.

(** [NumericLiteral::size()]. *)
Definition NumericLiteral_size (n : NumericLiteral) : nat :=
  String.length (chars n).

Record Token : Type := {
  kind : Kind;
  number : NumericLiteral;   (* meaningful when the kind is T_NUMERIC_LITERAL *)
}.

(** ** Symbols of the code model *)

(** A declaration, reduced to what the rules print of it:
    [prettyName(LookupContext::fullyQualifiedName(decl))]. *)
Record Declaration : Type := { fullyQualifiedName : string }.

(** [Enum]: [memberAt(i)->asDeclaration()] for [i < memberCount()]. *)
Record Enum : Type := { memberAt : list (option Declaration) }.

(** [Function]: [name()] and [enclosingScope()->asTemplate()]. *)
Record Function : Type := {
  name : option string;
  enclosingScopeIsTemplate : bool;
}.

(** [Block]: the scope symbol of a switch statement. *)
Record Block : Type := { line : nat; column : nat }.

(** ** Syntax tree

    Every node carries the document offsets that [file->startOf(node)] and
    [file->endOf(node)] report for it.  A field whose C++ type is a pointer
    is an [option], a [...ListAST] is a [list]; a field typed with a subclass
    of [AST] in C++ holds a node of that class. *)
Record Range : Type := { range_start : Z; range_end : Z }.

#[warnings="-register-all"]
Inductive AST : Type :=
(* declarations *)
| SimpleDeclarationAST (rg : Range) (decl_specifier_list : list AST)
    (declarator_list : list AST) (semicolon_token : nat)
| EnumSpecifierAST (rg : Range)
| ClassSpecifierAST (rg : Range)
| SimpleSpecifierAST (rg : Range)
| DeclaratorAST (rg : Range) (core_declarator : option AST)
    (postfix_declarator_list : list AST) (equal_token : nat)
    (initializer : option AST)
| DeclaratorIdAST (rg : Range) (declarator_name : option string)
(* a [CoreDeclaratorAST] that is no declarator id (a nested or a
   decomposition declarator), with its children in visiting order *)
| CoreDeclaratorAST (rg : Range) (children : list AST)
| FunctionDeclaratorAST (rg : Range)
    (parameter_declaration_clause : option AST) (rparen_token : nat)
| ParameterDeclarationClauseAST (rg : Range)
    (parameter_declaration_list : list AST) (dot_dot_dot_token : nat)
| ParameterDeclarationAST (rg : Range) (type_specifier_list : list AST)
    (declarator : option AST)
| FunctionDefinitionAST (rg : Range) (declarator : AST)
    (function_body : option AST) (symbol : option Function)
(* statements *)
| CompoundStatementAST (rg : Range) (lbrace_token : nat)
    (statement_list : list AST)
| IfStatementAST (rg : Range) (if_token rparen_token : nat)
    (condition : option AST) (statement : option AST) (else_token : nat)
    (else_statement : option AST)
| WhileStatementAST (rg : Range) (while_token rparen_token : nat)
    (condition : option AST) (statement : option AST)
| ForStatementAST (rg : Range) (for_token rparen_token : nat)
    (initializer : option AST) (condition : option AST)
    (expression : option AST) (statement : option AST)
| RangeBasedForStatementAST (rg : Range) (for_token rparen_token : nat)
    (expression : option AST) (statement : option AST)
| ForeachStatementAST (rg : Range) (expression : option AST)
    (statement : option AST)
| DoStatementAST (rg : Range) (do_token : nat) (statement : option AST)
    (while_token : nat) (expression : option AST)
| TryBlockStatementAST (rg : Range) (statement : option AST)
    (catch_clause_list : list AST)
| CatchClauseAST (rg : Range) (statement : option AST)
| SwitchStatementAST (rg : Range) (condition : option AST)
    (statement : option AST) (symbol : option Block)
| CaseStatementAST (rg : Range) (expression : option AST)
    (statement : option AST)
| DeclarationStatementAST (rg : Range) (declaration : option AST)
| ReturnStatementAST (rg : Range) (expression : option AST)
| ExpressionStatementAST (rg : Range) (expression : option AST)
(* expressions *)
| BinaryExpressionAST (rg : Range) (left_expression : option AST)
    (binary_op_token : nat) (right_expression : option AST)
| NumericLiteralAST (rg : Range) (literal_token : nat)
| StringLiteralAST (rg : Range) (literal_token : nat)
| BoolLiteralAST (rg : Range) (literal_token : nat)
| IdExpressionAST (rg : Range) (id : string)
| LambdaExpressionAST (rg : Range) (statement : option AST)
(* any other node, with its children in visiting order *)
| OtherAST (rg : Range) (children : list AST).

Definition range (a : AST) : Range :=
  match a with
  | SimpleDeclarationAST rg _ _ _ | EnumSpecifierAST rg | ClassSpecifierAST rg
  | SimpleSpecifierAST rg | DeclaratorAST rg _ _ _ _ | DeclaratorIdAST rg _
  | CoreDeclaratorAST rg _
  | FunctionDeclaratorAST rg _ _ | ParameterDeclarationClauseAST rg _ _
  | ParameterDeclarationAST rg _ _ | FunctionDefinitionAST rg _ _ _
  | CompoundStatementAST rg _ _ | IfStatementAST rg _ _ _ _ _ _
  | WhileStatementAST rg _ _ _ _ | ForStatementAST rg _ _ _ _ _ _
  | RangeBasedForStatementAST rg _ _ _ _ | ForeachStatementAST rg _ _
  | DoStatementAST rg _ _ _ _ | TryBlockStatementAST rg _ _
  | CatchClauseAST rg _ | SwitchStatementAST rg _ _ _
  | CaseStatementAST rg _ _ | DeclarationStatementAST rg _
  | ReturnStatementAST rg _ | ExpressionStatementAST rg _
  | BinaryExpressionAST rg _ _ _ | NumericLiteralAST rg _
  | StringLiteralAST rg _ | BoolLiteralAST rg _ | IdExpressionAST rg _
  | LambdaExpressionAST rg _ | OtherAST rg _ => rg
  end.

(** [file->startOf(ast)] and [file->endOf(ast)]. *)
Definition startOf (a : AST) : Z := range_start (range a).
Definition endOf (a : AST) : Z := range_end (range a).

Definition asCompoundStatement (a : AST) : bool :=
  match a with CompoundStatementAST _ _ _ => true | _ => false end.

Definition asIfStatement (a : AST) : bool :=
  match a with IfStatementAST _ _ _ _ _ _ _ => true | _ => false end.

(** The children of a node in the order [accept0] visits them. *)
Section Children.
Context {S : Type} (rec : AST -> S -> S).

Definition acceptOpt (o : option AST) (s : S) : S :=
  match o with Some a => rec a s | None => s end.

Definition acceptList (l : list AST) (s : S) : S :=
  fold_left (fun s a => rec a s) l s.

Definition acceptChildren (a : AST) (s : S) : S :=
  match a with
  | SimpleDeclarationAST _ specs decls _ => acceptList decls (acceptList specs s)
  | EnumSpecifierAST _ | ClassSpecifierAST _ | SimpleSpecifierAST _ => s
  | DeclaratorAST _ core postfix _ init =>
      acceptOpt init (acceptList postfix (acceptOpt core s))
  | DeclaratorIdAST _ _ => s
  | CoreDeclaratorAST _ children => acceptList children s
  | FunctionDeclaratorAST _ clause _ => acceptOpt clause s
  | ParameterDeclarationClauseAST _ params _ => acceptList params s
  | ParameterDeclarationAST _ specs decl => acceptOpt decl (acceptList specs s)
  | FunctionDefinitionAST _ decl body _ => acceptOpt body (rec decl s)
  | CompoundStatementAST _ _ stmts => acceptList stmts s
  | IfStatementAST _ _ _ cond stmt _ els =>
      acceptOpt els (acceptOpt stmt (acceptOpt cond s))
  | WhileStatementAST _ _ _ cond stmt => acceptOpt stmt (acceptOpt cond s)
  | ForStatementAST _ _ _ init cond expr stmt =>
      acceptOpt stmt (acceptOpt expr (acceptOpt cond (acceptOpt init s)))
  | RangeBasedForStatementAST _ _ _ expr stmt =>
      acceptOpt stmt (acceptOpt expr s)
  | ForeachStatementAST _ expr stmt => acceptOpt stmt (acceptOpt expr s)
  | DoStatementAST _ _ stmt _ expr => acceptOpt expr (acceptOpt stmt s)
  | TryBlockStatementAST _ stmt catches => acceptList catches (acceptOpt stmt s)
  | CatchClauseAST _ stmt => acceptOpt stmt s
  | SwitchStatementAST _ cond stmt _ => acceptOpt stmt (acceptOpt cond s)
  | CaseStatementAST _ expr stmt => acceptOpt stmt (acceptOpt expr s)
  | DeclarationStatementAST _ decl => acceptOpt decl s
  | ReturnStatementAST _ expr => acceptOpt expr s
  | ExpressionStatementAST _ expr => acceptOpt expr s
  | BinaryExpressionAST _ l _ r => acceptOpt r (acceptOpt l s)
  | NumericLiteralAST _ _ | StringLiteralAST _ _ | BoolLiteralAST _ _
  | IdExpressionAST _ _ => s
  | LambdaExpressionAST _ stmt => acceptOpt stmt s
  | OtherAST _ children => acceptList children s
  end.
End Children.

(** A visitor that only overrides [preVisit]: [AST::accept] calls
    [preVisit] and descends into the children when it answers [true]. *)
Fixpoint acceptPre {S : Type} (preVisit : AST -> S -> bool * S) (a : AST)
    (s : S) : S :=
  let '(descend, s1) := preVisit a s in
  if descend then acceptChildren (acceptPre preVisit) a s1 else s1.

(** ** Change sets *)

Module ChangeSet.

(** Modelled from the spec: the change set class ([Utils::ChangeSet]) is
    not part of the sources.  The edits are the primitives of the data
    model (section 3). *)
Inductive Edit : Type :=
| Insert (pos : Z) (text : string)
| Remove (start end_ : Z)
| Replace (start end_ : Z) (text : string)
| Move (srcStart srcEnd dstPos : Z)
| Copy (srcStart srcEnd dstPos : Z)
| Flip (aStart aEnd bStart bEnd : Z).

(** Modelled from the spec: a change set is the ordered collection of its
    primitive edits; every operation appends one, without applying it. *)
Definition ChangeSet : Type := list Edit.

(** Modelled from the spec: [insert(pos, text)]. *)
Definition insert (cs : ChangeSet) (pos : Z) (text : string) : ChangeSet :=
  cs ++ [Insert pos text].

(** Modelled from the spec: [remove(start, end)]. *)
Definition remove (cs : ChangeSet) (start end_ : Z) : ChangeSet :=
  cs ++ [Remove start end_].

(** Modelled from the spec: [replace(start, end, text)]. *)
Definition replace (cs : ChangeSet) (start end_ : Z) (text : string)
    : ChangeSet :=
  cs ++ [Replace start end_ text].

(** Modelled from the spec: [move(srcStart, srcEnd, dstPos)]. *)
Definition move (cs : ChangeSet) (srcStart srcEnd dstPos : Z) : ChangeSet :=
  cs ++ [Move srcStart srcEnd dstPos].

(** Modelled from the spec: [copy(srcStart, srcEnd, dstPos)]. *)
Definition copy (cs : ChangeSet) (srcStart srcEnd dstPos : Z) : ChangeSet :=
  cs ++ [Copy srcStart srcEnd dstPos].

(** Modelled from the spec: [flip(rangeA, rangeB)]. *)
Definition flip (cs : ChangeSet) (aStart aEnd bStart bEnd : Z) : ChangeSet :=
  cs ++ [Flip aStart aEnd bStart bEnd].

(** Modelled from the spec: the source ranges of a primitive, as half-open
    intervals of the buffer snapshot.  An insertion has no source range. *)
Definition sourceRanges (e : Edit) : list (Z * Z) :=
  match e with
  | Insert _ _ => []
  | Remove s e | Replace s e _ | Move s e _ | Copy s e _ => [(s, e)]
  | Flip a b c d => [(a, b); (c, d)]
  end.

(** Modelled from the spec: two half-open intervals share a character. *)
Definition intersect (r1 r2 : Z * Z) : bool :=
  (Z.max (fst r1) (fst r2) <? Z.min (snd r1) (snd r2)).

(** Modelled from the spec: a move or a copy states its relationship to
    the range it reads ("move semantics clear the source"); the other
    primitives do not. *)
Definition isMoveOrCopy (e : Edit) : bool :=
  match e with
  | Move _ _ _ | Copy _ _ _ => true
  | _ => false
  end.

(** Modelled from the spec: two primitives conflict when their source
    ranges intersect without an explicit move/copy relationship. *)
Definition conflict (e1 e2 : Edit) : bool :=
  negb (isMoveOrCopy e1) && negb (isMoveOrCopy e2)
  && existsb (fun r1 => existsb (intersect r1) (sourceRanges e2))
       (sourceRanges e1).

(** Modelled from the spec: the same, as a proposition: neither of the
    two is a move or a copy, and a source range of the one shares an
    offset with a source range of the other. *)
Definition conflicting (e1 e2 : Edit) : Prop :=
  isMoveOrCopy e1 = false /\ isMoveOrCopy e2 = false
  /\ exists r1 r2 p,
       In r1 (sourceRanges e1) /\ In r2 (sourceRanges e2)
       /\ fst r1 <= p < snd r1 /\ fst r2 <= p < snd r2.

(** Modelled from the spec: some two primitives of the change set
    conflict. *)
Fixpoint hasOverlap (cs : ChangeSet) : bool :=
  match cs with
  | [] => false
  | e :: rest => existsb (conflict e) rest || hasOverlap rest
  end.

(** Modelled from the spec: the text [[s, e)] of the snapshot. *)
Definition textOf (buffer : string) (s e : Z) : string :=
  String.substring (Z.to_nat s) (Z.to_nat (e - s)) buffer.

(** Modelled from the spec: what a primitive puts in front of the
    character at offset [p] of the snapshot.  All the texts are read from
    the snapshot, so that no edit shifts what another one declared. *)
Definition insertedAt (buffer : string) (p : Z) (e : Edit) : string :=
  match e with
  | Insert pos text => if pos =? p then text else EmptyString
  | Remove _ _ => EmptyString
  | Replace s _ text => if s =? p then text else EmptyString
  | Move s e d | Copy s e d => if d =? p then textOf buffer s e else EmptyString
  | Flip a b c d =>
      String.append (if a =? p then textOf buffer c d else EmptyString)
                    (if c =? p then textOf buffer a b else EmptyString)
  end.

(** Modelled from the spec: the character at offset [p] of the snapshot
    is dropped by the primitive. *)
Definition removedAt (p : Z) (e : Edit) : bool :=
  match e with
  | Insert _ _ | Copy _ _ _ => false
  | Remove s e | Replace s e _ | Move s e _ => (s <=? p) && (p <? e)
  | Flip a b c d => ((a <=? p) && (p <? b)) || ((c <=? p) && (p <? d))
  end.

(** Modelled from the spec: what the whole change set puts in front of
    the character at offset [p], in the order of its primitives. *)
Definition insertionsAt (cs : ChangeSet) (buffer : string) (p : Z) : string :=
  fold_right (fun e acc => String.append (insertedAt buffer p e) acc)
    EmptyString cs.

(** Modelled from the spec: the single pass over the snapshot; [rest] is
    the snapshot from offset [p] on. *)
Fixpoint rewrite (cs : ChangeSet) (buffer : string) (rest : string) (p : Z)
    : string :=
  String.append (insertionsAt cs buffer p)
    match rest with
    | EmptyString => EmptyString
    | String c rest' =>
        let tail := rewrite cs buffer rest' (p + 1) in
        if existsb (removedAt p) cs then tail else String c tail
    end.

(** Modelled from the spec: how [apply] ends. *)
Inductive Outcome : Type := Applied | OverlapError.

(** Modelled from the spec: [apply(buffer)] fails with [OverlapError],
    before any mutation, when two primitives conflict; otherwise it
    rewrites the buffer in one pass.  The second component is the buffer
    after the call. *)
Definition apply (cs : ChangeSet) (buffer : string) : Outcome * string :=
  if hasOverlap cs then (OverlapError, buffer)
  else (Applied, rewrite cs buffer buffer 0).

End ChangeSet.

(** ** The quick-fix interface and the operations *)

(** [SemanticInfo::Use]. *)
Record Use : Type := { isInvalid : bool; use_line : nat; use_column : nat }.

(** A local symbol, reduced to [printer.prettyName(symbol->name())]. *)
Record LocalSymbol : Type := { prettyName : string }.

Record FunctionDeclDefLink : Type := { isMarkerVisible : bool }.

(** [CppQuickFixInterface]: the ancestor path from the root to the node
    under the cursor, and the services of the refactoring file, of the
    semantic info and of the editor that the rules call. *)
Record CppQuickFixInterface : Type := {
  path : list AST;
  (* CppRefactoringFile *)
  tokenAt : nat -> Token;
  startOfToken : nat -> Z;
  endOfToken : nat -> Z;
  isCursorOnToken : nat -> bool;
  isCursorOn : AST -> bool;
  hasSelection : bool;
  selectionStart : Z;
  selectionEnd : Z;
  textOf : Z -> Z -> string;
  position : nat -> nat -> Z;
  (* SemanticInfo and lookup *)
  localUses : list (LocalSymbol * list Use);
  conditionEnum : AST -> option Enum;
  typeOfExpression : AST -> option Declaration;
  (* editor *)
  declDefLink : option FunctionDeclDefLink;
}.

(** The operations the rules offer.  The first field is the priority of
    [CppQuickFixOperation]. *)
Inductive Operation : Type :=
| SplitSimpleDeclarationOp (priority : Z) (declaration : AST)
| AddBracesToControlStatementOp (priority : Z) (m_statements : list AST)
    (m_elseStatement : option AST) (m_elseToken : nat)
| SplitIfStatementOp (priority : Z) (pattern : AST) (condition : AST)
| ConvertNumericLiteralOp (priority : Z) (description : string)
    (start end_ : Z) (replacement : string)
| CompleteSwitchCaseStatementOp (priority : Z) (compoundStatement : AST)
    (values : list string)
| ExtractFunctionOperation (priority : Z)
    (m_extractionStart m_extractionEnd : Z) (m_refFuncDef : AST)
    (m_funcReturn : option LocalSymbol)
    (m_relevantDecls : list (string * string))
| ExtractLiteralAsParameterOp (priority : Z) (m_literal : AST)
    (m_functionDefinition : AST)
| ApplyDeclDefLinkOperation (priority : Z) (m_link : FunctionDeclDefLink).

Definition QuickFixOperations : Type := list Operation.

Definition priority (op : Operation) : Z :=
  match op with
  | SplitSimpleDeclarationOp p _ | AddBracesToControlStatementOp p _ _ _
  | SplitIfStatementOp p _ _ | ConvertNumericLiteralOp p _ _ _ _
  | CompleteSwitchCaseStatementOp p _ _
  | ExtractFunctionOperation p _ _ _ _ _ | ExtractLiteralAsParameterOp p _ _
  | ApplyDeclDefLinkOperation p _ => p
  end.

(** The default of the [priority] argument of [CppQuickFixOperation]
    ([cppquickfix.h]), which the operations built without a priority
    carry. *)
Definition defaultPriority : Z := -1.

(** [for (int index = path.size() - 1; index != -1; --index)]: the
    innermost node of the path, at an index below [n], that [sel] accepts. *)
Fixpoint innermost {A : Type} (sel : AST -> option A) (path : list AST)
    (n : nat) : option (nat * A) :=
  match n with
  | O => None
  | S index =>
      match nth_error path index with
      | Some node =>
          match sel node with
          | Some a => Some (index, a)
          | None => innermost sel path index
          end
      | None => innermost sel path index
      end
  end.

(** [list->lastValue()]. *)
Fixpoint lastValue (l : list AST) : option AST :=
  match l with
  | [] => None
  | [a] => Some a
  | _ :: r => lastValue r
  end.

(** ** Split Declaration *)

Definition checkDeclarationForSplit (declaration : AST) : bool :=
  match declaration with
  | SimpleDeclarationAST _ decl_specifier_list declarator_list semicolon_token =>
      if Nat.eqb semicolon_token 0 then false
      else
        match decl_specifier_list with
        | [] => false
        | _ =>
            if existsb (fun specifier =>
                          match specifier with
                          | EnumSpecifierAST _ | ClassSpecifierAST _ => true
                          | _ => false
                          end) decl_specifier_list
            then false
            else
              match declarator_list with
              | _ :: _ :: _ => true
              | _ => false
              end
        end
  | _ => false
  end.

Module SplitSimpleDeclaration.

(** [node->asCoreDeclarator()]: a declarator id or another core
    declarator. *)
Definition asCoreDeclarator (node : AST) : bool :=
  match node with
  | DeclaratorIdAST _ _ | CoreDeclaratorAST _ _ => true
  | _ => false
  end.

Fixpoint loop (interface : CppQuickFixInterface) (index : nat)
    (core_declarator : option AST) (result : QuickFixOperations)
    : QuickFixOperations :=
  match index with
  | O => result
  | S index =>
      match nth_error (path interface) index with
      | None => result
      | Some node =>
          if asCoreDeclarator node then
            loop interface index (Some node) result
          else
            match node with
            | SimpleDeclarationAST _ decl_specifier_list _ _ =>
                if checkDeclarationForSplit node then
                  let cursorPosition := selectionStart interface in
                  let startOfDeclSpecifier :=
                    match decl_specifier_list with
                    | spec :: _ => startOf spec
                    | [] => 0
                    end in
                  let endOfDeclSpecifier :=
                    match lastValue decl_specifier_list with
                    | Some spec => endOf spec
                    | None => 0
                    end in
                  if (startOfDeclSpecifier <=? cursorPosition)
                     && (cursorPosition <=? endOfDeclSpecifier)
                  then result ++ [SplitSimpleDeclarationOp (Z.of_nat index) node]
                  else
                    match core_declarator with
                    | Some core =>
                        if isCursorOn interface core
                        then result ++ [SplitSimpleDeclarationOp (Z.of_nat index) node]
                        else result
                    | None => result
                    end
                else result
            | _ => loop interface index core_declarator result
            end
      end
  end.

Definition doMatch (interface : CppQuickFixInterface)
    (result : QuickFixOperations) : QuickFixOperations :=
  loop interface (length (path interface)) None result.

End SplitSimpleDeclaration.

(** ** Add Curly Braces *)

Module AddBracesToControlStatement.

(** The statement classes the template is instantiated with. *)
Inductive Statement : Type :=
| IfStatement | WhileStatement | ForStatement | RangeBasedForStatement
| DoStatement.

(** [asControlStatement<Statement>(node)]. *)
Definition asControlStatement (T : Statement) (node : AST) : bool :=
  match T, node with
  | IfStatement, IfStatementAST _ _ _ _ _ _ _
  | WhileStatement, WhileStatementAST _ _ _ _ _
  | ForStatement, ForStatementAST _ _ _ _ _ _ _
  | RangeBasedForStatement, RangeBasedForStatementAST _ _ _ _ _
  | DoStatement, DoStatementAST _ _ _ _ _ => true
  | _, _ => false
  end.

(** [triggerToken(statement)]. *)
Definition triggerToken (statement : AST) : nat :=
  match statement with
  | IfStatementAST _ if_token _ _ _ _ _ => if_token
  | WhileStatementAST _ while_token _ _ _ => while_token
  | DoStatementAST _ do_token _ _ _ => do_token
  | ForStatementAST _ for_token _ _ _ _ _
  | RangeBasedForStatementAST _ for_token _ _ _ => for_token
  | _ => 0%nat
  end.

(** [statement->statement] of a control statement. *)
Definition body (statement : AST) : option AST :=
  match statement with
  | IfStatementAST _ _ _ _ stmt _ _
  | WhileStatementAST _ _ _ _ stmt
  | ForStatementAST _ _ _ _ _ _ stmt
  | RangeBasedForStatementAST _ _ _ _ stmt
  | DoStatementAST _ _ stmt _ _ => stmt
  | _ => None
  end.

(** [s->statement && !s->statement->asCompoundStatement()]. *)
Definition lacksBraces (statement : AST) : bool :=
  match body statement with
  | Some stmt => negb (asCompoundStatement stmt)
  | None => false
  end.

(** The loop over the else-if chain: [currentIfStmt] is the if statement
    whose else branch is inspected next.  It returns the statements to
    wrap and the [elseStmt] and [elseToken] the loop ends with. *)
Fixpoint elseChain (currentIfStmt : AST) (statements : list AST)
    : list AST * option AST * nat :=
  match currentIfStmt with
  | IfStatementAST _ _ _ _ _ else_token else_statement =>
      match else_statement with
      | Some (IfStatementAST _ _ _ _ _ _ _ as next) =>
          elseChain next
            (if lacksBraces next then statements ++ [next] else statements)
      | _ => (statements, else_statement, else_token)
      end
  | _ => (statements, None, 0%nat)
  end.

Definition checkControlStatementsHelper (T : Statement)
    (interface : CppQuickFixInterface) (result : QuickFixOperations)
    : bool * QuickFixOperations :=
  match lastValue (path interface) with
  | None => (false, result)
  | Some statement =>
      if negb (asControlStatement T statement) then (false, result)
      else
        let statements :=
          if isCursorOnToken interface (triggerToken statement)
             && lacksBraces statement
          then [statement] else [] in
        let '(statements, elseStmt, elseToken) :=
          match T with
          | IfStatement =>
              let '(statements, elseStmt, elseToken) :=
                elseChain statement statements in
              match elseStmt with
              | Some e =>
                  if asIfStatement e || asCompoundStatement e
                  then (statements, None, 0%nat)
                  else (statements, elseStmt, elseToken)
              | None => (statements, elseStmt, elseToken)
              end
          | _ => (statements, None, 0%nat)
          end in
        match statements, elseStmt with
        | [], None => (true, result)
        | _, _ =>
            (true,
             result ++ [AddBracesToControlStatementOp 0 statements elseStmt
                          elseToken])
        end
  end.

(** [(... || checkControlStatementsHelper<Statements>(interface, result))]. *)
Fixpoint checkControlStatements (Statements : list Statement)
    (interface : CppQuickFixInterface) (result : QuickFixOperations)
    : QuickFixOperations :=
  match Statements with
  | [] => result
  | T :: rest =>
      let '(handled, result') :=
        checkControlStatementsHelper T interface result in
      if handled then result'
      else checkControlStatements rest interface result'
  end.

Definition doMatch (interface : CppQuickFixInterface)
    (result : QuickFixOperations) : QuickFixOperations :=
  match path interface with
  | [] => result
  | _ =>
      checkControlStatements
        [IfStatement; WhileStatement; ForStatement; RangeBasedForStatement;
         DoStatement] interface result
  end.

End AddBracesToControlStatement.

(** ** Split if Statement *)

Module SplitIfStatement.

(** The loop [for (++index; index < path.size(); ++index)] over the nodes
    below the if statement; [rest] holds the nodes from [index] on. *)
Fixpoint chain (interface : CppQuickFixInterface) (pattern : AST)
    (hasElse : bool) (rest : list AST) (index : nat) (splitKind : Kind)
    (result : QuickFixOperations) : QuickFixOperations :=
  match rest with
  | [] => result
  | node :: rest' =>
      match node with
      | BinaryExpressionAST _ _ binary_op_token _ =>
          let binaryToken := tokenAt interface binary_op_token in
          (* only accept a chain of ||s or &&s - no mixing *)
          let continue (splitKind : Kind) :=
            if isCursorOnToken interface binary_op_token
            then result ++ [SplitIfStatementOp (Z.of_nat index) pattern node]
            else chain interface pattern hasElse rest' (S index)
                   splitKind result in
          if kind_eqb splitKind T_EOF_SYMBOL then
            let splitKind := kind binaryToken in
            if negb (kind_eqb splitKind T_AMPER_AMPER)
               && negb (kind_eqb splitKind T_PIPE_PIPE)
            then result
            (* we can't reliably split &&s in ifs with an else branch *)
            else if kind_eqb splitKind T_AMPER_AMPER && hasElse
            then result
            else continue splitKind
          else if negb (kind_eqb splitKind (kind binaryToken)) then result
          else continue splitKind
      | _ => result
      end
  end.

Definition selectIf (node : AST) : option AST :=
  if asIfStatement node then Some node else None.

Definition doMatch (interface : CppQuickFixInterface)
    (result : QuickFixOperations) : QuickFixOperations :=
  let path := path interface in
  match innermost selectIf path (length path) with
  | Some (index, (IfStatementAST _ _ _ _ (Some _) _ else_statement as pattern)) =>
      chain interface pattern
        (match else_statement with Some _ => true | None => false end)
        (skipn (S index) path) (S index) T_EOF_SYMBOL result
  | _ => result
  end.

End SplitIfStatement.

(** ** Convert to Hexadecimal / Octal / Decimal / Binary *)

Module ConvertNumericLiteral.

(** [perform]: the change set of the operation, applied to the buffer. *)
Definition changes (op : Operation) : ChangeSet.ChangeSet :=
  match op with
  | ConvertNumericLiteralOp _ _ start end_ replacement =>
      ChangeSet.replace [] start end_ replacement
  | _ => []
  end.

Definition perform (op : Operation) (buffer : string)
    : ChangeSet.Outcome * string :=
  ChangeSet.apply (changes op) buffer.

(** [while (numberLength > 0 && !std::isxdigit(spell[numberLength - 1]))
      --numberLength;] *)
Fixpoint stripSuffix (spell : string) (numberLength : nat) : nat :=
  match numberLength with
  | O => O
  | S n =>
      if ULong.isxdigit (QStr.at_ spell n) then numberLength
      else stripSuffix spell n
  end.

(** [if (x.startsWith("0b", Qt::CaseInsensitive))
      value = x.mid(2).toULong(&valid, 2);
    else value = x.toULong(&valid, 0);] *)
Definition toNumber (x : string) : option Z :=
  if QStr.startsWithCI "0b" x
  then ULong.toULong (QStr.mid 2 x) 2
  else ULong.toULong x 0.

Definition tr_hex : string := "Convert to Hexadecimal".
Definition tr_oct : string := "Convert to Octal".
Definition tr_dec : string := "Convert to Decimal".
Definition tr_bin : string := "Convert to Binary".

Definition doMatch (interface : CppQuickFixInterface)
    (result : QuickFixOperations) : QuickFixOperations :=
  let path := path interface in
  match lastValue path with
  | Some (NumericLiteralAST _ literal_token as literal) =>
      let token := tokenAt interface literal_token in
      if negb (kind_eqb (kind token) T_NUMERIC_LITERAL) then result
      else
        let numeric := number token in
        if isDouble numeric || isFloat numeric then result
        else
          (* remove trailing L or U and stuff *)
          let spell := chars numeric in
          let numberLength := stripSuffix spell (NumericLiteral_size numeric) in
          if (numberLength <? 1)%nat then result
          else
            (* convert to number *)
            let x := QStr.left numberLength spell in
            match toNumber x with
            | None => result
            | Some value =>
                let priority := Z.of_nat (length path) - 1 in
                let start := startOf literal in
                let end_ := start + Z.of_nat numberLength in
                let str := chars numeric in
                let str0 := QStr.at_ str 0 in
                let str1 := QStr.at_ str 1 in
                let isBinary :=
                  (2 <? numberLength)%nat && Ascii.eqb str0 "0"
                  && (Ascii.eqb str1 "b" || Ascii.eqb str1 "B") in
                let isOctal :=
                  (2 <=? numberLength)%nat && Ascii.eqb str0 "0"
                  && (48 <=? QStr.code str1) && (QStr.code str1 <=? 55) in
                let isDecimal := negb (isBinary || isOctal || isHex numeric) in
                let result :=
                  if negb (isHex numeric) then
                    result ++ [ConvertNumericLiteralOp priority tr_hex start end_
                                 (String.append "0x" (ULong.fmt_lX value))]
                  else result in
                let result :=
                  if negb isOctal then
                    result ++ [ConvertNumericLiteralOp priority tr_oct start end_
                                 (String.append "0" (ULong.fmt_lo value))]
                  else result in
                let result :=
                  if negb isDecimal then
                    result ++ [ConvertNumericLiteralOp priority tr_dec start end_
                                 (ULong.fmt_lu value)]
                  else result in
                let result :=
                  if negb isBinary then
                    let replacement :=
                      if value =? 0 then String.append "0b" "0"
                      else String.append "0b"
                             (ULong.removeLeadingZeros
                                (ULong.bitset_to_string value)) in
                    result ++ [ConvertNumericLiteralOp priority tr_bin start end_
                                 replacement]
                  else result in
                result
            end
  | _ => result
  end.

End ConvertNumericLiteral.

(** ** Complete Switch Statement *)

Module CompleteSwitchCaseStatement.

(** [CaseStatementCollector]: its state is [foundCaseStatementLevel] and
    [values]. *)
Definition preVisit (interface : CppQuickFixInterface) (ast : AST)
    (st : bool * list string) : bool * (bool * list string) :=
  let '(foundCaseStatementLevel, values) := st in
  match ast with
  | CaseStatementAST _ csExpression _ =>
      let values :=
        match csExpression with
        | Some (IdExpressionAST _ _ as expression) =>
            match typeOfExpression interface expression with
            | Some decl => values ++ [fullyQualifiedName decl]
            | None => values
            end
        | _ => values
        end in
      (true, (true, values))
  | _ =>
      if foundCaseStatementLevel then (false, st) else (true, st)
  end.

(** [CaseStatementCollector::operator()]. *)
Definition caseValues (interface : CppQuickFixInterface) (ast : AST)
    : list string :=
  snd (acceptPre (preVisit interface) ast (false, [])).

(** [QStringList::removeAll]. *)
Definition removeAll (value : string) (values : list string) : list string :=
  List.filter (fun v => negb (String.eqb v value)) values.

(** The text [perform] inserts behind the opening brace. *)
Definition insertedText (values : list string) : string :=
  String.append "
case " (String.append (QStr.join ":
break;
case " values) ":
break;").

Definition changes (interface : CppQuickFixInterface) (op : Operation)
    : ChangeSet.ChangeSet :=
  match op with
  | CompleteSwitchCaseStatementOp _ (CompoundStatementAST _ lbrace_token _) values =>
      ChangeSet.insert [] (endOfToken interface lbrace_token)
        (insertedText values)
  | _ => []
  end.

(** The body of the loop once the switch statement is found. *)
Definition offer (interface : CppQuickFixInterface) (depth : nat)
    (switchStatement : AST) (result : QuickFixOperations)
    : QuickFixOperations :=
  match switchStatement with
  | SwitchStatementAST _ _
      (Some (CompoundStatementAST _ _ _ as compoundStatement)) (Some _) =>
      (* look if the condition's type is an enum *)
      match conditionEnum interface switchStatement with
      | Some e =>
          (* check the possible enum values *)
          let values :=
            flat_map (fun member =>
                        match member with
                        | Some decl => [fullyQualifiedName decl]
                        | None => []
                        end) (memberAt e) in
          (* Get the used values *)
          let usedValues := caseValues interface switchStatement in
          (* save the values that would be added *)
          let values :=
            fold_left (fun values usedValue => removeAll usedValue values)
              usedValues values in
          match values with
          | [] => result
          | _ =>
              result ++ [CompleteSwitchCaseStatementOp (Z.of_nat depth)
                           compoundStatement values]
          end
      | None => result
      end
  | _ => result   (* we ignore pathologic case "switch (t) case A: ;" *)
  end.

Definition asSwitchStatement (node : AST) : option AST :=
  match node with
  | SwitchStatementAST _ _ _ _ => Some node
  | _ => None
  end.

(** [for (int depth = path.size() - 1; depth >= 0; --depth)]. *)
Fixpoint loop (interface : CppQuickFixInterface) (depth : nat)
    (result : QuickFixOperations) : QuickFixOperations :=
  match depth with
  | O => result
  | S depth =>
      match nth_error (path interface) depth with
      | Some node =>
          match asSwitchStatement node with
          | Some switchStatement => offer interface depth switchStatement result
          | None => loop interface depth result
          end
      | None => loop interface depth result
      end
  end.

Definition doMatch (interface : CppQuickFixInterface)
    (result : QuickFixOperations) : QuickFixOperations :=
  match path interface with
  | [] => result
  | _ => loop interface (length (path interface)) result
  end.

End CompleteSwitchCaseStatement.

(** ** Extract Function *)

Module ExtractFunction.

(** The mutable members of [FunctionExtractionAnalyser]; [m_selStart],
    [m_selEnd] and [m_file] are fixed at construction. *)
Record Analyser : Type := {
  m_done : bool;
  m_failed : bool;
  m_extractionStart : Z;
  m_extractionEnd : Z;
  m_knownDecls : gmap string string;
}.

Definition init : Analyser :=
  {| m_done := false; m_failed := false; m_extractionStart := 0;
     m_extractionEnd := 0; m_knownDecls := ∅ |}.

Definition set_done (a : Analyser) : Analyser :=
  {| m_done := true; m_failed := m_failed a;
     m_extractionStart := m_extractionStart a;
     m_extractionEnd := m_extractionEnd a; m_knownDecls := m_knownDecls a |}.
Definition set_failed (a : Analyser) : Analyser :=
  {| m_done := m_done a; m_failed := true;
     m_extractionStart := m_extractionStart a;
     m_extractionEnd := m_extractionEnd a; m_knownDecls := m_knownDecls a |}.
Definition set_extractionStart (v : Z) (a : Analyser) : Analyser :=
  {| m_done := m_done a; m_failed := m_failed a; m_extractionStart := v;
     m_extractionEnd := m_extractionEnd a; m_knownDecls := m_knownDecls a |}.
Definition set_extractionEnd (v : Z) (a : Analyser) : Analyser :=
  {| m_done := m_done a; m_failed := m_failed a;
     m_extractionStart := m_extractionStart a; m_extractionEnd := v;
     m_knownDecls := m_knownDecls a |}.
Definition insert_knownDecl (k v : string) (a : Analyser) : Analyser :=
  {| m_done := m_done a; m_failed := m_failed a;
     m_extractionStart := m_extractionStart a;
     m_extractionEnd := m_extractionEnd a;
     m_knownDecls := <[k := v]> (m_knownDecls a) |}.

(** An [int] used as a condition. *)
Definition nonzero (z : Z) : bool := negb (z =? 0).

Definition assembleDeclarationData (interface : CppQuickFixInterface)
    (specifiers : string) (decltr : AST) : string * string :=
  match decltr with
  | DeclaratorAST _ (Some (DeclaratorIdAST _ (Some name) as core)) _ _ _ =>
      let decltrText := textOf interface (startOf decltr) (endOf core) in
      if negb (QStr.isEmpty decltrText) then
        let completeDecl :=
          if negb (QStr.contains " " decltrText)
          then String.append specifiers (String " " decltrText)
          else String.append specifiers decltrText in
        (name, completeDecl)
      else (EmptyString, EmptyString)
  | _ => (EmptyString, EmptyString)
  end.

Section Analyse.
Variable interface : CppQuickFixInterface.
Variables m_selStart m_selEnd : Z.

(** [statement(stmt)], with [accept] as [rec]. *)
Definition statement (rec : AST -> Analyser -> Analyser)
    (stmt : option AST) (a : Analyser) : Analyser :=
  match stmt with
  | None => a
  | Some stmt =>
      let stmtStart := startOf stmt in
      let stmtEnd := endOf stmt in
      if (stmtStart >=? m_selEnd)
         || (nonzero (m_extractionStart a) && (stmtEnd >? m_selEnd))
      then set_done a
      else
        let a :=
          if (stmtStart >=? m_selStart)
             && negb (nonzero (m_extractionStart a))
          then set_extractionStart stmtStart a else a in
        let a :=
          if (stmtEnd >? m_extractionEnd a)
             && nonzero (m_extractionStart a)
          then set_extractionEnd stmtEnd a else a in
        rec stmt a
  end.

(** [for (it = list; it; it = it->next) { statement(it->value);
      if (m_done) break; }] *)
Definition statements (rec : AST -> Analyser -> Analyser)
    : list AST -> Analyser -> Analyser :=
  fix go (l : list AST) (a : Analyser) : Analyser :=
    match l with
    | [] => a
    | stmt :: rest =>
        let a := statement rec (Some stmt) a in
        if m_done a then a else go rest a
    end.

(** [visit] of a [DeclarationStatementAST]. *)
Definition visitDeclarationStatement (declaration : option AST)
    (a : Analyser) : Analyser :=
  match declaration with
  | Some (SimpleDeclarationAST _ decl_specifier_list declarator_list _
          as simpleDecl) =>
      match lastValue decl_specifier_list, declarator_list with
      | Some lastSpecifier, _ :: _ =>
          let specifiers :=
            textOf interface (startOf simpleDecl) (endOf lastSpecifier) in
          fold_left
            (fun a decltr =>
               let p := assembleDeclarationData interface specifiers decltr in
               if negb (QStr.isEmpty (fst p))
               then insert_knownDecl (fst p) (snd p) a else a)
            declarator_list a
      | _, _ => a
      end
  | _ => a
  end.

(** [AST::accept] under the analyser: [preVisit] answers [!m_done]; the
    overridden [visit] functions answer [false] after their own work,
    the others let [accept0] walk the children. *)
Fixpoint accept (ast : AST) (a : Analyser) : Analyser :=
  if m_done a then a
  else
    match ast with
    | CaseStatementAST _ _ stmt => statement accept stmt a
    | CompoundStatementAST _ _ statement_list =>
        statements accept statement_list a
    | DoStatementAST _ _ stmt _ _ => statement accept stmt a
    | ForeachStatementAST _ _ stmt => statement accept stmt a
    | RangeBasedForStatementAST _ _ _ _ stmt => statement accept stmt a
    | ForStatementAST _ _ _ initializer _ _ stmt =>
        let a := statement accept initializer a in
        if negb (m_done a) then statement accept stmt a else a
    | IfStatementAST _ _ _ _ stmt _ else_statement =>
        let a := statement accept stmt a in
        if negb (m_done a) then statement accept else_statement a else a
    | TryBlockStatementAST _ stmt catch_clause_list =>
        statements accept catch_clause_list (statement accept stmt a)
    | WhileStatementAST _ _ _ _ stmt => statement accept stmt a
    | DeclarationStatementAST _ declaration =>
        visitDeclarationStatement declaration a
    | ReturnStatementAST _ _ =>
        if nonzero (m_extractionStart a) then set_failed (set_done a)
        else a
    | _ => acceptChildren accept ast a
    end.

(** [FunctionExtractionAnalyser::operator()]: the final state; the call
    answers [!m_failed]. *)
Definition analyse (refFunDef : AST) : Analyser :=
  let a := accept refFunDef init in
  if negb (m_failed a) && (m_extractionStart a =? m_extractionEnd a)
  then set_failed a else a.
End Analyse.

(** The declarations of the parameters of the reference function:
    the known declarations extended with them, and [refFuncParams]. *)
Definition collectParameters (interface : CppQuickFixInterface)
    (declarator : AST) (knownDecls : gmap string string)
    : gmap string string * gset string :=
  match declarator with
  | DeclaratorAST _ _
      (FunctionDeclaratorAST _
         (Some (ParameterDeclarationClauseAST _ parameter_declaration_list _))
         _ :: _) _ _ =>
      fold_left
        (fun acc paramDecl =>
           match paramDecl with
           | ParameterDeclarationAST _ type_specifier_list (Some decltr) =>
               let specifiers :=
                 textOf interface (startOf paramDecl)
                   (match lastValue type_specifier_list with
                    | Some spec => endOf spec
                    | None => 0
                    end) in
               let p := assembleDeclarationData interface specifiers decltr in
               if negb (QStr.isEmpty (fst p))
               then (<[fst p := snd p]> (fst acc), {[fst p]} ∪ snd acc)
               else acc
           | _ => acc
           end)
        parameter_declaration_list (knownDecls, ∅)
  | _ => (knownDecls, ∅)
  end.

(** Where the valid uses of one local lie:
    (usedBeforeExtraction, usedAfterExtraction, usedInsideExtraction). *)
Definition classify (interface : CppQuickFixInterface)
    (extractionStart extractionEnd : Z) (uses : list Use)
    : bool * bool * bool :=
  fold_left
    (fun '(before, after, inside) use =>
       if isInvalid use then (before, after, inside)
       else
         let position :=
           position interface (use_line use) (use_column use) in
         if position <? extractionStart then (true, after, inside)
         else if position >=? extractionEnd then (before, true, inside)
         else (before, after, true))
    uses (false, false, false).

Definition contains (m : gmap string string) (k : string) : bool :=
  match m !! k with Some _ => true | None => false end.

Definition value (m : gmap string string) (k : string) : string :=
  match m !! k with Some v => v | None => EmptyString end.

(** The loop over [localUses].  [None] stands for the [return]s that
    leave [doMatch] from inside the loop. *)
Fixpoint identify (interface : CppQuickFixInterface)
    (extractionStart extractionEnd : Z) (knownDecls : gmap string string)
    (refFuncParams : gset string)
    (localUses : list (LocalSymbol * list Use))
    (funcReturn : option LocalSymbol)
    (relevantDecls : list (string * string))
    : option (option LocalSymbol * list (string * string)) :=
  match localUses with
  | [] => Some (funcReturn, relevantDecls)
  | (key, uses) :: rest =>
      let '(usedBeforeExtraction, usedAfterExtraction, usedInsideExtraction) :=
        classify interface extractionStart extractionEnd uses in
      let name := prettyName key in
      let isParameter :=
        (usedBeforeExtraction && usedInsideExtraction)
        || (usedInsideExtraction && bool_decide (name ∈ refFuncParams)) in
      if isParameter && negb (contains knownDecls name) then None
      else
        let relevantDecls :=
          if isParameter
          then relevantDecls ++ [(name, value knownDecls name)]
          else relevantDecls in
        (* We assume that the first use of a local corresponds to its
           declaration. *)
        if usedInsideExtraction && usedAfterExtraction
           && negb usedBeforeExtraction
        then
          match funcReturn with
          | None =>
              if negb (contains knownDecls name) then None
              else
                (* The return, if any, is stored as the first item in the
                   list. *)
                identify interface extractionStart extractionEnd knownDecls
                  refFuncParams rest (Some key)
                  ((name, value knownDecls name) :: relevantDecls)
          | Some _ =>
              (* Would require multiple returns. *)
              None
          end
        else
          identify interface extractionStart extractionEnd knownDecls
            refFuncParams rest funcReturn relevantDecls
  end.

Definition asFunctionDefinition (node : AST) : option AST :=
  match node with
  | FunctionDefinitionAST _ _ _ _ => Some node
  | _ => None
  end.

Definition doMatch (interface : CppQuickFixInterface)
    (result : QuickFixOperations) : QuickFixOperations :=
  if negb (hasSelection interface) then result
  else
    let path := path interface in
    match innermost asFunctionDefinition path (length path) with
    | Some (_, (FunctionDefinitionAST _ declarator
                  (Some (CompoundStatementAST _ _ (_ :: _)))
                  (Some symbol) as refFuncDef)) =>
        match name symbol with
        | None => result
        | Some _ =>
            if enclosingScopeIsTemplate symbol then result
            else
              (* Adjust selection ends. *)
              let selStart := selectionStart interface in
              let selEnd := selectionEnd interface in
              let '(selStart, selEnd) :=
                if selStart >? selEnd then (selEnd, selStart)
                else (selStart, selEnd) in
              let analyser := analyse interface selStart selEnd refFuncDef in
              if m_failed analyser then result
              else
                let '(knownDecls, refFuncParams) :=
                  collectParameters interface declarator
                    (m_knownDecls analyser) in
                match identify interface (m_extractionStart analyser)
                        (m_extractionEnd analyser) knownDecls refFuncParams
                        (localUses interface) None [] with
                | None => result
                | Some (funcReturn, relevantDecls) =>
                    result ++ [ExtractFunctionOperation defaultPriority
                                 (m_extractionStart analyser)
                                 (m_extractionEnd analyser) refFuncDef
                                 funcReturn relevantDecls]
                end
        end
    | _ => result
    end.

End ExtractFunction.

(** ** Extract Constant as Function Parameter *)

Module ExtractLiteralAsParameter.

(** [while (!(function = path.at(i)->asFunctionDefinition())) { ... }],
    entered with [i = n - 1]. *)
Fixpoint enclosingFunction (path : list AST) (n : nat) : option AST :=
  match n with
  | O => None
  | S i =>
      match nth_error path i with
      | Some (FunctionDefinitionAST _ _ _ _ as function) => Some function
      (* Ignore literals in lambda expressions for now. *)
      | Some (LambdaExpressionAST _ _) => None
      | Some _ => enclosingFunction path i
      | None => None
      end
  end.

Definition doMatch (interface : CppQuickFixInterface)
    (result : QuickFixOperations) : QuickFixOperations :=
  let path := path interface in
  if (length path <? 2)%nat then result
  else
    match lastValue path with
    | Some ((NumericLiteralAST _ _ | StringLiteralAST _ _
            | BoolLiteralAST _ _) as literal) =>
        match enclosingFunction path (length path - 1) with
        | Some (FunctionDefinitionAST _ (DeclaratorAST _ _ declaratorList _ _)
                  _ _ as function) =>
            match declaratorList with
            | [] => result
            | FunctionDeclaratorAST _
                (Some (ParameterDeclarationClauseAST _ _ (S _))) _ :: _ =>
                (* Do not handle functions with ellipsis parameter. *)
                result
            | _ =>
                let priority := Z.of_nat (length path) - 1 in
                result ++ [ExtractLiteralAsParameterOp priority literal function]
            end
        | _ => result
        end
    | _ => result
    end.

End ExtractLiteralAsParameter.

(** ** Apply Function Signature Changes *)

Module ApplyDeclDefLinkChanges.

Definition doMatch (interface : CppQuickFixInterface)
    (result : QuickFixOperations) : QuickFixOperations :=
  match declDefLink interface with
  | Some link =>
      if isMarkerVisible link
      then result ++ [ApplyDeclDefLinkOperation 100 link]
      else result
  | None => result
  end.

End ApplyDeclDefLinkChanges.

(** The rules of this file that are modelled here. *)
Definition cppQuickFixFactories
    : list (CppQuickFixInterface -> QuickFixOperations -> QuickFixOperations) :=
  [SplitSimpleDeclaration.doMatch; AddBracesToControlStatement.doMatch;
   SplitIfStatement.doMatch; ConvertNumericLiteral.doMatch;
   CompleteSwitchCaseStatement.doMatch; ExtractFunction.doMatch;
   ExtractLiteralAsParameter.doMatch; ApplyDeclDefLinkChanges.doMatch].


(** ** The conversions, as the specification words them *)

Module NumericSpec.

Inductive Radix : Type := Hexadecimal | Octal | Decimal | Binary.

Definition radix_eqb (a b : Radix) : bool :=
  match a, b with
  | Hexadecimal, Hexadecimal | Octal, Octal | Decimal, Decimal
  | Binary, Binary => true
  | _, _ => false
  end.

(** The radix a literal is written in, read off its prefix: [0x], [0b],
    a zero followed by an octal digit, or none of them. *)
Definition radixOf (spelling : string) : Radix :=
  match spelling with
  | String c0 (String c1 _) =>
      if negb (Ascii.eqb c0 "0") then Decimal
      else if Ascii.eqb c1 "x" || Ascii.eqb c1 "X" then Hexadecimal
      else if Ascii.eqb c1 "b" || Ascii.eqb c1 "B" then Binary
      else if (48 <=? QStr.code c1) && (QStr.code c1 <=? 55) then Octal
      else Decimal
  | _ => Decimal
  end.

(** The binary digits of a value without leading zeros; [0] for zero. *)
Definition binaryDigits (value : Z) : string :=
  if value =? 0 then "0"
  else ULong.removeLeadingZeros (ULong.bitset_to_string value).

(** A value written in a radix. *)
Definition render (r : Radix) (value : Z) : string :=
  match r with
  | Hexadecimal => String.append "0x" (ULong.fmt_lX value)
  | Octal => String.append "0" (ULong.fmt_lo value)
  | Decimal => ULong.fmt_lu value
  | Binary => String.append "0b" (binaryDigits value)
  end.

Definition description (r : Radix) : string :=
  match r with
  | Hexadecimal => ConvertNumericLiteral.tr_hex
  | Octal => ConvertNumericLiteral.tr_oct
  | Decimal => ConvertNumericLiteral.tr_dec
  | Binary => ConvertNumericLiteral.tr_bin
  end.

(** One operation for each radix but the current one. *)
Definition conversions (priority start end_ value : Z) (current : Radix)
    : QuickFixOperations :=
  map (fun r => ConvertNumericLiteralOp priority (description r) start end_
                  (render r value))
    (List.filter (fun r => negb (radix_eqb r current))
       [Hexadecimal; Octal; Decimal; Binary]).

(** The digits of the literal: its spelling without the trailing
    characters that are no hexadecimal digits. *)
Definition numberLength (numeric : NumericLiteral) : nat :=
  ConvertNumericLiteral.stripSuffix (chars numeric)
    (NumericLiteral_size numeric).

Definition digitsOf (numeric : NumericLiteral) : string :=
  QStr.left (numberLength numeric) (chars numeric).

(** The literal token of an integer spelling, with the flags the
    constructor of [NumericLiteral] gives it. *)
Definition integerLiteral (spelling : string) : NumericLiteral :=
  {| chars := spelling; isHex := QStr.startsWithCI "0x" spelling;
     isDouble := false; isFloat := false |}.

(** The last node of the path is a numeric literal whose token is
    [numeric]. *)
Definition cursorOnLiteral (interface : CppQuickFixInterface)
    (literal : AST) (numeric : NumericLiteral) : Prop :=
  exists rg tok,
    literal = NumericLiteralAST rg tok
    /\ lastValue (path interface) = Some literal
    /\ tokenAt interface tok
       = {| kind := T_NUMERIC_LITERAL; number := numeric |}.


End NumericSpec.

(** ** The vocabulary of the statements *)

(** A rule returns the list it was given, extended. *)
Definition extends (result result' : QuickFixOperations) : Prop :=
  exists added, result' = result ++ added.

Module SplitIfSpec.

(** A binary expression whose operator token has the kind [k]. *)
Definition binaryOf (interface : CppQuickFixInterface) (k : Kind)
    (node : AST) : Prop :=
  exists rg l tok r,
    node = BinaryExpressionAST rg l tok r
    /\ kind (tokenAt interface tok) = k.

(** A binary expression with the caret on its operator token. *)
Definition cursorOnOperator (interface : CppQuickFixInterface)
    (node : AST) : Prop :=
  exists rg l tok r,
    node = BinaryExpressionAST rg l tok r
    /\ isCursorOnToken interface tok = true.

End SplitIfSpec.

Module AddBracesSpec.

(** The else chain of an if statement needs no braces: the bodies of all
    the else-ifs are compound statements (or missing) and so is the
    trailing else, if there is one. *)
Fixpoint elseChainBraced (ifStmt : AST) : bool :=
  match ifStmt with
  | IfStatementAST _ _ _ _ _ _ else_statement =>
      match else_statement with
      | None => true
      | Some (IfStatementAST _ _ _ _ _ _ _ as next) =>
          negb (AddBracesToControlStatement.lacksBraces next)
          && elseChainBraced next
      | Some e => asCompoundStatement e
      end
  | _ => true
  end.

End AddBracesSpec.

Module CompleteSwitchSpec.





End CompleteSwitchSpec.

Module SplitDeclarationSpec.

Definition asSimpleDeclaration (node : AST) : option AST :=
  match node with
  | SimpleDeclarationAST _ _ _ _ => Some node
  | _ => None
  end.

End SplitDeclarationSpec.

Module ExtractFunctionSpec.

(** A local that would have to be returned: used inside and after the
    extracted range, but not before it. *)
Definition returnCandidate (interface : CppQuickFixInterface)
    (extractionStart extractionEnd : Z) (entry : LocalSymbol * list Use)
    : Prop :=
  ExtractFunction.classify interface extractionStart extractionEnd
    (snd entry)
  = (false, true, true).

(** The selection, ordered. *)
Definition selection (interface : CppQuickFixInterface) : Z * Z :=
  if selectionStart interface >? selectionEnd interface
  then (selectionEnd interface, selectionStart interface)
  else (selectionStart interface, selectionEnd interface).

(** The state of the analyser after its run over the function. *)
Definition analysed (interface : CppQuickFixInterface) (refFuncDef : AST)
    : ExtractFunction.Analyser :=
  ExtractFunction.analyse interface (fst (selection interface))
    (snd (selection interface)) refFuncDef.

End ExtractFunctionSpec.

Module DigitsSpec.

(** A character is a digit [printf] prints in a base. *)
Definition isDigitOfBase (base : Z) (c : ascii) : Prop :=
  exists d, 0 <= d < base /\ c = ULong.digitChar d.

Fixpoint allChars (P : ascii -> Prop) (s : string) : Prop :=
  match s with
  | EmptyString => True
  | String c r => P c /\ allChars P r
  end.

(** [k] zeros. *)
Fixpoint zeros (k : nat) : string :=
  match k with
  | O => EmptyString
  | S k => String "0" (zeros k)
  end.

End DigitsSpec.

Module LiteralSpec.






End LiteralSpec.

(** ** Sample inputs *)

Module Examples.

Definition rng (a b : Z) : Range := {| range_start := a; range_end := b |}.

(** A path and the tokens of the file, with the caret on one token; no
    selection and no semantic information. *)
Definition interfaceOf (path : list AST) (tokens : nat -> Token)
    (caret : nat) : CppQuickFixInterface :=
  {| path := path; tokenAt := tokens;
     startOfToken := fun _ => 0; endOfToken := fun _ => 0;
     isCursorOnToken := fun t => Nat.eqb t caret;
     isCursorOn := fun _ => false;
     hasSelection := false; selectionStart := 0; selectionEnd := 0;
     textOf := fun _ _ => EmptyString; position := fun _ _ => 0;
     localUses := []; conditionEnum := fun _ => None;
     typeOfExpression := fun _ => None; declDefLink := None |}.

(** The same with a selection. *)
Definition withSelection (i : CppQuickFixInterface) (selStart selEnd : Z)
    : CppQuickFixInterface :=
  {| path := path i; tokenAt := tokenAt i;
     startOfToken := startOfToken i; endOfToken := endOfToken i;
     isCursorOnToken := isCursorOnToken i; isCursorOn := isCursorOn i;
     hasSelection := true; selectionStart := selStart;
     selectionEnd := selEnd;
     textOf := textOf i; position := position i;
     localUses := localUses i; conditionEnum := conditionEnum i;
     typeOfExpression := typeOfExpression i; declDefLink := declDefLink i |}.


(** The same with the answers of the lookup: the enum of every switch
    condition, and the declaration an identifier resolves to. *)
Definition withLookup (i : CppQuickFixInterface) (e : option Enum)
    (resolve : string -> option Declaration) : CppQuickFixInterface :=
  {| path := path i; tokenAt := tokenAt i;
     startOfToken := startOfToken i; endOfToken := endOfToken i;
     isCursorOnToken := isCursorOnToken i; isCursorOn := isCursorOn i;
     hasSelection := hasSelection i; selectionStart := selectionStart i;
     selectionEnd := selectionEnd i;
     textOf := textOf i; position := position i;
     localUses := localUses i; conditionEnum := fun _ => e;
     typeOfExpression :=
       fun expression =>
         match expression with
         | IdExpressionAST _ id => resolve id
         | _ => None
         end;
     declDefLink := declDefLink i |}.

Definition otherToken : Token :=
  {| kind := T_OTHER 0; number := NumericSpec.integerLiteral EmptyString |}.

(** *** A numeric literal under the caret: [int x = <spelling>;] *)
Definition numericToken (spelling : string) : Token :=
  {| kind := T_NUMERIC_LITERAL;
     number := NumericSpec.integerLiteral spelling |}.

Definition literalNode (spelling : string) : AST :=
  NumericLiteralAST (rng 8 (8 + Z.of_nat (String.length spelling))) 4.

Definition onLiteral (spelling : string) : CppQuickFixInterface :=
  interfaceOf [literalNode spelling] (fun _ => numericToken spelling) 4.

(** *** [if (a && b) x;] with the caret on the operator *)
Definition operatorTokens (k : Kind) (t : nat) : Token :=
  if Nat.eqb t 4 then {| kind := k; number := number otherToken |}
  else otherToken.

Definition andCondition : AST :=
  BinaryExpressionAST (rng 4 10) (Some (IdExpressionAST (rng 4 5) "a")) 4
    (Some (IdExpressionAST (rng 9 10) "b")).

Definition bodyX : AST :=
  ExpressionStatementAST (rng 12 14) (Some (IdExpressionAST (rng 12 13) "x")).

Definition ifAnd (else_statement : option AST) : AST :=
  IfStatementAST (rng 0 14) 1 6 (Some andCondition) (Some bodyX) 9
    else_statement.

Definition onAnd (else_statement : option AST) : CppQuickFixInterface :=
  interfaceOf [ifAnd else_statement; andCondition]
    (operatorTokens T_AMPER_AMPER) 4.

(** *** [if (a) { x; }] with the caret on [if] *)
Definition bracedIf : AST :=
  IfStatementAST (rng 0 14) 1 4 (Some (IdExpressionAST (rng 4 5) "a"))
    (Some (CompoundStatementAST (rng 7 14) 5 [bodyX])) 0 None.

Definition onBracedIf : CppQuickFixInterface :=
  interfaceOf [bracedIf] (fun _ => otherToken) 1.

(** [if (a) x;] with the caret on [if]. *)
Definition plainIf : AST :=
  IfStatementAST (rng 0 9) 1 4 (Some (IdExpressionAST (rng 4 5) "a"))
    (Some bodyX) 0 None.

Definition onPlainIf : CppQuickFixInterface :=
  interfaceOf [plainIf] (fun _ => otherToken) 1.

(** *** [enum E { A, B, C }; switch (e) { case A: break; }] *)
Definition enumE : Enum :=
  {| memberAt := [Some {| fullyQualifiedName := "A" |};
                  Some {| fullyQualifiedName := "B" |};
                  Some {| fullyQualifiedName := "C" |}] |}.

Definition resolveE (id : string) : option Declaration :=
  if existsb (String.eqb id) ["A"; "B"; "C"]
  then Some {| fullyQualifiedName := id |} else None.

Definition caseOf (id : string) : AST :=
  CaseStatementAST (rng 13 27) (Some (IdExpressionAST (rng 18 19) id))
    (Some (OtherAST (rng 21 27) [])).

Definition switchBody (labels : list string) : AST :=
  CompoundStatementAST (rng 11 29) 5 (map caseOf labels).

Definition switchOf (body : AST) : AST :=
  SwitchStatementAST (rng 0 29) (Some (IdExpressionAST (rng 8 9) "e"))
    (Some body) (Some {| line := 1; column := 1 |}).

Definition onSwitch (body : AST) : CppQuickFixInterface :=
  withLookup (interfaceOf [switchOf body] (fun _ => otherToken) 1)
    (Some enumE) resolveE.

(** *** [void f() { if (c) { a(); return; } }]

    The offsets: [if] 11..34, the inner block 18..34, [a();] 20..24,
    [return;] 25..32.  The selection covers [if (c) { a();]. *)
Definition returnStatement : AST := ReturnStatementAST (rng 25 32) None.

Definition callStatement : AST :=
  ExpressionStatementAST (rng 20 24) (Some (OtherAST (rng 20 23) [])).

Definition innerBlock : AST :=
  CompoundStatementAST (rng 18 34) 8 [callStatement; returnStatement].

Definition guardedReturn : AST :=
  IfStatementAST (rng 11 34) 5 8 (Some (IdExpressionAST (rng 15 16) "c"))
    (Some innerBlock) 0 None.

Definition functionBody : AST :=
  CompoundStatementAST (rng 9 36) 4 [guardedReturn].

Definition functionF : AST :=
  FunctionDefinitionAST (rng 0 36)
    (DeclaratorAST (rng 5 8) (Some (DeclaratorIdAST (rng 5 6) (Some "f")))
       [FunctionDeclaratorAST (rng 6 8) None 3] 0 None)
    (Some functionBody)
    (Some {| name := Some "f"; enclosingScopeIsTemplate := false |}).

Definition onPartialIf : CppQuickFixInterface :=
  withSelection
    (interfaceOf [functionF; functionBody; guardedReturn]
       (fun _ => otherToken) 5)
    11 24.

(** *** [int a, b] without the semicolon, the caret on [int] *)
Definition unfinishedDeclaration : AST :=
  SimpleDeclarationAST (rng 0 8) [SimpleSpecifierAST (rng 0 3)]
    [DeclaratorAST (rng 4 5) (Some (DeclaratorIdAST (rng 4 5) (Some "a")))
       [] 0 None;
     DeclaratorAST (rng 7 8) (Some (DeclaratorIdAST (rng 7 8) (Some "b")))
       [] 0 None] 0.

Definition onUnfinishedDeclaration : CppQuickFixInterface :=
  interfaceOf [unfinishedDeclaration; SimpleSpecifierAST (rng 0 3)]
    (fun _ => otherToken) 1.

End Examples.

(** * Further functions of the file *)

(** ** Characters and strings of names

    [QChar::isLetter], [isUpper], [isLower], [toUpper] and [toLower], and
    [QString::toLower], [toUpper] and [isUpper], as they are on the
    characters of the ASCII range: there they concern the letters [A] to
    [Z] and [a] to [z] only, and the case conversions of a string keep its
    length.  Outside of that range the classes of Unicode hold more
    letters, some without a counterpart of the other case and some whose
    case conversion is longer; a statement that depends on the classes or
    on the conversions is made for the names of the ASCII range
    ([NameSpec.isAscii]). *)

Module QChar.

Definition isUpper (c : ascii) : bool :=
  (65 <=? QStr.code c) && (QStr.code c <=? 90).

Definition isLower (c : ascii) : bool :=
  (97 <=? QStr.code c) && (QStr.code c <=? 122).

Definition isLetter (c : ascii) : bool := isUpper c || isLower c.

Definition toLower (c : ascii) : ascii := QStr.toLower c.

Definition toUpper (c : ascii) : ascii :=
  if isLower c then ascii_of_nat (nat_of_ascii c - 32) else c.

End QChar.

Module QString.

Fixpoint map (f : ascii -> ascii) (s : string) : string :=
  match s with
  | EmptyString => EmptyString
  | String c r => String (f c) (map f r)
  end.

Definition toLower (s : string) : string := map QChar.toLower s.
Definition toUpper (s : string) : string := map QChar.toUpper s.

(** [QString::isUpper()]: the string is identical to its [toUpper()]
    folding. *)
Definition isUpper (s : string) : bool := String.eqb s (toUpper s).

(** [QString::remove(i, len)]. *)
Definition remove (s : string) (i len : nat) : string :=
  String.append (QStr.left i s) (QStr.mid (i + len) s).

(** [s[i] = c] for an index of the string; no other index is written
    to by the functions below. *)
Definition set (s : string) (i : nat) (c : ascii) : string :=
  if (i <? String.length s)%nat
  then String.append (QStr.left i s) (String c (QStr.mid (S i) s))
  else s.

(** [QString::replace(pos, len, after)]: a position outside of the
    string leaves it as it is. *)
Definition replace (s : string) (pos : Z) (len : nat) (after : string)
    : string :=
  if (pos <? 0) || (Z.of_nat (String.length s) <? pos) then s
  else String.append (QStr.left (Z.to_nat pos) s)
         (String.append after (QStr.mid (Z.to_nat pos + len) s)).

End QString.

(** ** Convert to Camel Case *)

Module ConvertToCamelCase.

(** [ConvertToCamelCaseOp::isConvertibleUnderscore]. *)
Definition isConvertibleUnderscore (name : string) (pos : nat) : bool :=
  Ascii.eqb (QStr.at_ name pos) "_"
  && QChar.isLetter (QStr.at_ name (pos + 1))
  && negb ((pos =? 1)%nat && Ascii.eqb (QStr.at_ name 0) "m").

(** The end of [doMatch], from [nameString] on: whether the rule adds
    its operation for the name under the cursor.
    [for (int i = 1; i < nameString.length() - 1; ++i)]. *)
Definition offers (nameString : string) : bool :=
  if (String.length nameString <? 3)%nat then false
  else existsb (isConvertibleUnderscore nameString)
         (seq 1 (String.length nameString - 2)).

(** The loop of [ConvertToCamelCaseOp::perform]:
    [for (int i = 1; i < newName.length(); ++i)]. *)
Fixpoint camelCase (fuel : nat) (m_isAllUpper : bool) (newName : string)
    (i : nat) : string :=
  match fuel with
  | O => newName
  | S fuel =>
      if (i <? String.length newName)%nat then
        let c := QStr.at_ newName i in
        if QChar.isUpper c && m_isAllUpper then
          camelCase fuel m_isAllUpper
            (QString.set newName i (QChar.toLower c)) (S i)
        else if (i <? String.length newName - 1)%nat
                && isConvertibleUnderscore newName i then
          let newName := QString.remove newName i 1 in
          camelCase fuel m_isAllUpper
            (QString.set newName i (QChar.toUpper (QStr.at_ newName i)))
            (S i)
        else camelCase fuel m_isAllUpper newName (S i)
      else newName
  end.

(** The name [perform] renames to.  The loop takes fewer rounds than the
    name has characters. *)
Definition newName (m_name : string) : string :=
  let m_isAllUpper := QString.isUpper m_name in
  let newName := if m_isAllUpper then QString.toLower m_name else m_name in
  camelCase (String.length newName) m_isAllUpper newName 1.

End ConvertToCamelCase.

(** ** Assign to Local Variable *)

Module AssignToLocalVariableOperation.

(** [constructVarName()]. *)
Definition constructVarName (m_originalName : string) : string :=
  let newName := m_originalName in
  if QStr.startsWithCI "get" newName
     && (3 <? String.length newName)%nat
     && QChar.isUpper (QStr.at_ newName 3)
  then
    let newName := QString.remove newName 0 3 in
    QString.replace newName 0 1
      (String (QChar.toLower (QStr.at_ newName 0)) EmptyString)
  else if QStr.startsWithCI "to" newName
          && (2 <? String.length newName)%nat
          && QChar.isUpper (QStr.at_ newName 2)
  then
    let newName := QString.remove newName 0 2 in
    QString.replace newName 0 1
      (String (QChar.toLower (QStr.at_ newName 0)) EmptyString)
  else
    let newName :=
      QString.replace newName 0 1
        (String (QChar.toUpper (QStr.at_ newName 0)) EmptyString) in
    String.append "local" newName.

(** [perform()], from the deduced [type] on: the text it inserts at
    [m_insertPos] and the position it moves the cursor to; nothing for an
    empty type. *)
Definition perform (m_insertPos : Z) (m_originalName type : string)
    : option (string * Z) :=
  if QStr.isEmpty type then None
  else
    let origNameLength := String.length m_originalName in
    let varName := constructVarName m_originalName in
    let insertString :=
      QString.replace type
        (Z.of_nat (String.length type) - Z.of_nat origNameLength)
        origNameLength (String.append varName " = ") in
    Some (insertString,
          m_insertPos + Z.of_nat (String.length insertString)
          - Z.of_nat (String.length varName) - 3).

End AssignToLocalVariableOperation.

(** ** Reformat Pointers or References: the filter of the path *)

Module ReformatPointerDeclarationASTPathResultsFilter.

Record Flags : Type := {
  m_hasSimpleDeclaration : bool;
  m_hasFunctionDefinition : bool;
  m_hasParameterDeclaration : bool;
  m_hasIfStatement : bool;
  m_hasWhileStatement : bool;
  m_hasForStatement : bool;
  m_hasForeachStatement : bool;
}.

Definition init : Flags :=
  {| m_hasSimpleDeclaration := false; m_hasFunctionDefinition := false;
     m_hasParameterDeclaration := false; m_hasIfStatement := false;
     m_hasWhileStatement := false; m_hasForStatement := false;
     m_hasForeachStatement := false |}.

(** The body of the loop. *)
Definition step (ast : AST) (st : Flags * list AST) : Flags * list AST :=
  let '(f, filtered) := st in
  match ast with
  | SimpleDeclarationAST _ _ _ _ =>
      if negb (m_hasSimpleDeclaration f) then
        ({| m_hasSimpleDeclaration := true;
            m_hasFunctionDefinition := m_hasFunctionDefinition f;
            m_hasParameterDeclaration := m_hasParameterDeclaration f;
            m_hasIfStatement := m_hasIfStatement f;
            m_hasWhileStatement := m_hasWhileStatement f;
            m_hasForStatement := m_hasForStatement f;
            m_hasForeachStatement := m_hasForeachStatement f |},
         filtered ++ [ast])
      else st
  | FunctionDefinitionAST _ _ _ _ =>
      if negb (m_hasFunctionDefinition f) then
        ({| m_hasSimpleDeclaration := m_hasSimpleDeclaration f;
            m_hasFunctionDefinition := true;
            m_hasParameterDeclaration := m_hasParameterDeclaration f;
            m_hasIfStatement := m_hasIfStatement f;
            m_hasWhileStatement := m_hasWhileStatement f;
            m_hasForStatement := m_hasForStatement f;
            m_hasForeachStatement := m_hasForeachStatement f |},
         filtered ++ [ast])
      else st
  | ParameterDeclarationAST _ _ _ =>
      if negb (m_hasParameterDeclaration f) then
        ({| m_hasSimpleDeclaration := m_hasSimpleDeclaration f;
            m_hasFunctionDefinition := m_hasFunctionDefinition f;
            m_hasParameterDeclaration := true;
            m_hasIfStatement := m_hasIfStatement f;
            m_hasWhileStatement := m_hasWhileStatement f;
            m_hasForStatement := m_hasForStatement f;
            m_hasForeachStatement := m_hasForeachStatement f |},
         filtered ++ [ast])
      else st
  | IfStatementAST _ _ _ _ _ _ _ =>
      if negb (m_hasIfStatement f) then
        ({| m_hasSimpleDeclaration := m_hasSimpleDeclaration f;
            m_hasFunctionDefinition := m_hasFunctionDefinition f;
            m_hasParameterDeclaration := m_hasParameterDeclaration f;
            m_hasIfStatement := true;
            m_hasWhileStatement := m_hasWhileStatement f;
            m_hasForStatement := m_hasForStatement f;
            m_hasForeachStatement := m_hasForeachStatement f |},
         filtered ++ [ast])
      else st
  | WhileStatementAST _ _ _ _ _ =>
      if negb (m_hasWhileStatement f) then
        ({| m_hasSimpleDeclaration := m_hasSimpleDeclaration f;
            m_hasFunctionDefinition := m_hasFunctionDefinition f;
            m_hasParameterDeclaration := m_hasParameterDeclaration f;
            m_hasIfStatement := m_hasIfStatement f;
            m_hasWhileStatement := true;
            m_hasForStatement := m_hasForStatement f;
            m_hasForeachStatement := m_hasForeachStatement f |},
         filtered ++ [ast])
      else st
  | ForStatementAST _ _ _ _ _ _ _ =>
      if negb (m_hasForStatement f) then
        ({| m_hasSimpleDeclaration := m_hasSimpleDeclaration f;
            m_hasFunctionDefinition := m_hasFunctionDefinition f;
            m_hasParameterDeclaration := m_hasParameterDeclaration f;
            m_hasIfStatement := m_hasIfStatement f;
            m_hasWhileStatement := m_hasWhileStatement f;
            m_hasForStatement := true;
            m_hasForeachStatement := m_hasForeachStatement f |},
         filtered ++ [ast])
      else st
  | ForeachStatementAST _ _ _ =>
      if negb (m_hasForeachStatement f) then
        ({| m_hasSimpleDeclaration := m_hasSimpleDeclaration f;
            m_hasFunctionDefinition := m_hasFunctionDefinition f;
            m_hasParameterDeclaration := m_hasParameterDeclaration f;
            m_hasIfStatement := m_hasIfStatement f;
            m_hasWhileStatement := m_hasWhileStatement f;
            m_hasForStatement := m_hasForStatement f;
            m_hasForeachStatement := true |},
         filtered ++ [ast])
      else st
  | _ => st
  end.

(** [for (int i = astPathList.size() - 1; i >= 0; --i)], entered with
    [n = astPathList.size()]. *)
Fixpoint loop (astPathList : list AST) (n : nat) (st : Flags * list AST)
    : Flags * list AST :=
  match n with
  | O => st
  | S i =>
      match nth_error astPathList i with
      | Some ast => loop astPathList i (step ast st)
      | None => loop astPathList i st
      end
  end.

(** [filter(astPathList)] of a fresh filter. *)
Definition filter (astPathList : list AST) : list AST :=
  snd (loop astPathList (length astPathList) (init, [])).

End ReformatPointerDeclarationASTPathResultsFilter.

(** ** Extract Function: the call that replaces the extracted range *)

Module ExtractFunctionOperation.

(** The loop over the parameters, as far as it writes [funcCall]:
    [for (int i = m_funcReturn ? 1 : 0; i < m_relevantDecls.length(); ++i)];
    [n] bounds the rounds that are left. *)
Fixpoint arguments (m_relevantDecls : list (string * string)) (n i : nat)
    (funcCall : string) : string :=
  match n with
  | O => funcCall
  | S n =>
      match nth_error m_relevantDecls i with
      | None => funcCall
      | Some p =>
          let funcCall := String.append funcCall (fst p) in
          let funcCall :=
            if (i <? length m_relevantDecls - 1)%nat
            then String.append funcCall ", " else funcCall in
          arguments m_relevantDecls n (S i) funcCall
      end
  end.

(** [funcCall] as [perform] inserts it, for a valid function name;
    [None] when the assertion [!m_funcReturn || !m_relevantDecls.isEmpty()]
    ends [perform] at once. *)
Definition funcCall (funcName : string) (m_funcReturn : option LocalSymbol)
    (m_relevantDecls : list (string * string)) : option string :=
  match m_funcReturn, m_relevantDecls with
  | Some _, [] => None
  | _, _ =>
      let funcCall := String.append EmptyString funcName in
      let funcCall := String.append funcCall "(" in
      let first := match m_funcReturn with Some _ => 1%nat | None => 0%nat end in
      let funcCall :=
        arguments m_relevantDecls (length m_relevantDecls - first) first
          funcCall in
      let funcCall := String.append funcCall ")" in
      let funcCall :=
        match m_funcReturn, m_relevantDecls with
        | Some _, p :: _ =>
            String.append (String.append (snd p) " = ") funcCall
        | _, _ => funcCall
        end in
      Some (String.append funcCall ";")
  end.

End ExtractFunctionOperation.

(** ** Optimize for-Loop: the name of the new variable *)

Module OptimizeForLoopOperation.

Inductive Name : Type :=
| Named (varName : string)
| NullDereference   (* [file->textOf] of a null core declarator *)
| Unfinished.       (* the rounds granted to [for (;;)] are used up *)

(** [for (DeclaratorListAST *it = sdecl->declarator_list; it; it = it->next)
      if (file->textOf(it->value->core_declarator) == varName)]:
    whether a declarator is spelled like [varName]. *)
Fixpoint isUsed (interface : CppQuickFixInterface) (declarator_list : list AST)
    (varName : string) : option bool :=
  match declarator_list with
  | [] => Some false
  | DeclaratorAST _ (Some core_declarator) _ _ _ :: rest =>
      if String.eqb
           (textOf interface (startOf core_declarator) (endOf core_declarator))
           varName
      then Some true
      else isUsed interface rest varName
  | _ :: _ => None
  end.

(** [for (;;)]: an [X] is appended as long as the name is used. *)
Fixpoint unusedName (fuel : nat) (interface : CppQuickFixInterface)
    (declarator_list : list AST) (varName : string) : Name :=
  match fuel with
  | O => Unfinished
  | S fuel =>
      match isUsed interface declarator_list varName with
      | None => NullDereference
      | Some true =>
          unusedName fuel interface declarator_list
            (String.append varName "X")
      | Some false => Named varName
      end
  end.

(** The variable name of [perform] when the initializer is more than the
    [;]: "Check if varName is already used". *)
Definition varName (fuel : nat) (interface : CppQuickFixInterface)
    (initializer : AST) : Name :=
  match initializer with
  | DeclarationStatementAST _
      (Some (SimpleDeclarationAST _ _ declarator_list _)) =>
      unusedName fuel interface declarator_list "total"
  | _ => Named "total"
  end.

End OptimizeForLoopOperation.

(** ** Move Function Documentation: what is removed at the source *)

Module MoveFunctionCommentsOp.

(** [QChar::ParagraphSeparator], the line break of a text document. *)
Definition newline : Z := 8233.

Section RemoveAtSource.
(** Characters are their code points; [QChar::isSpace],
    [sourceFile->charAt] and [sourceFile->document()->characterCount()]. *)
Variable isSpace : Z -> bool.
Variable charAt : Z -> Z.
Variable characterCount : Z.

(** The first [while (true)]: back over the blanks in front of the
    comment; [None] when the rounds granted are used up. *)
Fixpoint removalPos (fuel : nat) (pos : Z) : option Z :=
  match fuel with
  | O => None
  | S fuel =>
      let prev := pos - 1 in
      if prev <? 0 then Some pos
      else
        let prevChar := charAt prev in
        if negb (isSpace prevChar) || (prevChar =? newline)
        then Some pos
        else removalPos fuel prev
  end.

(** The second [while (true)]: over the blanks behind the comment, the
    line break included. *)
Fixpoint removalEndPos (fuel : nat) (pos : Z) : option Z :=
  match fuel with
  | O => None
  | S fuel =>
      if pos =? characterCount then Some pos
      else
        let nextChar := charAt pos in
        if negb (isSpace nextChar) then Some pos
        else
          let pos := pos + 1 in
          if nextChar =? newline then Some pos
          else removalEndPos fuel pos
  end.

(** [removeAtSource]: the arguments of [changeSet.remove]. *)
Definition removeAtSource (fuel : nat)
    (sourceCommentStartPos sourceCommentEndPos : Z) : option (Z * Z) :=
  match removalPos fuel sourceCommentStartPos,
        removalEndPos fuel sourceCommentEndPos with
  | Some first, Some last => Some (first, last)
  | _, _ => None
  end.
End RemoveAtSource.

End MoveFunctionCommentsOp.

(** ** Diff editor: the chunk of a block *)

(** The bounds of [int]. *)
Module Int.
Definition min : Z := - 2 ^ 31.
Definition max : Z := 2 ^ 31 - 1.
End Int.

Module DiffChunkInfo.

(** [QMap<int, QPair<int, int>>]: start block number to rows count and
    chunk index, the entries in the order of the keys. *)
Definition ChunkInfo : Type := list (Z * (Z * Z)).

(** [QMap::upperBound(key)]: the position of the first entry with a
    greater key; the length stands for [end()]. *)
Fixpoint upperBound (m : ChunkInfo) (key : Z) : nat :=
  match m with
  | [] => O
  | (k, _) :: rest => if key <? k then O else S (upperBound rest key)
  end.

(** The sum [it.key() + it.value().first] and the difference
    [blockNumber - startBlockNumber] are sums of [int]s in the code; here
    they are the sums in [Z], which they are as long as they stay within
    [Int.min] and [Int.max].  A statement that lets the code compute a sum
    says that it stays within these bounds. *)
Definition forBlockNumber (chunkInfo : ChunkInfo) (blockNumber : Z)
    (func : Z -> Z -> Z -> Z) : Z :=
  match chunkInfo with
  | [] => -1
  | _ =>
      match upperBound chunkInfo blockNumber with
      | O => -1
      | S it =>
          match nth_error chunkInfo it with
          | Some (key, (first, second)) =>
              if blockNumber <? key + first then func key first second
              else -1
          | None => -1
          end
      end
  end.

Definition chunkRowForBlockNumber (m_chunkInfo : ChunkInfo)
    (blockNumber : Z) : Z :=
  forBlockNumber m_chunkInfo blockNumber
    (fun startBlockNumber _ _ => blockNumber - startBlockNumber).

Definition chunkRowsCountForBlockNumber (m_chunkInfo : ChunkInfo)
    (blockNumber : Z) : Z :=
  forBlockNumber m_chunkInfo blockNumber (fun _ rowsCount _ => rowsCount).

Definition chunkIndexForBlockNumber (m_chunkInfo : ChunkInfo)
    (blockNumber : Z) : Z :=
  forBlockNumber m_chunkInfo blockNumber (fun _ _ chunkIndex => chunkIndex).

End DiffChunkInfo.

(** ** The vocabulary of the further statements *)

(** The direct subnodes of a node, in visiting order. *)
Definition subnodes (a : AST) : list AST :=
  acceptChildren (fun c acc => acc ++ [c]) a [].

(** The nodes of a tree: the root and the subnodes of its nodes. *)
Inductive inside (root : AST) : AST -> Prop :=
| inside_root : inside root root
| inside_sub (a c : AST) : inside root a -> In c (subnodes a) -> inside root c.

Module NameSpec.

(** A name of the ASCII range: every character has a code below 128. *)
Fixpoint isAscii (s : string) : bool :=
  match s with
  | EmptyString => true
  | String c r => (QStr.code c <? 128) && isAscii r
  end.

End NameSpec.

Module CamelCaseSpec.

(** The characters of a name that are no underscores, in lower case. *)
Fixpoint letters (s : string) : string :=
  match s with
  | EmptyString => EmptyString
  | String c r =>
      if Ascii.eqb c "_" then letters r
      else String (QChar.toLower c) (letters r)
  end.

End CamelCaseSpec.

Module ReformatSpec.

(** The node classes the filter supports. *)
Inductive Supported : Type :=
| SimpleDeclaration | FunctionDefinition | ParameterDeclaration
| IfStatement | WhileStatement | ForStatement | ForeachStatement.

Definition classOf (a : AST) : option Supported :=
  match a with
  | SimpleDeclarationAST _ _ _ _ => Some SimpleDeclaration
  | FunctionDefinitionAST _ _ _ _ => Some FunctionDefinition
  | ParameterDeclarationAST _ _ _ => Some ParameterDeclaration
  | IfStatementAST _ _ _ _ _ _ _ => Some IfStatement
  | WhileStatementAST _ _ _ _ _ => Some WhileStatement
  | ForStatementAST _ _ _ _ _ _ _ => Some ForStatement
  | ForeachStatementAST _ _ _ => Some ForeachStatement
  | _ => None
  end.

Definition supported_eqb (a b : Supported) : bool :=
  match a, b with
  | SimpleDeclaration, SimpleDeclaration
  | FunctionDefinition, FunctionDefinition
  | ParameterDeclaration, ParameterDeclaration
  | IfStatement, IfStatement | WhileStatement, WhileStatement
  | ForStatement, ForStatement | ForeachStatement, ForeachStatement => true
  | _, _ => false
  end.

(** The flag of a class. *)
Definition seen (k : Supported)
    (f : ReformatPointerDeclarationASTPathResultsFilter.Flags) : bool :=
  match k with
  | SimpleDeclaration =>
      ReformatPointerDeclarationASTPathResultsFilter.m_hasSimpleDeclaration f
  | FunctionDefinition =>
      ReformatPointerDeclarationASTPathResultsFilter.m_hasFunctionDefinition f
  | ParameterDeclaration =>
      ReformatPointerDeclarationASTPathResultsFilter.m_hasParameterDeclaration f
  | IfStatement =>
      ReformatPointerDeclarationASTPathResultsFilter.m_hasIfStatement f
  | WhileStatement =>
      ReformatPointerDeclarationASTPathResultsFilter.m_hasWhileStatement f
  | ForStatement =>
      ReformatPointerDeclarationASTPathResultsFilter.m_hasForStatement f
  | ForeachStatement =>
      ReformatPointerDeclarationASTPathResultsFilter.m_hasForeachStatement f
  end.

(** A node of one class. *)
Definition ofClass (k : Supported) (a : AST) : option AST :=
  match classOf a with
  | Some k' => if supported_eqb k k' then Some a else None
  | None => None
  end.

(** The state of the filter when the nodes of the path from the index
    [n] on are behind it: it holds the innermost node of every class met,
    deeper nodes first. *)
Definition upTo (path : list AST) (n : nat)
    (st : ReformatPointerDeclarationASTPathResultsFilter.Flags * list AST)
    : Prop :=
  (forall a, In a (snd st) <->
             exists k i, (n <= i)%nat
                         /\ innermost (ofClass k) path (length path)
                            = Some (i, a))
  /\ (forall k, seen k (fst st) = true <->
                exists i a, (n <= i)%nat
                            /\ innermost (ofClass k) path (length path)
                               = Some (i, a))
  /\ List.NoDup (List.map classOf (snd st))
  /\ exists indices,
       List.map (nth_error path) indices = List.map Some (snd st)
       /\ StronglySorted (fun i j => (j < i)%nat) indices
       /\ List.Forall (fun i => (n <= i)%nat) indices.

End ReformatSpec.

Module CaseLabelSpec.

(** The name a case label resolves to. *)
Definition label (interface : CppQuickFixInterface) (expression : option AST)
    : list string :=
  match expression with
  | Some (IdExpressionAST _ _ as e) =>
      match typeOfExpression interface e with
      | Some decl => [fullyQualifiedName decl]
      | None => []
      end
  | _ => []
  end.

(** The labels of a statement on the level of the case statements:
    those of the case statement itself and of the case statements it
    labels in turn. *)
Fixpoint caseLabels (interface : CppQuickFixInterface) (a : AST)
    : list string :=
  match a with
  | CaseStatementAST _ expression statement =>
      label interface expression
      ++ match expression with
         | Some e => caseLabels interface e
         | None => []
         end
      ++ match statement with
         | Some s => caseLabels interface s
         | None => []
         end
  | _ => []
  end.

Definition asCaseStatement (a : AST) : bool :=
  match a with CaseStatementAST _ _ _ => true | _ => false end.

(** Whether a case statement is among the nodes of a tree. *)
Fixpoint hasCase (a : AST) : bool :=
  match a with
  | CaseStatementAST _ _ _ => true
  | _ => acceptChildren (fun c found => found || hasCase c) a false
  end.

End CaseLabelSpec.

Module ChunkSpec.

(** The chunks follow each other without overlap: every chunk starts
    behind the rows of the chunks in front of it. *)
Fixpoint inOrder (m : DiffChunkInfo.ChunkInfo) : Prop :=
  match m with
  | [] => True
  | (k, (rows, _)) :: rest =>
      Forall (fun e => k < fst e /\ k + rows <= fst e) rest /\ inOrder rest
  end.

End ChunkSpec.

(** ** Further sample inputs *)

Module Samples.
Import Examples.

(** *** A declaration of a pointer [a] in parentheses and of [b], with
    the caret on the opening parenthesis

    The offsets: [int] 0..3, the parenthesised declarator 4..8 with the
    pointer declarator 5..7 and [a] at 6..7 in it, [b] 10..11, the
    semicolon at 11. *)
Definition nestedA : AST :=
  CoreDeclaratorAST (rng 4 8)
    [DeclaratorAST (rng 5 7) (Some (DeclaratorIdAST (rng 6 7) (Some "a"))) []
       0 None].

Definition declaratorA : AST := DeclaratorAST (rng 4 8) (Some nestedA) [] 0 None.

Definition declaratorB : AST :=
  DeclaratorAST (rng 10 11) (Some (DeclaratorIdAST (rng 10 11) (Some "b")))
    [] 0 None.

Definition nestedDeclaration : AST :=
  SimpleDeclarationAST (rng 0 12) [SimpleSpecifierAST (rng 0 3)]
    [declaratorA; declaratorB] 8.

Definition onNestedDeclarator : CppQuickFixInterface :=
  {| path := [nestedDeclaration; declaratorA; nestedA];
     tokenAt := fun _ => otherToken;
     startOfToken := fun _ => 0; endOfToken := fun _ => 0;
     isCursorOnToken := fun _ => false;
     isCursorOn := fun a => (startOf a <=? 4) && (4 <=? endOf a);
     hasSelection := false; selectionStart := 4; selectionEnd := 4;
     textOf := fun _ _ => EmptyString; position := fun _ _ => 0;
     localUses := []; conditionEnum := fun _ => None;
     typeOfExpression := fun _ => None; declDefLink := None |}.

(** *** [int g() { return 42; }] with the caret on the literal *)
Definition literal42 : AST := NumericLiteralAST (rng 17 19) 6.

Definition return42 : AST := ReturnStatementAST (rng 10 20) (Some literal42).

Definition bodyG : AST := CompoundStatementAST (rng 8 22) 4 [return42].

Definition functionG : AST :=
  FunctionDefinitionAST (rng 0 22)
    (DeclaratorAST (rng 4 7) (Some (DeclaratorIdAST (rng 4 5) (Some "g")))
       [FunctionDeclaratorAST (rng 5 7) None 3] 0 None)
    (Some bodyG)
    (Some {| name := Some "g"; enclosingScopeIsTemplate := false |}).

Definition onLiteral42 : CppQuickFixInterface :=
  interfaceOf [functionG; bodyG; return42; literal42]
    (fun _ => otherToken) 6.

(** The same literal inside a lambda expression:
    [int g() { return [] { return 42; }(); }], outline. *)
Definition onLambdaLiteral : CppQuickFixInterface :=
  interfaceOf
    [functionG; bodyG; LambdaExpressionAST (rng 10 20) (Some return42);
     return42; literal42]
    (fun _ => otherToken) 6.

(** *** [void h(int p) { int y = p; use(y); }]

    The offsets: the parameter [int p] 7..12, [int y = p;] 16..26,
    [use(y);] 27..34.  The selection covers [int y = p;]. *)
Definition sourceH : string := "void h(int p) { int y = p; use(y); }".

Definition declarationY : AST :=
  SimpleDeclarationAST (rng 16 26) [SimpleSpecifierAST (rng 16 19)]
    [DeclaratorAST (rng 20 25) (Some (DeclaratorIdAST (rng 20 21) (Some "y")))
       [] 6 (Some (IdExpressionAST (rng 24 25) "p"))] 9.

Definition declarationStatementY : AST :=
  DeclarationStatementAST (rng 16 26) (Some declarationY).

Definition useY : AST :=
  ExpressionStatementAST (rng 27 34)
    (Some (OtherAST (rng 27 33) [IdExpressionAST (rng 31 32) "y"])).

Definition bodyH : AST :=
  CompoundStatementAST (rng 14 36) 6 [declarationStatementY; useY].

Definition parameterP : AST :=
  ParameterDeclarationAST (rng 7 12) [SimpleSpecifierAST (rng 7 10)]
    (Some (DeclaratorAST (rng 11 12)
             (Some (DeclaratorIdAST (rng 11 12) (Some "p"))) [] 0 None)).

Definition declaratorH : AST :=
  DeclaratorAST (rng 5 13) (Some (DeclaratorIdAST (rng 5 6) (Some "h")))
    [FunctionDeclaratorAST (rng 6 13)
       (Some (ParameterDeclarationClauseAST (rng 7 12) [parameterP] 0)) 5]
    0 None.

Definition functionH : AST :=
  FunctionDefinitionAST (rng 0 36) declaratorH (Some bodyH)
    (Some {| name := Some "h"; enclosingScopeIsTemplate := false |}).

Definition useAt (column : nat) : Use :=
  {| isInvalid := false; use_line := 1; use_column := column |}.

Definition localP : LocalSymbol := {| prettyName := "p" |}.
Definition localY : LocalSymbol := {| prettyName := "y" |}.

(** The file is one line, so that a column is an offset. *)
Definition onDeclarationY : CppQuickFixInterface :=
  {| path := [functionH; bodyH; declarationStatementY];
     tokenAt := fun _ => otherToken;
     startOfToken := fun _ => 0; endOfToken := fun _ => 0;
     isCursorOnToken := fun _ => false; isCursorOn := fun _ => false;
     hasSelection := true; selectionStart := 16; selectionEnd := 26;
     textOf := fun s e =>
                 String.substring (Z.to_nat s) (Z.to_nat (e - s)) sourceH;
     position := fun _ column => Z.of_nat column;
     localUses := [(localP, [useAt 11; useAt 24]);
                   (localY, [useAt 20; useAt 31])];
     conditionEnum := fun _ => None; typeOfExpression := fun _ => None;
     declDefLink := None |}.

Definition extractionY : Operation :=
  ExtractFunctionOperation defaultPriority 16 26 functionH (Some localY)
    [("y"%string, "int y"%string); ("p"%string, "int p"%string)].

(** *** [int total, totalX;], the initializer of a for loop *)
Definition sourceTotal : string := "int total, totalX;".

Definition declaratorsTotal : list AST :=
  [DeclaratorAST (rng 4 9) (Some (DeclaratorIdAST (rng 4 9) (Some "total")))
     [] 0 None;
   DeclaratorAST (rng 11 17)
     (Some (DeclaratorIdAST (rng 11 17) (Some "totalX"))) [] 0 None].

Definition initializerTotal : AST :=
  DeclarationStatementAST (rng 0 18)
    (Some (SimpleDeclarationAST (rng 0 18) [SimpleSpecifierAST (rng 0 3)]
             declaratorsTotal 8)).

Definition onTotal : CppQuickFixInterface :=
  {| path := []; tokenAt := fun _ => otherToken;
     startOfToken := fun _ => 0; endOfToken := fun _ => 0;
     isCursorOnToken := fun _ => false; isCursorOn := fun _ => false;
     hasSelection := false; selectionStart := 0; selectionEnd := 0;
     textOf := fun s e =>
                 String.substring (Z.to_nat s) (Z.to_nat (e - s)) sourceTotal;
     position := fun _ _ => 0; localUses := [];
     conditionEnum := fun _ => None; typeOfExpression := fun _ => None;
     declDefLink := None |}.

(** *** A document with a comment: [x;], two blanks, a comment of five
    characters, a blank, a line break and [y] *)
Definition document : list Z :=
  [120; 59; 32; 32; 47; 42; 99; 42; 47; 32; 8233; 121].

Definition charAt (pos : Z) : Z := nth (Z.to_nat pos) document 0.

Definition isSpace (c : Z) : bool := (c =? 32) || (c =? 8233).

(** *** The chunks of a diff: three rows from block 0, two from block 10 *)
Definition chunks : DiffChunkInfo.ChunkInfo := [(0, (3, 0)); (10, (2, 1))].

End Samples.

(** * Proofs *)

(** * Facts about the rules *)

Lemma kind_eqb_eq (a b : Kind) : kind_eqb a b = true <-> a = b.
Proof.
  destruct a, b; cbn; try (split; [discriminate|congruence]);
    try (split; reflexivity).
  rewrite Nat.eqb_eq. split; congruence.
Qed.

Lemma kind_eqb_refl (a : Kind) : kind_eqb a a = true.
Proof. now apply kind_eqb_eq. Qed.

(** ** The innermost node of a kind *)

Section Innermost.
Context {A : Type} (sel : AST -> option A) (path : list AST).

Lemma innermost_spec (n index : nat) (a : A) :
  innermost sel path n = Some (index, a) ->
  (index < n)%nat
  /\ (exists node, nth_error path index = Some node /\ sel node = Some a)
  /\ forall j node, (index < j < n)%nat -> nth_error path j = Some node ->
                    sel node = None.
Proof.
  induction n as [|n IH]; cbn [innermost]; [discriminate|].
  destruct (nth_error path n) as [node|] eqn:En.
  - destruct (sel node) as [a'|] eqn:Es.
    + intros [= <- <-]. split; [lia|]. split; [eauto|]. intros; lia.
    + intros H. destruct (IH H) as (Hlt & Hnode & Hnone).
      split; [lia|]. split; [assumption|]. intros j node' Hj Hn.
      destruct (Nat.eq_dec j n) as [->|]; [congruence|].
      apply (Hnone j); [lia|assumption].
  - intros H. destruct (IH H) as (Hlt & Hnode & Hnone).
    split; [lia|]. split; [assumption|]. intros j node' Hj Hn.
    destruct (Nat.eq_dec j n) as [->|]; [congruence|].
    apply (Hnone j); [lia|assumption].
Qed.

Lemma innermost_found (n index : nat) (node : AST) (a : A) :
  (index < n)%nat -> nth_error path index = Some node -> sel node = Some a ->
  (forall j node', (index < j < n)%nat -> nth_error path j = Some node' ->
                   sel node' = None) ->
  innermost sel path n = Some (index, a).
Proof.
  induction n as [|n IH]; intros Hlt Hnode Hsel Hnone; [lia|].
  cbn [innermost]. destruct (Nat.eq_dec index n) as [->|Hne].
  - now rewrite Hnode, Hsel.
  - assert (Hrec : innermost sel path n = Some (index, a)).
    { apply IH; try assumption; [lia|]. intros j node' Hj. apply Hnone. lia. }
    destruct (nth_error path n) as [node'|] eqn:En; [|assumption].
    rewrite (Hnone n node'); [assumption|lia|assumption].
Qed.
End Innermost.

(** ** Split if Statement: the chain below the if statement *)

Module SplitIfFacts.
Import SplitIfStatement SplitIfSpec.

Lemma chain_spec (interface : CppQuickFixInterface) (pattern : AST)
    (hasElse : bool) (result : QuickFixOperations) (rest : list AST) :
  forall index splitKind,
    splitKind = T_EOF_SYMBOL \/ splitKind = T_AMPER_AMPER
    \/ splitKind = T_PIPE_PIPE ->
    chain interface pattern hasElse rest index splitKind result = result
    \/ exists pre condition post k,
         rest = pre ++ condition :: post
         /\ Forall (binaryOf interface k) (pre ++ [condition])
         /\ (k = T_AMPER_AMPER \/ k = T_PIPE_PIPE)
         /\ (splitKind <> T_EOF_SYMBOL -> k = splitKind)
         /\ (splitKind = T_EOF_SYMBOL -> k = T_AMPER_AMPER -> hasElse = false)
         /\ cursorOnOperator interface condition
         /\ chain interface pattern hasElse rest index splitKind result
            = result ++ [SplitIfStatementOp
                           (Z.of_nat (index + length pre)) pattern condition].
Proof.
  induction rest as [|node rest IH]; intros index splitKind Hkind;
    [now left|].
  cbn [chain].
  destruct node; try now left.
  set (node := BinaryExpressionAST rg left_expression binary_op_token
                 right_expression).
  set (k := kind (tokenAt interface binary_op_token)).
  assert (Hnode : binaryOf interface k node)
    by (exists rg, left_expression, binary_op_token, right_expression; auto).
  (* the step once the kind [k'] of the chain is settled *)
  assert (Hstep : forall k',
    k' = k -> (k' = T_AMPER_AMPER \/ k' = T_PIPE_PIPE) ->
    (splitKind <> T_EOF_SYMBOL -> k' = splitKind) ->
    (splitKind = T_EOF_SYMBOL -> k' = T_AMPER_AMPER -> hasElse = false) ->
    let r := if isCursorOnToken interface binary_op_token
             then result ++ [SplitIfStatementOp (Z.of_nat index) pattern node]
             else chain interface pattern hasElse rest (S index) k' result in
    r = result
    \/ exists pre condition post k0,
         node :: rest = pre ++ condition :: post
         /\ Forall (binaryOf interface k0) (pre ++ [condition])
         /\ (k0 = T_AMPER_AMPER \/ k0 = T_PIPE_PIPE)
         /\ (splitKind <> T_EOF_SYMBOL -> k0 = splitKind)
         /\ (splitKind = T_EOF_SYMBOL -> k0 = T_AMPER_AMPER -> hasElse = false)
         /\ cursorOnOperator interface condition
         /\ r = result ++ [SplitIfStatementOp
                             (Z.of_nat (index + length pre)) pattern condition]).
  { intros k' Hk' Hk'2 Hsame Helse.
    destruct (isCursorOnToken interface binary_op_token) eqn:Ec; cbv zeta.
    - right. exists [], node, rest, k'.
      rewrite Nat.add_0_r. subst k'.
      split; [reflexivity|]. split; [now constructor|].
      split; [assumption|]. split; [assumption|]. split; [assumption|].
      split; [|reflexivity].
      exists rg, left_expression, binary_op_token, right_expression; auto.
    - destruct (IH (S index) k') as [H|(pre & c & post & k0 & H1 & H2 & H3 & H4 & H5 & H6 & H7)].
      + tauto.
      + now left.
      + right. exists (node :: pre), c, post, k0.
        assert (k0 = k') by (apply H4; destruct Hk'2; congruence).
        subst k0. split; [cbn; congruence|].
        split; [cbn; constructor; [subst k'; assumption | assumption]|].
        split; [assumption|]. split; [assumption|]. split; [assumption|].
        split; [assumption|]. rewrite H7. cbn [length].
        now replace (index + S (length pre))%nat with (S index + length pre)%nat by lia. }
  destruct (kind_eqb splitKind T_EOF_SYMBOL) eqn:E0.
  - apply kind_eqb_eq in E0. fold k.
    destruct (negb (kind_eqb k T_AMPER_AMPER) && negb (kind_eqb k T_PIPE_PIPE))
      eqn:E1; [now left|].
    destruct (kind_eqb k T_AMPER_AMPER && hasElse) eqn:E2; [now left|].
    apply Hstep; auto.
    + apply andb_false_iff in E1 as [E1|E1]; apply negb_false_iff in E1;
        apply kind_eqb_eq in E1; auto.
    + congruence.
    + intros _ Hk. rewrite Hk in E2. cbn in E2. exact E2.
  - fold k. destruct (negb (kind_eqb splitKind k)) eqn:E1; [now left|].
    apply negb_false_iff, kind_eqb_eq in E1.
    assert (splitKind <> T_EOF_SYMBOL)
      by (intros ->; cbn in E0; discriminate).
    apply Hstep; auto.
    + destruct Hkind as [?|[?|?]]; [contradiction|left|right]; congruence.
    + intros ?; contradiction.
Qed.
End SplitIfFacts.

Import SplitIfSpec SplitIfFacts.


Lemma skipn_app_exact {A : Type} (l1 l2 : list A) (n : nat) :
  n = length l1 -> skipn n (l1 ++ l2) = l2.
Proof.
  intros ->. induction l1 as [|a l1 IH]; [reflexivity | exact IH].
Qed.

Lemma nth_error_app_exact {A : Type} (l1 l2 : list A) (k : nat) :
  nth_error (l1 ++ l2) (length l1 + k) = nth_error l2 k.
Proof.
  induction l1 as [|a l1 IH]; [reflexivity | exact IH].
Qed.

Lemma split_if_spec (interface : CppQuickFixInterface)
    (result : QuickFixOperations) :
  (SplitIfStatement.doMatch interface result = result
   \/ exists index rg if_token rparen_token cond body else_token else_statement
             pre condition post k,
        let pattern :=
          IfStatementAST rg if_token rparen_token cond (Some body) else_token
            else_statement in
        innermost SplitIfStatement.selectIf (path interface) (length (path interface))
        = Some (index, pattern)
        /\ skipn (S index) (path interface) = pre ++ condition :: post
        /\ Forall (binaryOf interface k) (pre ++ [condition])
        /\ (k = T_AMPER_AMPER \/ k = T_PIPE_PIPE)
        /\ (k = T_AMPER_AMPER -> else_statement = None)
        /\ cursorOnOperator interface condition
        /\ SplitIfStatement.doMatch interface result
           = result ++ [SplitIfStatementOp (Z.of_nat (S index + length pre))
                          pattern condition])
  /\ (forall prefix rg if_token rparen_token cond body else_token
             else_statement rg' l tok r,
        let pattern :=
          IfStatementAST rg if_token rparen_token cond (Some body) else_token
            else_statement in
        let condition := BinaryExpressionAST rg' l tok r in
        path interface = prefix ++ [pattern; condition] ->
        kind (tokenAt interface tok) = T_AMPER_AMPER ->
        isCursorOnToken interface tok = true ->
        SplitIfStatement.doMatch interface result
        = match else_statement with
          | None =>
              result ++ [SplitIfStatementOp (Z.of_nat (S (length prefix)))
                           pattern condition]
          | Some _ => result
          end).
Proof.
  split.
  - unfold SplitIfStatement.doMatch. fold SplitIfStatement.selectIf.
    destruct (innermost SplitIfStatement.selectIf (path interface) (length (path interface)))
      as [[index pattern]|] eqn:Ei; [|now left].
    destruct (innermost_spec _ _ _ _ _ Ei) as (_ & (node & _ & Hsel) & _).
    unfold SplitIfStatement.selectIf in Hsel.
    destruct (asIfStatement node) eqn:Hif; [|discriminate].
    injection Hsel as ->.
    destruct pattern; try discriminate.
    destruct statement as [body|]; [|now left].
    match goal with
    | |- SplitIfStatement.chain ?i ?p ?h ?rest ?ix ?k ?res = _ \/ _ =>
        destruct (chain_spec i p h res rest ix k (or_introl eq_refl))
          as [H|(pre & c & post & k' & H1 & H2 & H3 & _ & H5 & H6 & H7)]
    end; [now left|].
    right.
    exists index, rg, if_token, rparen_token, condition, body, else_token,
      else_statement, pre, c, post, k'.
    cbv zeta. split; [reflexivity|]. split; [assumption|].
    split; [assumption|]. split; [assumption|].
    split; [|split; [assumption|assumption]].
    intros Hk. specialize (H5 eq_refl Hk). now destruct else_statement.
  - intros prefix rg if_token rparen_token cond body else_token else_statement
      rg' l tok r pattern condition Hpath Hkind Hcursor.
    unfold SplitIfStatement.doMatch. fold SplitIfStatement.selectIf.
    rewrite (innermost_found SplitIfStatement.selectIf (path interface) (length (path interface))
               (length prefix) pattern pattern).
    + rewrite Hpath.
      replace (prefix ++ [pattern; condition])
        with ((prefix ++ [pattern]) ++ [condition])
        by now rewrite <- app_assoc.
      rewrite skipn_app_exact by (rewrite length_app; cbn; lia).
      subst pattern condition. cbn [SplitIfStatement.chain].
      rewrite Hkind, Hcursor. cbn [kind_eqb negb andb].
      now destruct else_statement.
    + rewrite Hpath, length_app. cbn. lia.
    + rewrite Hpath.
      replace (length prefix) with (length prefix + 0)%nat at 1 by lia.
      now rewrite nth_error_app_exact.
    + reflexivity.
    + intros j node' Hj Hn. rewrite Hpath, length_app in Hj. cbn in Hj.
      assert (j = (length prefix + 1)%nat) by lia. subst j.
      rewrite Hpath, nth_error_app_exact in Hn. cbn in Hn.
      now injection Hn as <-.
Qed.

(** ** Add Curly Braces *)

Module AddBracesFacts.
Import AddBracesToControlStatement AddBracesSpec.

Lemma elseChain_spec :
  forall cur acc,
    Forall (fun s => lacksBraces s = true) acc ->
    let '(sts, e, tok) := elseChain cur acc in
    Forall (fun s => lacksBraces s = true) sts
    /\ (forall x, e = Some x -> asIfStatement x = false)
    /\ (elseChainBraced cur = true ->
        sts = acc /\ forall x, e = Some x -> asCompoundStatement x = true).
Proof.
  fix IH 1. intros cur acc.
  destruct cur; intros Hacc; cbn [elseChain elseChainBraced];
    try (split; [assumption|]; split; [discriminate|];
         intros _; split; [reflexivity|discriminate]).
  destruct else_statement as [next|].
  2:{ split; [assumption|]. split; [discriminate|].
      intros _. split; [reflexivity|discriminate]. }
  destruct next eqn:E;
    try (split; [assumption|]; split; [now intros x [= <-]|];
         intros Hb; split; [reflexivity|]; intros x [= <-]; exact Hb).
  rewrite <- E.
  specialize (IH next (if lacksBraces next then acc ++ [next] else acc)).
  destruct (elseChain next _) as [[sts e] tok].
  destruct IH as (H1 & H2 & H3).
  { destruct (lacksBraces next) eqn:El; [|assumption].
    apply Forall_app. split; [assumption|]. now constructor. }
  split; [assumption|]. split; [assumption|].
  intros Hb. apply andb_true_iff in Hb as [Hl Hb].
  apply negb_true_iff in Hl. rewrite Hl in H3. now apply H3.
Qed.

(** What one instance of the helper does. *)
Lemma helper_spec (T : Statement) (interface : CppQuickFixInterface)
    (result : QuickFixOperations) :
  checkControlStatementsHelper T interface result = (false, result)
  \/ checkControlStatementsHelper T interface result = (true, result)
  \/ exists statement statements elseStmt elseToken,
       lastValue (path interface) = Some statement
       /\ asControlStatement T statement = true
       /\ checkControlStatementsHelper T interface result
          = (true, result ++ [AddBracesToControlStatementOp 0 statements
                                elseStmt elseToken])
       /\ (statements <> [] \/ elseStmt <> None)
       /\ Forall (fun s => lacksBraces s = true) statements
       /\ (forall e, elseStmt = Some e ->
                     asIfStatement e = false /\ asCompoundStatement e = false).
Proof.
  unfold checkControlStatementsHelper.
  destruct (lastValue (path interface)) as [statement|] eqn:Hlast;
    [|now left].
  destruct (asControlStatement T statement) eqn:Has; cbn [negb];
    [|now left].
  right.
  set (first := if isCursorOnToken interface (triggerToken statement)
                   && lacksBraces statement then [statement] else []).
  assert (Hfirst : Forall (fun s => lacksBraces s = true) first).
  { subst first.
    destruct (isCursorOnToken interface (triggerToken statement)); cbn;
      [|constructor].
    destruct (lacksBraces statement) eqn:E; constructor; auto. }
  assert (Hfinal : forall statements elseStmt elseToken,
    Forall (fun s => lacksBraces s = true) statements ->
    (forall e, elseStmt = Some e ->
               asIfStatement e = false /\ asCompoundStatement e = false) ->
    let r := match statements, elseStmt with
             | [], None => (true, result)
             | _, _ => (true, result ++ [AddBracesToControlStatementOp 0
                                           statements elseStmt elseToken])
             end in
    r = (true, result)
    \/ exists statement0 statements0 elseStmt0 elseToken0,
         Some statement = Some statement0
         /\ asControlStatement T statement0 = true
         /\ r = (true, result ++ [AddBracesToControlStatementOp 0 statements0
                                    elseStmt0 elseToken0])
         /\ (statements0 <> [] \/ elseStmt0 <> None)
         /\ Forall (fun s => lacksBraces s = true) statements0
         /\ (forall e, elseStmt0 = Some e ->
                       asIfStatement e = false /\ asCompoundStatement e = false)).
  { intros statements elseStmt elseToken Hs He.
    destruct statements as [|s0 statements]; [destruct elseStmt as [e|]|];
      cbv zeta; [right|now left|right];
      exists statement; eexists; eexists; eexists;
      (split; [reflexivity|]); (split; [exact Has|]);
      (split; [reflexivity|]); (split; [|split; assumption]).
    - right. discriminate.
    - left. discriminate. }
  destruct T;
    try (apply (Hfinal first None 0%nat); [assumption | discriminate]).
  pose proof (elseChain_spec statement first Hfirst) as Hchain.
  destruct (elseChain statement first) as [[sts e] tok].
  destruct Hchain as (H1 & H2 & _).
  destruct e as [e|];
    [|apply (Hfinal sts None tok); [assumption | discriminate]].
  rewrite (H2 e eq_refl). cbn [orb].
  destruct (asCompoundStatement e) eqn:Ec.
  - apply (Hfinal sts None 0%nat); [assumption | discriminate].
  - apply (Hfinal sts (Some e) tok); [assumption|].
    intros e' [= <-]. split; auto.
Qed.

(** With braces everywhere, the helper for if statements adds nothing. *)
Lemma helper_braced (interface : CppQuickFixInterface)
    (result : QuickFixOperations) (statement : AST) :
  lastValue (path interface) = Some statement ->
  asControlStatement IfStatement statement = true ->
  lacksBraces statement = false ->
  elseChainBraced statement = true ->
  checkControlStatementsHelper IfStatement interface result = (true, result).
Proof.
  intros Hlast Has Hbody Hchain. unfold checkControlStatementsHelper.
  rewrite Hlast, Has, Hbody, andb_false_r. cbn [negb].
  pose proof (elseChain_spec statement [] ltac:(constructor)) as Hspec.
  destruct (elseChain statement []) as [[sts e] tok].
  destruct Hspec as (_ & H2 & H3). destruct (H3 Hchain) as (-> & Hc).
  destruct e as [e|]; [|reflexivity].
  now rewrite (Hc e eq_refl), orb_true_r.
Qed.
End AddBracesFacts.

Import AddBracesToControlStatement AddBracesSpec AddBracesFacts.

Lemma add_braces_spec (interface : CppQuickFixInterface)
    (result : QuickFixOperations) :
  (forall rg if_token rparen_token cond body else_token else_statement,
     let statement :=
       IfStatementAST rg if_token rparen_token cond (Some body) else_token
         else_statement in
     lastValue (path interface) = Some statement ->
     asCompoundStatement body = true ->
     elseChainBraced statement = true ->
     AddBracesToControlStatement.doMatch interface result = result)
  /\ (AddBracesToControlStatement.doMatch interface result = result
      \/ exists statement statements elseStmt elseToken,
           lastValue (path interface) = Some statement
           /\ AddBracesToControlStatement.doMatch interface result
              = result ++ [AddBracesToControlStatementOp 0 statements elseStmt
                             elseToken]
           /\ (statements <> [] \/ elseStmt <> None)
           /\ Forall (fun s => lacksBraces s = true) statements
           /\ (forall e, elseStmt = Some e ->
                         asIfStatement e = false
                         /\ asCompoundStatement e = false)).
Proof.
  split.
  - intros rg if_token rparen_token cond body else_token else_statement
      statement Hlast Hbody Hchain.
    unfold AddBracesToControlStatement.doMatch.
    destruct (path interface) eqn:Hp; [reflexivity|]. rewrite <- Hp in Hlast.
    cbn [checkControlStatements].
    rewrite (helper_braced interface result statement Hlast eq_refl);
      [reflexivity| |assumption].
    unfold lacksBraces. cbn. now rewrite Hbody.
  - unfold AddBracesToControlStatement.doMatch.
    destruct (path interface) eqn:Hp; [now left|]. rewrite <- Hp.
    assert (Hstep : forall T rest,
      (checkControlStatements rest interface result = result
       \/ exists statement statements elseStmt elseToken,
            lastValue (path interface) = Some statement
            /\ checkControlStatements rest interface result
               = result ++ [AddBracesToControlStatementOp 0 statements
                              elseStmt elseToken]
            /\ (statements <> [] \/ elseStmt <> None)
            /\ Forall (fun s => lacksBraces s = true) statements
            /\ (forall e, elseStmt = Some e ->
                          asIfStatement e = false
                          /\ asCompoundStatement e = false)) ->
      checkControlStatements (T :: rest) interface result = result
      \/ exists statement statements elseStmt elseToken,
           lastValue (path interface) = Some statement
           /\ checkControlStatements (T :: rest) interface result
              = result ++ [AddBracesToControlStatementOp 0 statements
                             elseStmt elseToken]
           /\ (statements <> [] \/ elseStmt <> None)
           /\ Forall (fun s => lacksBraces s = true) statements
           /\ (forall e, elseStmt = Some e ->
                         asIfStatement e = false
                         /\ asCompoundStatement e = false)).
    { intros T rest Hrest. cbn [checkControlStatements].
      destruct (helper_spec T interface result)
        as [H|[H|(st & sts & e & tok & H1 & _ & H & H3 & H4 & H5)]];
        rewrite H; [exact Hrest | now left |].
      right. exists st, sts, e, tok. auto. }
    do 5 apply Hstep. now left.
Qed.

(** ** The number conversions *)

Import DigitsSpec.

Section Digits.

Lemma code_ascii_of_nat (n : nat) :
  (n < 256)%nat -> QStr.code (ascii_of_nat n) = Z.of_nat n.
Proof.
  intros H. unfold QStr.code. now rewrite nat_ascii_embedding.
Qed.

Lemma code_digitChar (d : Z) :
  0 <= d < 36 ->
  QStr.code (ULong.digitChar d) = if d <? 10 then 48 + d else 55 + d.
Proof.
  intros H. unfold ULong.digitChar.
  destruct (d <? 10) eqn:E; rewrite code_ascii_of_nat; lia.
Qed.

Lemma digitValue_digitChar (d : Z) :
  0 <= d < 36 -> ULong.digitValue (ULong.digitChar d) = Some d.
Proof.
  intros H. unfold ULong.digitValue. rewrite code_digitChar by assumption.
  destruct (d <? 10) eqn:E.
  - apply Z.ltb_lt in E.
    replace ((48 <=? 48 + d) && (48 + d <=? 57)) with true
      by (symmetry; apply andb_true_iff; split; apply Z.leb_le; lia).
    f_equal. lia.
  - apply Z.ltb_ge in E.
    replace ((48 <=? 55 + d) && (55 + d <=? 57)) with false
      by (symmetry; apply andb_false_iff; right; apply Z.leb_gt; lia).
    replace ((97 <=? 55 + d) && (55 + d <=? 122)) with false
      by (symmetry; apply andb_false_iff; left; apply Z.leb_gt; lia).
    replace ((65 <=? 55 + d) && (55 + d <=? 90)) with true
      by (symmetry; apply andb_true_iff; split; apply Z.leb_le; lia).
    f_equal. lia.
Qed.

Variable base : Z.
Hypothesis base_range : 2 <= base <= 36.

(** Reading back what [utoa] printed in front of [acc] continues the
    reading of [acc] from the printed value. *)
Lemma parseDigits_utoa (fuel : nat) :
  forall v acc,
    0 <= v < base ^ Z.of_nat fuel -> v <= ULong.max ->
    ULong.parseDigits base (ULong.utoa fuel base v acc) 0
    = ULong.parseDigits base acc v.
Proof.
  induction fuel as [|fuel IH]; intros v acc Hv Hmax.
  - simpl in *. replace v with 0 by lia. reflexivity.
  - assert (Hb : 0 < base) by lia.
    pose proof (Z.mod_pos_bound v base Hb) as Hmod.
    pose proof (Z.div_mod v base ltac:(lia)) as Hdm.
    assert (Hstep : forall a, a = v / base ->
              ULong.parseDigits base
                (String (ULong.digitChar (v mod base)) acc) a
              = ULong.parseDigits base acc v).
    { intros a ->. cbn [ULong.parseDigits].
      rewrite digitValue_digitChar by lia.
      replace (v mod base <? base) with true by (symmetry; apply Z.ltb_lt; lia).
      replace (v / base * base + v mod base) with v by lia.
      replace (v <=? ULong.max) with true by (symmetry; apply Z.leb_le; lia).
      reflexivity. }
    cbn [ULong.utoa].
    destruct (v / base =? 0) eqn:E.
    + apply Z.eqb_eq in E. apply Hstep. lia.
    + apply Z.eqb_neq in E.
      assert (0 <= v / base) by (apply Z.div_pos; lia).
      rewrite IH.
      * apply Hstep. reflexivity.
      * split; [assumption|].
        apply Z.div_lt_upper_bound; [lia|].
        rewrite Nat2Z.inj_succ, Z.pow_succ_r in Hv by lia. lia.
      * assert (v / base <= v) by (apply Z.div_le_upper_bound; nia). lia.
Qed.

(** [utoa] prints at least one digit. *)
Lemma utoa_acc_nonempty (fuel : nat) :
  forall v acc, acc <> EmptyString -> ULong.utoa fuel base v acc <> EmptyString.
Proof.
  induction fuel as [|fuel IH]; intros v acc H; cbn [ULong.utoa].
  - assumption.
  - destruct (v / base =? 0); [discriminate|]. apply IH. discriminate.
Qed.

Lemma utoa_nonempty (fuel : nat) (v : Z) (acc : string) :
  ULong.utoa (S fuel) base v acc <> EmptyString.
Proof.
  cbn [ULong.utoa]. destruct (v / base =? 0); [discriminate|].
  apply utoa_acc_nonempty. discriminate.
Qed.


(** The digits [utoa] prints: the first one is not zero unless the value
    is, and then it is the only one. *)
Lemma utoa_shape (fuel : nat) :
  forall v acc,
    0 <= v < base ^ Z.of_nat (S fuel) ->
    exists d rest,
      ULong.utoa (S fuel) base v acc = String (ULong.digitChar d) rest
      /\ 0 <= d < base /\ (0 < v -> 0 < d) /\ (v = 0 -> rest = acc).
Proof.
  assert (Hb : 0 < base) by lia.
  induction fuel as [|fuel IH]; intros v acc Hv.
  - exists (v mod base), acc.
    pose proof (Z.mod_pos_bound v base Hb).
    change (Z.of_nat 1) with 1 in Hv. rewrite Z.pow_1_r in Hv.
    cbn [ULong.utoa]. rewrite (Z.div_small v base) by lia.
    rewrite Z.mod_small by lia. cbn.
    split; [reflexivity|]. split; [lia|]. split; [lia|]. reflexivity.
  - remember (S fuel) as f eqn:Ef. cbn [ULong.utoa].
    pose proof (Z.mod_pos_bound v base Hb).
    pose proof (Z.div_mod v base ltac:(lia)) as Hdm.
    destruct (v / base =? 0) eqn:E.
    + apply Z.eqb_eq in E.
      exists (v mod base), acc.
      split; [reflexivity|]. split; [lia|]. split; [lia|]. reflexivity.
    + apply Z.eqb_neq in E.
      assert (0 <= v / base) by (apply Z.div_pos; lia).
      destruct (IH (v / base) (String (ULong.digitChar (v mod base)) acc))
        as (d & rest & Heq & Hd & Hpos & _).
      { split; [assumption|]. apply Z.div_lt_upper_bound; [lia|].
        rewrite (Nat2Z.inj_succ f), Z.pow_succ_r in Hv by lia. lia. }
      exists d, rest. rewrite Heq.
      split; [reflexivity|]. split; [lia|]. split; [lia|].
      intros ->. rewrite Z.div_0_l in E by lia. contradiction.
Qed.

(** Every character [utoa] prints is a digit of the base. *)
Lemma utoa_allChars (fuel : nat) :
  forall v acc,
    allChars (isDigitOfBase base) acc ->
    allChars (isDigitOfBase base) (ULong.utoa fuel base v acc).
Proof.
  assert (Hb : 0 < base) by lia.
  induction fuel as [|fuel IH]; intros v acc Hacc; cbn [ULong.utoa].
  - assumption.
  - assert (allChars (isDigitOfBase base)
              (String (ULong.digitChar (v mod base)) acc)).
    { split; [|assumption]. exists (v mod base). split; [|reflexivity].
      apply Z.mod_pos_bound. lia. }
    destruct (v / base =? 0); [assumption|]. now apply IH.
Qed.

End Digits.

Lemma allChars_get (P : ascii -> Prop) (s : string) :
  allChars P s -> forall i c, String.get i s = Some c -> P c.
Proof.
  induction s as [|a s IH]; intros H i c Hget; [discriminate|].
  destruct H as [Ha Hs]. destruct i as [|i]; cbn in Hget.
  - now inversion Hget; subst.
  - eauto.
Qed.

Lemma get_lt (s : string) : forall i, (i < String.length s)%nat ->
  exists c, String.get i s = Some c.
Proof.
  induction s as [|a s IH]; intros i H; cbn in H; [lia|].
  destruct i as [|i]; cbn; [eauto|]. apply IH. lia.
Qed.

Lemma left_length (s : string) : QStr.left (String.length s) s = s.
Proof. induction s as [|a s IH]; cbn; [reflexivity|]. now rewrite IH. Qed.

(** ** Characters, by enumeration *)

Ltac by_cases_on_ascii c :=
  destruct c as [[] [] [] [] [] [] [] []]; vm_compute; reflexivity.

Lemma eqb_zero_code (c : ascii) :
  Ascii.eqb c "0" = (QStr.code c =? 48).
Proof. by_cases_on_ascii c. Qed.

Lemma lower_zero_code (c : ascii) :
  Ascii.eqb (QStr.toLower "0") (QStr.toLower c) = (QStr.code c =? 48).
Proof. by_cases_on_ascii c. Qed.

Lemma lower_x_code (c : ascii) :
  Ascii.eqb (QStr.toLower "x") (QStr.toLower c)
  = (QStr.code c =? 120) || (QStr.code c =? 88).
Proof. by_cases_on_ascii c. Qed.

Lemma lower_b_code (c : ascii) :
  Ascii.eqb (QStr.toLower "b") (QStr.toLower c)
  = (QStr.code c =? 98) || (QStr.code c =? 66).
Proof. by_cases_on_ascii c. Qed.

Lemma eqb_b_code (c : ascii) :
  Ascii.eqb c "b" || Ascii.eqb c "B"
  = (QStr.code c =? 98) || (QStr.code c =? 66).
Proof. by_cases_on_ascii c. Qed.

Lemma isxdigit_digitChar (d : Z) :
  0 <= d < 16 -> ULong.isxdigit (ULong.digitChar d) = true.
Proof.
  intros H. unfold ULong.isxdigit. rewrite code_digitChar by lia.
  destruct (d <? 10) eqn:E; [apply Z.ltb_lt in E | apply Z.ltb_ge in E].
  - replace ((48 <=? 48 + d) && (48 + d <=? 57)) with true; [reflexivity|].
    symmetry; apply andb_true_iff; split; apply Z.leb_le; lia.
  - replace ((65 <=? 55 + d) && (55 + d <=? 70)) with true.
    + now rewrite orb_true_r.
    + symmetry; apply andb_true_iff; split; apply Z.leb_le; lia.
Qed.

Import NumericSpec.

Lemma eqb_x_code (c : ascii) :
  Ascii.eqb c "x" || Ascii.eqb c "X"
  = (QStr.code c =? 120) || (QStr.code c =? 88).
Proof. by_cases_on_ascii c. Qed.

Lemma isxdigit_code (c : ascii) :
  ULong.isxdigit c
  = ((48 <=? QStr.code c) && (QStr.code c <=? 57))
    || ((97 <=? QStr.code c) && (QStr.code c <=? 102))
    || ((65 <=? QStr.code c) && (QStr.code c <=? 70)).
Proof. reflexivity. Qed.

Section StripSuffix.
Variable spell : string.

Lemma stripSuffix_le (m : nat) :
  (ConvertNumericLiteral.stripSuffix spell m <= m)%nat.
Proof.
  induction m as [|m IH]; cbn [ConvertNumericLiteral.stripSuffix].
  - lia.
  - destruct (ULong.isxdigit (QStr.at_ spell m)); lia.
Qed.

Lemma stripSuffix_gt (m i : nat) :
  (i < m)%nat -> ULong.isxdigit (QStr.at_ spell i) = true ->
  (i < ConvertNumericLiteral.stripSuffix spell m)%nat.
Proof.
  induction m as [|m IH]; intros Hi Hx; [lia|].
  cbn [ConvertNumericLiteral.stripSuffix].
  destruct (ULong.isxdigit (QStr.at_ spell m)) eqn:E; [lia|].
  apply IH; [|assumption].
  destruct (Nat.eq_dec i m) as [->|]; [congruence | lia].
Qed.

(** The characters behind the digits are no hexadecimal digits. *)
Lemma stripSuffix_suffix (m i : nat) :
  (ConvertNumericLiteral.stripSuffix spell m <= i < m)%nat ->
  ULong.isxdigit (QStr.at_ spell i) = false.
Proof.
  induction m as [|m IH]; intros Hi; [lia|].
  cbn [ConvertNumericLiteral.stripSuffix] in Hi.
  destruct (ULong.isxdigit (QStr.at_ spell m)) eqn:E; [lia|].
  destruct (Nat.eq_dec i m) as [->|]; [assumption|].
  apply IH. lia.
Qed.

(** The last of the digits is a hexadecimal digit. *)
Lemma stripSuffix_last (m : nat) :
  (0 < ConvertNumericLiteral.stripSuffix spell m)%nat ->
  ULong.isxdigit
    (QStr.at_ spell (ConvertNumericLiteral.stripSuffix spell m - 1)) = true.
Proof.
  induction m as [|m IH]; cbn [ConvertNumericLiteral.stripSuffix]; [lia|].
  destruct (ULong.isxdigit (QStr.at_ spell m)) eqn:E; [|assumption].
  intros _. now replace (S m - 1)%nat with m by lia.
Qed.
End StripSuffix.

Lemma toNumber_nonempty (x : string) (value : Z) :
  ConvertNumericLiteral.toNumber x = Some value -> x <> EmptyString.
Proof. intros H ->. discriminate. Qed.

Lemma left_0 (s : string) : QStr.left 0 s = EmptyString.
Proof. now destruct s. Qed.

(** The flags [doMatch] computes agree with the radix of the spelling. *)
Lemma isHex_radix (spell : string) :
  QStr.startsWithCI "0x" spell = radix_eqb (radixOf spell) Hexadecimal.
Proof.
  destruct spell as [|c0 [|c1 r]].
  - reflexivity.
  - cbn; rewrite ?andb_false_r; reflexivity.
  - cbn [QStr.startsWithCI radixOf].
    rewrite lower_zero_code, lower_x_code, eqb_zero_code, eqb_x_code,
      eqb_b_code, andb_true_r.
    destruct (QStr.code c0 =? 48); cbn; [|reflexivity].
    destruct (Z.eqb_spec (QStr.code c1) 120) as [->|]; [reflexivity|].
    destruct (Z.eqb_spec (QStr.code c1) 88) as [->|]; [reflexivity|].
    cbn.
    destruct ((QStr.code c1 =? 98) || (QStr.code c1 =? 66)); [reflexivity|].
    now destruct ((48 <=? QStr.code c1) && (QStr.code c1 <=? 55)).
Qed.

Lemma isOctal_radix (spell : string) :
  (2 <=? ConvertNumericLiteral.stripSuffix spell (String.length spell))%nat
  && Ascii.eqb (QStr.at_ spell 0) "0"
  && (48 <=? QStr.code (QStr.at_ spell 1))
  && (QStr.code (QStr.at_ spell 1) <=? 55)
  = radix_eqb (radixOf spell) Octal.
Proof.
  destruct spell as [|c0 [|c1 r]].
  - cbn; rewrite ?andb_false_r; reflexivity.
  - cbn; rewrite ?andb_false_r; reflexivity.
  - cbn [radixOf]. change (QStr.at_ (String c0 (String c1 r)) 0) with c0.
    change (QStr.at_ (String c0 (String c1 r)) 1) with c1.
    rewrite eqb_zero_code, eqb_x_code, eqb_b_code.
    destruct (QStr.code c0 =? 48); cbn [negb andb];
      [|now rewrite andb_false_r].
    destruct ((48 <=? QStr.code c1) && (QStr.code c1 <=? 55)) eqn:Eo.
    + assert (Hx : ULong.isxdigit c1 = true).
      { rewrite isxdigit_code. apply andb_true_iff in Eo as [H1 H2].
        apply Z.leb_le in H1, H2.
        replace ((48 <=? QStr.code c1) && (QStr.code c1 <=? 57)) with true;
          [reflexivity|].
        symmetry. apply andb_true_iff; split; apply Z.leb_le; lia. }
      pose proof (stripSuffix_gt (String c0 (String c1 r))
                    (String.length (String c0 (String c1 r))) 1
                    ltac:(cbn; lia) Hx) as Hn.
      apply andb_true_iff in Eo as [H1 H2]. rewrite H1, H2.
      apply Z.leb_le in H1, H2.
      replace (2 <=? _)%nat with true
        by (symmetry; apply Nat.leb_le; lia).
      destruct (Z.eqb_spec (QStr.code c1) 120); [lia|].
      destruct (Z.eqb_spec (QStr.code c1) 88); [lia|].
      destruct (Z.eqb_spec (QStr.code c1) 98); [lia|].
      destruct (Z.eqb_spec (QStr.code c1) 66); [lia|].
      reflexivity.
    + rewrite <- andb_assoc, Eo, andb_false_r.
      destruct ((QStr.code c1 =? 120) || (QStr.code c1 =? 88));
        [reflexivity|].
      now destruct ((QStr.code c1 =? 98) || (QStr.code c1 =? 66)).
Qed.

Lemma isBinary_radix (spell : string) (value : Z) :
  ConvertNumericLiteral.toNumber
    (QStr.left (ConvertNumericLiteral.stripSuffix spell (String.length spell))
       spell)
  = Some value ->
  (2 <? ConvertNumericLiteral.stripSuffix spell (String.length spell))%nat
  && Ascii.eqb (QStr.at_ spell 0) "0"
  && (Ascii.eqb (QStr.at_ spell 1) "b" || Ascii.eqb (QStr.at_ spell 1) "B")
  = radix_eqb (radixOf spell) Binary.
Proof.
  intros Hv.
  remember (ConvertNumericLiteral.stripSuffix spell (String.length spell))
    as n eqn:Hn.
  destruct spell as [|c0 [|c1 r]].
  - cbn; rewrite ?andb_false_r; reflexivity.
  - cbn; rewrite ?andb_false_r; reflexivity.
  - cbn [radixOf]. change (QStr.at_ (String c0 (String c1 r)) 0) with c0.
    change (QStr.at_ (String c0 (String c1 r)) 1) with c1.
    rewrite eqb_zero_code, eqb_x_code, eqb_b_code.
    destruct (QStr.code c0 =? 48) eqn:E0; cbn [negb andb];
      [|now rewrite andb_false_r].
    rewrite andb_true_r.
    destruct (Z.eqb_spec (QStr.code c1) 120) as [Ex|Ex].
    { rewrite Ex. cbn. now rewrite andb_false_r. }
    destruct (Z.eqb_spec (QStr.code c1) 88) as [EX|EX].
    { rewrite EX. cbn. now rewrite andb_false_r. }
    cbn [orb].
    destruct ((QStr.code c1 =? 98) || (QStr.code c1 =? 66)) eqn:Eb.
    + rewrite andb_true_r. cbn.
      assert (Hx : ULong.isxdigit c1 = true).
      { rewrite isxdigit_code. apply orb_true_iff in Eb as [H|H];
          apply Z.eqb_eq in H; rewrite H; reflexivity. }
      pose proof (stripSuffix_gt (String c0 (String c1 r))
                    (String.length (String c0 (String c1 r))) 1
                    ltac:(cbn; lia) Hx) as Hgt.
      rewrite <- Hn in Hgt.
      destruct n as [|[|[|n']]]; try lia.
      exfalso. cbn [QStr.left] in Hv.
      unfold ConvertNumericLiteral.toNumber in Hv.
      cbn [QStr.startsWithCI] in Hv.
      rewrite lower_zero_code, lower_b_code, E0, Eb in Hv.
      cbn in Hv. discriminate.
    + rewrite andb_false_r.
      now destruct ((48 <=? QStr.code c1) && (QStr.code c1 <=? 55)).
Qed.

Lemma radix_cases (r : Radix) (A : Type) (h o d b : A) (result : list A) :
  (let result := if negb (radix_eqb r Hexadecimal) then result ++ [h] else result in
   let result := if negb (radix_eqb r Octal) then result ++ [o] else result in
   let result := if negb (radix_eqb r Decimal) then result ++ [d] else result in
   let result := if negb (radix_eqb r Binary) then result ++ [b] else result in
   result)
  = result ++ map (fun r' => match r' with
                             | Hexadecimal => h | Octal => o
                             | Decimal => d | Binary => b
                             end)
                (List.filter (fun r' => negb (radix_eqb r' r))
                   [Hexadecimal; Octal; Decimal; Binary]).
Proof.
  destruct r; cbn; rewrite <- ?app_assoc; reflexivity.
Qed.

Lemma decimal_flag (r : Radix) :
  negb (radix_eqb r Binary || radix_eqb r Octal || radix_eqb r Hexadecimal)
  = radix_eqb r Decimal.
Proof. now destruct r. Qed.

(** What [doMatch] offers for an integer literal whose digits parse. *)
Lemma doMatch_conversions (interface : CppQuickFixInterface)
    (result : QuickFixOperations) (literal : AST) (numeric : NumericLiteral)
    (value : Z) :
  cursorOnLiteral interface literal numeric ->
  isDouble numeric = false -> isFloat numeric = false ->
  isHex numeric = QStr.startsWithCI "0x" (chars numeric) ->
  ConvertNumericLiteral.toNumber (digitsOf numeric) = Some value ->
  ConvertNumericLiteral.doMatch interface result
  = result ++ conversions (Z.of_nat (length (path interface)) - 1)
                (startOf literal)
                (startOf literal + Z.of_nat (numberLength numeric)) value
                (radixOf (chars numeric)).
Proof.
  intros (rg & tok & -> & Hlast & Htok) Hd Hf Hhex Hv.
  unfold ConvertNumericLiteral.doMatch.
  rewrite Hlast, Htok. cbn [kind number kind_eqb negb].
  rewrite Hd, Hf. cbn [orb].
  fold (numberLength numeric). fold (digitsOf numeric). rewrite Hv.
  destruct (numberLength numeric <? 1)%nat eqn:En.
  { apply Nat.ltb_lt in En. exfalso.
    apply (toNumber_nonempty _ _ Hv). unfold digitsOf.
    replace (numberLength numeric) with 0%nat by lia. apply left_0. }
  cbv zeta.
  pose proof (isBinary_radix (chars numeric) value Hv) as Hb.
  pose proof (isOctal_radix (chars numeric)) as Ho.
  change (ConvertNumericLiteral.stripSuffix (chars numeric)
            (String.length (chars numeric)))
    with (numberLength numeric) in Hb, Ho.
  rewrite Hb, Ho, Hhex, isHex_radix, decimal_flag.
  rewrite radix_cases. unfold conversions. f_equal.
  apply map_ext. intros r. destruct r; cbn [description render]; try reflexivity.
  unfold binaryDigits. now destruct (value =? 0).
Qed.

Lemma max_lt_pow (base : Z) : 2 <= base -> ULong.max < base ^ 64.
Proof.
  intros H. unfold ULong.max, ULong.digits.
  change (Z.of_nat 64) with 64.
  assert (2 ^ 64 <= base ^ 64) by (apply Z.pow_le_mono_l; lia). lia.
Qed.

(** The digits of a string all of whose characters are digits. *)
Lemma stripSuffix_all (s : string) :
  s <> EmptyString ->
  (forall c, String.get (String.length s - 1) s = Some c ->
             ULong.isxdigit c = true) ->
  ConvertNumericLiteral.stripSuffix s (String.length s) = String.length s.
Proof.
  intros Hne Hlast. destruct (String.length s) as [|k] eqn:El.
  - reflexivity.
  - cbn [ConvertNumericLiteral.stripSuffix].
    replace (S k - 1)%nat with k in Hlast by lia.
    destruct (get_lt s k ltac:(lia)) as (c & Hc).
    unfold QStr.at_. rewrite Hc, (Hlast c Hc). reflexivity.
Qed.

Section Printed.
Variable v : Z.
Hypothesis v_range : 0 <= v <= ULong.max.

Lemma printed_parse (base : Z) :
  2 <= base <= 36 ->
  ULong.parseNonEmpty base (ULong.utoa ULong.digits base v EmptyString)
  = Some v.
Proof.
  intros Hb. unfold ULong.parseNonEmpty.
  destruct (ULong.utoa ULong.digits base v EmptyString) eqn:E.
  - exfalso. revert E. apply (utoa_nonempty base 63).
  - rewrite <- E. rewrite parseDigits_utoa; [reflexivity|assumption| |lia].
    pose proof (max_lt_pow base ltac:(lia)).
    change (Z.of_nat ULong.digits) with 64. lia.
Qed.

Lemma printed_last_xdigit (base : Z) (acc : string) :
  2 <= base <= 16 -> acc = EmptyString ->
  forall s, s = ULong.utoa ULong.digits base v acc ->
  forall i c, String.get i s = Some c -> ULong.isxdigit c = true.
Proof.
  intros Hb -> s -> i c Hget.
  pose proof (utoa_allChars base ltac:(lia) ULong.digits v EmptyString I) as Hall.
  destruct (allChars_get _ _ Hall i c Hget) as (d & Hd & ->).
  apply isxdigit_digitChar. lia.
Qed.

(** The decimal spelling of [v]. *)
Lemma decimal_digitsOf :
  digitsOf (integerLiteral (ULong.fmt_lu v)) = ULong.fmt_lu v.
Proof.
  unfold digitsOf, numberLength, NumericLiteral_size.
  cbn [chars integerLiteral].
  rewrite stripSuffix_all.
  - apply left_length.
  - apply (utoa_nonempty 10 63).
  - intros c Hc.
    apply (printed_last_xdigit 10 EmptyString ltac:(lia) eq_refl
             (ULong.fmt_lu v) eq_refl _ c Hc).
Qed.

Lemma decimal_first :
  0 < v ->
  exists d rest, ULong.fmt_lu v = String (ULong.digitChar d) rest
                 /\ 0 < d < 10.
Proof.
  intros Hpos.
  destruct (utoa_shape 10 ltac:(lia) 63 v EmptyString)
    as (d & rest & E & Hd & Hp & _).
  { pose proof (max_lt_pow 10 ltac:(lia)).
    change (Z.of_nat 64) with 64. lia. }
  exists d, rest. split; [exact E|]. specialize (Hp Hpos). lia.
Qed.

Lemma decimal_toNumber :
  ConvertNumericLiteral.toNumber (ULong.fmt_lu v) = Some v.
Proof.
  destruct (Z.eq_dec v 0) as [->|Hnz]; [reflexivity|].
  destruct decimal_first as (d & rest & E & Hd); [lia|].
  pose proof (printed_parse 10 ltac:(lia)) as Hparse.
  fold (ULong.fmt_lu v) in Hparse.
  unfold ConvertNumericLiteral.toNumber, ULong.toULong.
  rewrite E in *. cbn [QStr.startsWithCI].
  rewrite lower_zero_code, code_digitChar by lia.
  replace (d <? 10) with true by (symmetry; apply Z.ltb_lt; lia).
  replace (48 + d =? 48) with false by (symmetry; apply Z.eqb_neq; lia).
  cbn. exact Hparse.
Qed.

Lemma decimal_radix : radixOf (ULong.fmt_lu v) = Decimal.
Proof.
  destruct (Z.eq_dec v 0) as [->|Hnz]; [reflexivity|].
  destruct decimal_first as (d & rest & E & Hd); [lia|].
  rewrite E. unfold radixOf. destruct rest; [reflexivity|].
  rewrite eqb_zero_code, code_digitChar by lia.
  replace (d <? 10) with true by (symmetry; apply Z.ltb_lt; lia).
  replace (48 + d =? 48) with false by (symmetry; apply Z.eqb_neq; lia).
  reflexivity.
Qed.

(** The hexadecimal spelling of [v]. *)
Lemma hex_digitsOf :
  digitsOf (integerLiteral (render Hexadecimal v)) = render Hexadecimal v.
Proof.
  unfold digitsOf, numberLength, NumericLiteral_size.
  cbn [chars integerLiteral].
  rewrite stripSuffix_all.
  - apply left_length.
  - discriminate.
  - change (render Hexadecimal v)
      with (String "0" (String "x" (ULong.fmt_lX v))).
    cbn [String.length]. intros c Hc.
    destruct (String.length (ULong.fmt_lX v)) as [|k] eqn:El.
    { exfalso. destruct (ULong.fmt_lX v) eqn:E; [|discriminate].
      revert E. apply (utoa_nonempty 16 63). }
    replace (S (S (S k)) - 1)%nat with (S (S k)) in Hc by lia.
    cbn [String.get] in Hc.
    apply (printed_last_xdigit 16 EmptyString ltac:(lia) eq_refl
             (ULong.fmt_lX v) eq_refl k c Hc).
Qed.

Lemma hex_toNumber :
  ConvertNumericLiteral.toNumber (render Hexadecimal v) = Some v.
Proof.
  unfold ConvertNumericLiteral.toNumber, ULong.toULong.
  cbn [render String.append QStr.startsWithCI QStr.mid].
  change (Ascii.eqb (QStr.toLower "0") (QStr.toLower "0")) with true.
  change (Ascii.eqb (QStr.toLower "b") (QStr.toLower "x")) with false.
  change (Ascii.eqb (QStr.toLower "x") (QStr.toLower "x")) with true.
  cbn. apply (printed_parse 16). lia.
Qed.

Lemma hex_radix : radixOf (render Hexadecimal v) = Hexadecimal.
Proof. reflexivity. Qed.
End Printed.

Lemma doMatch_unparsed (interface : CppQuickFixInterface)
    (result : QuickFixOperations) (literal : AST) (numeric : NumericLiteral) :
  cursorOnLiteral interface literal numeric ->
  ConvertNumericLiteral.toNumber (digitsOf numeric) = None ->
  ConvertNumericLiteral.doMatch interface result = result.
Proof.
  intros (rg & tok & -> & Hlast & Htok) Hv.
  unfold ConvertNumericLiteral.doMatch.
  rewrite Hlast, Htok. cbn [kind number kind_eqb negb].
  destruct (isDouble numeric || isFloat numeric); [reflexivity|].
  fold (numberLength numeric). fold (digitsOf numeric). rewrite Hv.
  now destruct (numberLength numeric <? 1)%nat.
Qed.

Lemma doMatch_floating (interface : CppQuickFixInterface)
    (result : QuickFixOperations) (literal : AST) (numeric : NumericLiteral) :
  cursorOnLiteral interface literal numeric ->
  isDouble numeric || isFloat numeric = true ->
  ConvertNumericLiteral.doMatch interface result = result.
Proof.
  intros (rg & tok & -> & Hlast & Htok) Hv.
  unfold ConvertNumericLiteral.doMatch.
  rewrite Hlast, Htok. cbn [kind number kind_eqb negb].
  now rewrite Hv.
Qed.

Lemma append_nil_l (s : string) : String.append EmptyString s = s.
Proof. reflexivity. Qed.

Lemma append_cons (c : ascii) (s t : string) :
  String.append (String c s) t = String c (String.append s t).
Proof. reflexivity. Qed.

(** [removeLeadingZeros] drops zeros from the front and nothing else. *)
Lemma removeLeadingZeros_spec (s : string) :
  exists k, s = String.append (zeros k) (ULong.removeLeadingZeros s)
            /\ QStr.startsWithCI "0" (ULong.removeLeadingZeros s) = false.
Proof.
  induction s as [|c s (k & IH1 & IH2)].
  - exists 0%nat. split; reflexivity.
  - cbn [ULong.removeLeadingZeros].
    destruct (Ascii.eqb c "0") eqn:Ec.
    + apply Ascii.eqb_eq in Ec as ->.
      exists (S k). split; [|assumption].
      cbn [zeros]. rewrite append_cons. now rewrite <- IH1.
    + exists 0%nat. split; [reflexivity|].
      cbn [QStr.startsWithCI]. rewrite lower_zero_code, andb_true_r.
      now rewrite <- eqb_zero_code.
Qed.

(** ** One replacement on a buffer *)

Lemma append_empty_r (s : string) : String.append s EmptyString = s.
Proof.
  induction s as [|c s IH]; [reflexivity|]. now rewrite append_cons, IH.
Qed.

Section Replace.
Variables (s e : Z) (t buffer : string).
Hypothesis range_ordered : s <= e.


Lemma rewrite_behind (rest : string) :
  forall p, s < p ->
    ChangeSet.rewrite [ChangeSet.Replace s e t] buffer rest p = QStr.mid (Z.to_nat (e - p)) rest.
Proof.
  induction rest as [|c rest IH]; intros p Hp;
    cbn [ChangeSet.rewrite ChangeSet.insertionsAt fold_right
         ChangeSet.insertedAt existsb ChangeSet.removedAt];
    replace (s =? p) with false by (symmetry; apply Z.eqb_neq; lia);
    rewrite !append_nil_l.
  - now destruct (Z.to_nat (e - p)).
  - rewrite IH by lia. rewrite orb_false_r.
    replace (s <=? p) with true by (symmetry; apply Z.leb_le; lia).
    cbn [andb]. destruct (Z.ltb_spec p e).
    + replace (Z.to_nat (e - p)) with (S (Z.to_nat (e - (p + 1)))) by lia.
      reflexivity.
    + replace (Z.to_nat (e - p)) with 0%nat by lia.
      replace (Z.to_nat (e - (p + 1))) with 0%nat by lia.
      cbn. now destruct rest.
Qed.

Lemma rewrite_before (rest : string) :
  forall p, p <= s -> s - p <= Z.of_nat (String.length rest) ->
    ChangeSet.rewrite [ChangeSet.Replace s e t] buffer rest p
    = String.append (QStr.left (Z.to_nat (s - p)) rest)
        (String.append t (QStr.mid (Z.to_nat (e - p)) rest)).
Proof.
  induction rest as [|c rest IH]; intros p Hp Hlen;
    cbn [String.length] in Hlen;
    cbn [ChangeSet.rewrite ChangeSet.insertionsAt fold_right
         ChangeSet.insertedAt existsb ChangeSet.removedAt].
  - replace p with s by lia. rewrite Z.eqb_refl, append_empty_r.
    replace (Z.to_nat (s - s)) with 0%nat by lia.
    now destruct (Z.to_nat (e - s)).
  - rewrite orb_false_r. destruct (Z.eqb_spec s p) as [<-|Hne].
    + replace (Z.to_nat (s - s)) with 0%nat by lia.
      rewrite append_empty_r. cbn [QStr.left]. rewrite append_nil_l.
      f_equal.
      rewrite rewrite_behind by lia.
      rewrite Z.leb_refl. cbn [andb]. destruct (Z.ltb_spec s e).
      * replace (Z.to_nat (e - s)) with (S (Z.to_nat (e - (s + 1)))) by lia.
        reflexivity.
      * replace (Z.to_nat (e - s)) with 0%nat by lia.
        replace (Z.to_nat (e - (s + 1))) with 0%nat by lia.
        cbn. now destruct rest.
    + rewrite !append_nil_l.
      replace (s <=? p) with false by (symmetry; apply Z.leb_gt; lia).
      cbn [andb]. rewrite IH by lia.
      replace (Z.to_nat (s - p)) with (S (Z.to_nat (s - (p + 1)))) by lia.
      replace (Z.to_nat (e - p)) with (S (Z.to_nat (e - (p + 1)))) by lia.
      reflexivity.
Qed.

(** Applying a single replacement keeps what is in front of the range
    and what is behind it. *)
Lemma apply_replace :
  0 <= s -> s <= Z.of_nat (String.length buffer) ->
  ChangeSet.apply (ChangeSet.replace [] s e t) buffer
  = (ChangeSet.Applied,
     String.append (QStr.left (Z.to_nat s) buffer)
       (String.append t (QStr.mid (Z.to_nat e) buffer))).
Proof.
  intros H0 Hlen. unfold ChangeSet.apply, ChangeSet.replace.
  cbn [app ChangeSet.hasOverlap existsb orb]. f_equal.
  rewrite rewrite_before by lia.
  now rewrite !Z.sub_0_r.
Qed.
End Replace.


(** ** Complete Switch Statement *)

Lemma string_append_assoc (a b c : string) :
  String.append (String.append a b) c = String.append a (String.append b c).
Proof.
  induction a as [|x a IH]; [reflexivity|].
  now rewrite !append_cons, IH.
Qed.

Module CompleteSwitchFacts.
Import CompleteSwitchCaseStatement CompleteSwitchSpec.




Lemma switch_loop_innermost (interface : CppQuickFixInterface)
    (result : QuickFixOperations) (n : nat) :
  loop interface n result
  = match innermost asSwitchStatement (path interface) n with
    | Some (depth, switchStatement) =>
        offer interface depth switchStatement result
    | None => result
    end.
Proof.
  induction n as [|n IH]; cbn [loop innermost]; [reflexivity|].
  destruct (nth_error (path interface) n) as [node|]; [|assumption].
  now destruct (asSwitchStatement node).
Qed.
End CompleteSwitchFacts.

Import CompleteSwitchCaseStatement CompleteSwitchSpec CompleteSwitchFacts.


(** ** Change sets *)

Module ChangeSetFacts.
Import ChangeSet.

Lemma intersect_iff (r1 r2 : Z * Z) :
  intersect r1 r2 = true
  <-> exists p, fst r1 <= p < snd r1 /\ fst r2 <= p < snd r2.
Proof.
  unfold intersect. rewrite Z.ltb_lt. split.
  - intros H. exists (Z.max (fst r1) (fst r2)). lia.
  - intros (p & H1 & H2). lia.
Qed.

Lemma conflict_iff (e1 e2 : Edit) :
  conflict e1 e2 = true <-> conflicting e1 e2.
Proof.
  unfold conflict, conflicting.
  rewrite !andb_true_iff, !negb_true_iff, existsb_exists. split.
  - intros [[H1 H2] (r1 & Hr1 & Hex)].
    apply existsb_exists in Hex as (r2 & Hr2 & Hi).
    apply intersect_iff in Hi as (p & Hp1 & Hp2).
    split; [assumption|]. split; [assumption|]. exists r1, r2, p. auto.
  - intros (H1 & H2 & r1 & r2 & p & Hr1 & Hr2 & Hp1 & Hp2).
    split; [auto|]. exists r1. split; [assumption|].
    apply existsb_exists. exists r2. split; [assumption|].
    apply intersect_iff. eauto.
Qed.

Lemma conflicting_sym (e1 e2 : Edit) : conflicting e1 e2 -> conflicting e2 e1.
Proof.
  intros (H1 & H2 & r1 & r2 & p & Hr1 & Hr2 & Hp1 & Hp2).
  split; [assumption|]. split; [assumption|]. exists r2, r1, p. auto.
Qed.

Lemma hasOverlap_ordered (cs : ChangeSet) :
  forall i j e1 e2,
    (i < j)%nat -> nth_error cs i = Some e1 -> nth_error cs j = Some e2 ->
    conflicting e1 e2 -> hasOverlap cs = true.
Proof.
  induction cs as [|e cs IH]; intros i j e1 e2 Hij H1 H2 Hc.
  - destruct i; discriminate.
  - cbn [hasOverlap]. apply orb_true_iff.
    destruct j as [|j]; [lia|]. cbn in H2.
    destruct i as [|i]; cbn in H1.
    + injection H1 as ->. left. apply existsb_exists.
      exists e2. split; [eapply nth_error_In; eassumption|].
      now apply conflict_iff.
    + right. apply (IH i j e1 e2); auto. lia.
Qed.
End ChangeSetFacts.

(** C9.  When two primitives of a change set conflict, that is, their
    source ranges intersect and neither is a move or a copy, [apply] fails
    with the overlap error and leaves the buffer as it was; and in every
    case [apply] either fails so, with the buffer unchanged, or applies the
    whole change set in one pass. *)
Theorem changeset_apply_atomic (cs : ChangeSet.ChangeSet) (buffer : string) :
  (forall i j e1 e2,
     i <> j -> nth_error cs i = Some e1 -> nth_error cs j = Some e2 ->
     ChangeSet.conflicting e1 e2 ->
     ChangeSet.apply cs buffer = (ChangeSet.OverlapError, buffer))
  /\ (ChangeSet.apply cs buffer = (ChangeSet.OverlapError, buffer)
      \/ (ChangeSet.hasOverlap cs = false
          /\ ChangeSet.apply cs buffer
             = (ChangeSet.Applied, ChangeSet.rewrite cs buffer buffer 0))).
Proof.
  split.
  - intros i j e1 e2 Hij H1 H2 Hc. unfold ChangeSet.apply.
    assert (Hov : ChangeSet.hasOverlap cs = true).
    { destruct (Nat.lt_ge_cases i j).
      - exact (ChangeSetFacts.hasOverlap_ordered cs i j e1 e2 ltac:(lia)
                 H1 H2 Hc).
      - exact (ChangeSetFacts.hasOverlap_ordered cs j i e2 e1 ltac:(lia)
                 H2 H1 (ChangeSetFacts.conflicting_sym _ _ Hc)). }
    now rewrite Hov.
  - unfold ChangeSet.apply.
    destruct (ChangeSet.hasOverlap cs); [now left | now right].
Qed.

(** ** Every rule extends the result *)

Lemma extends_refl (result : QuickFixOperations) : extends result result.
Proof. exists []. now rewrite app_nil_r. Qed.

Lemma extends_one (result : QuickFixOperations) (op : Operation) :
  extends result (result ++ [op]).
Proof. now exists [op]. Qed.

Lemma extends_trans (a b c : QuickFixOperations) :
  extends a b -> extends b c -> extends a c.
Proof.
  intros (x & ->) (y & ->). exists (x ++ y). now rewrite app_assoc.
Qed.

Create HintDb rules.
#[local] Hint Resolve extends_refl extends_one : rules.

Ltac split_matches :=
  repeat match goal with
         | |- context [match ?x with _ => _ end] => destruct x
         end.

Module SplitDeclarationFacts.
Import SplitSimpleDeclaration SplitDeclarationSpec.

Lemma split_loop_extends (interface : CppQuickFixInterface)
    (result : QuickFixOperations) (n : nat) :
  forall core, extends result (loop interface n core result).
Proof.
  induction n as [|n IH]; intros core; cbn [loop]; [auto with rules|].
  destruct (nth_error (path interface) n) as [node|]; [|auto with rules].
  destruct (asCoreDeclarator node); [apply IH|].
  destruct node; try apply IH.
  split_matches; auto with rules.
Qed.

Lemma split_loop_rejected (interface : CppQuickFixInterface)
    (result : QuickFixOperations) (n index : nat) (decl : AST) :
  innermost asSimpleDeclaration (path interface) n = Some (index, decl) ->
  checkDeclarationForSplit decl = false ->
  forall core, loop interface n core result = result.
Proof.
  induction n as [|n IH]; cbn [innermost loop]; [discriminate|].
  intros Hin Hcheck core.
  destruct (nth_error (path interface) n) as [node|]; [|reflexivity].
  destruct node; cbn [asCoreDeclarator asSimpleDeclaration] in *;
    try (now apply IH).
  injection Hin as <- <-. now rewrite Hcheck.
Qed.

End SplitDeclarationFacts.

Lemma convert_extends (interface : CppQuickFixInterface)
    (result : QuickFixOperations) :
  extends result (ConvertNumericLiteral.doMatch interface result).
Proof.
  unfold ConvertNumericLiteral.doMatch.
  destruct (lastValue (path interface)) as [[]|]; auto with rules.
  destruct (negb _); auto with rules.
  destruct (_ || _); auto with rules.
  destruct (_ <? 1)%nat; auto with rules.
  destruct (ConvertNumericLiteral.toNumber _); auto with rules.
  cbv zeta.
  repeat match goal with
         | |- extends _ (if ?b then ?r ++ [?op] else ?r) =>
             apply (extends_trans _ r);
             [|destruct b; auto with rules]
         end.
  auto with rules.
Qed.

Lemma extract_function_extends (interface : CppQuickFixInterface)
    (result : QuickFixOperations) :
  extends result (ExtractFunction.doMatch interface result).
Proof.
  unfold ExtractFunction.doMatch.
  destruct (negb _); auto with rules.
  destruct (innermost _ _ _) as [[index refFuncDef]|]; auto with rules.
  destruct refFuncDef; auto with rules.
  destruct function_body as [[]|]; auto with rules.
  destruct statement_list; auto with rules.
  destruct symbol as [symbol|]; auto with rules.
  destruct (name symbol); auto with rules.
  destruct (enclosingScopeIsTemplate symbol); auto with rules.
  split_matches; auto with rules.
Qed.

Lemma extract_literal_extends (interface : CppQuickFixInterface)
    (result : QuickFixOperations) :
  extends result (ExtractLiteralAsParameter.doMatch interface result).
Proof.
  unfold ExtractLiteralAsParameter.doMatch.
  destruct (_ <? 2)%nat; auto with rules.
  destruct (lastValue _) as [literal|]; auto with rules.
  destruct (ExtractLiteralAsParameter.enclosingFunction _ _) as [function|].
  - destruct literal; auto with rules;
      (destruct function; auto with rules;
       split_matches; auto with rules).
  - destruct literal; auto with rules.
Qed.

Lemma complete_switch_extends (interface : CppQuickFixInterface)
    (result : QuickFixOperations) :
  extends result (CompleteSwitchCaseStatement.doMatch interface result).
Proof.
  unfold CompleteSwitchCaseStatement.doMatch.
  destruct (path interface); auto with rules.
  rewrite CompleteSwitchFacts.switch_loop_innermost.
  destruct (innermost _ _ _) as [[depth sw]|]; auto with rules.
  unfold CompleteSwitchCaseStatement.offer.
  destruct sw; auto with rules.
  destruct statement as [[]|]; auto with rules.
  destruct symbol; auto with rules.
  destruct (conditionEnum _ _); auto with rules.
  destruct (fold_left _ _ _); auto with rules.
Qed.

(** Structural mismatches in the rules modelled here; C8 asks the same of
    every rule of the file, which this does not reach.  When the innermost
    simple declaration of the path lacks its semicolon token or has fewer
    than two declarators, SplitSimpleDeclaration::doMatch returns the
    result unchanged; when the enclosing function of a literal has an
    ellipsis parameter, so does ExtractLiteralAsParameter::doMatch; and
    each of the eight rules of [cppQuickFixFactories] returns, on every
    input, the result it was given with operations appended at most. *)
Theorem structural_mismatch_returns_unchanged
    (interface : CppQuickFixInterface) (result : QuickFixOperations) :
  (forall index rg specifiers declarators semicolon_token,
     innermost SplitDeclarationSpec.asSimpleDeclaration (path interface)
       (length (path interface))
     = Some (index,
             SimpleDeclarationAST rg specifiers declarators semicolon_token) ->
     semicolon_token = 0%nat \/ (length declarators < 2)%nat ->
     SplitSimpleDeclaration.doMatch interface result = result)
  /\ (forall rg rg1 core rg2 rg3 parameters dot_dot_dot_token rparen_token
             more equal_token initializer body symbol,
        ExtractLiteralAsParameter.enclosingFunction (path interface)
          (length (path interface) - 1)
        = Some (FunctionDefinitionAST rg
                  (DeclaratorAST rg1 core
                     (FunctionDeclaratorAST rg2
                        (Some (ParameterDeclarationClauseAST rg3 parameters
                                 dot_dot_dot_token))
                        rparen_token :: more)
                     equal_token initializer)
                  body symbol) ->
        dot_dot_dot_token <> 0%nat ->
        ExtractLiteralAsParameter.doMatch interface result = result)
  /\ (forall rule, In rule cppQuickFixFactories ->
                   extends result (rule interface result)).
Proof.
  split; [|split].
  - intros index rg specifiers declarators semicolon_token Hin Hbad.
    unfold SplitSimpleDeclaration.doMatch.
    apply (SplitDeclarationFacts.split_loop_rejected _ _ _ _ _ Hin).
    cbn [checkDeclarationForSplit]. destruct Hbad as [->|Hlen].
    + reflexivity.
    + destruct (Nat.eqb semicolon_token 0); [reflexivity|].
      destruct specifiers; [reflexivity|].
      destruct (existsb _ _); [reflexivity|].
      destruct declarators as [|d1 [|d2 ds]]; try reflexivity.
      cbn in Hlen. lia.
  - intros rg rg1 core rg2 rg3 parameters dot_dot_dot_token rparen_token more
      equal_token initializer body symbol Hf Hddd.
    unfold ExtractLiteralAsParameter.doMatch. rewrite Hf.
    destruct (_ <? 2)%nat; [reflexivity|].
    destruct dot_dot_dot_token; [contradiction|].
    destruct (lastValue _) as [[]|]; reflexivity.
  - intros rule Hrule. cbn in Hrule.
    repeat (destruct Hrule as [<-|Hrule]); [..|contradiction].
    + apply SplitDeclarationFacts.split_loop_extends.
    + destruct (proj2 (add_braces_spec interface result))
        as [->|(st & sts & e & tok & _ & -> & _)]; auto with rules.
    + destruct (proj1 (split_if_spec interface result)) as [->|H];
        [auto with rules|].
      destruct H as (? & ? & ? & ? & ? & ? & ? & ? & ? & ? & ? & ? & H).
      cbv zeta in H. destruct H as (_ & _ & _ & _ & _ & _ & ->).
      auto with rules.
    + apply convert_extends.
    + apply complete_switch_extends.
    + apply extract_function_extends.
    + apply extract_literal_extends.
    + unfold ApplyDeclDefLinkChanges.doMatch.
      destruct (declDefLink interface) as [link|]; auto with rules.
      destruct (isMarkerVisible link); auto with rules.
Qed.

(** ** Priorities *)



(** ** Extract Function *)

Module ExtractFunctionFacts.
Import ExtractFunction ExtractFunctionSpec.

Section Identify.
Variable interface : CppQuickFixInterface.
Variables extractionStart extractionEnd : Z.
Variable knownDecls : gmap string string.
Variable refFuncParams : gset string.

(** Once a return value is chosen, a second candidate ends the loop. *)
Lemma identify_second (localUses : list (LocalSymbol * list Use)) :
  forall chosen relevantDecls,
    Exists (returnCandidate interface extractionStart extractionEnd)
      localUses ->
    identify interface extractionStart extractionEnd knownDecls refFuncParams
      localUses (Some chosen) relevantDecls
    = None.
Proof.
  induction localUses as [|[key uses] rest IH];
    intros chosen relevantDecls Hex; [inversion Hex|].
  cbn [identify].
  destruct (classify interface extractionStart extractionEnd uses)
    as [[before after] inside] eqn:Ec.
  destruct (_ && negb (contains knownDecls (prettyName key)));
    [reflexivity|].
  apply Exists_cons in Hex as [Hc|Hex].
  - unfold returnCandidate in Hc. cbn [snd] in Hc. rewrite Ec in Hc.
    injection Hc as -> -> ->. reflexivity.
  - destruct (inside && after && negb before); [reflexivity|].
    now apply IH.
Qed.

(** Two candidates end the loop. *)
Lemma identify_two (pre : list (LocalSymbol * list Use)) :
  forall x rest relevantDecls,
    returnCandidate interface extractionStart extractionEnd x ->
    Exists (returnCandidate interface extractionStart extractionEnd) rest ->
    identify interface extractionStart extractionEnd knownDecls refFuncParams
      (pre ++ x :: rest) None relevantDecls
    = None.
Proof.
  induction pre as [|[key uses] pre IH]; intros x rest relevantDecls Hx Hy.
  - destruct x as [key uses]. cbn [app identify].
    unfold returnCandidate in Hx. cbn [snd] in Hx. rewrite Hx.
    destruct (_ && negb (contains knownDecls (prettyName key)));
      [reflexivity|].
    cbn [andb negb].
    destruct (negb (contains knownDecls (prettyName key)));
      [reflexivity|].
    now apply identify_second.
  - cbn [app identify].
    destruct (classify interface extractionStart extractionEnd uses)
      as [[before after] inside].
    destruct (_ && negb (contains knownDecls (prettyName key)));
      [reflexivity|].
    destruct (inside && after && negb before).
    + destruct (negb (contains knownDecls (prettyName key)));
        [reflexivity|].
      apply identify_second. apply Exists_app. right.
      now apply Exists_cons_hd.
    + now apply IH.
Qed.
End Identify.

(** A return statement met while the extraction is under way makes the
    analysis fail. *)
Lemma accept_return (interface : CppQuickFixInterface) (selStart selEnd : Z)
    (rg : Range) (expression : option AST) (a : Analyser) :
  m_done a = false -> m_extractionStart a <> 0 ->
  m_failed (accept interface selStart selEnd
              (ReturnStatementAST rg expression) a) = true.
Proof.
  intros Hd Hs. cbn [accept]. rewrite Hd. unfold nonzero.
  now replace (m_extractionStart a =? 0) with false
    by (symmetry; apply Z.eqb_neq; assumption).
Qed.

(** With two candidates for the return value, nothing is offered. *)
Lemma several_return_values_decline (interface : CppQuickFixInterface)
    (result : QuickFixOperations) (index : nat) (refFuncDef : AST)
    (pre rest : list (LocalSymbol * list Use)) (x : LocalSymbol * list Use) :
  innermost asFunctionDefinition (path interface) (length (path interface))
  = Some (index, refFuncDef) ->
  let a := analysed interface refFuncDef in
  localUses interface = pre ++ x :: rest ->
  returnCandidate interface (m_extractionStart a) (m_extractionEnd a) x ->
  Exists (returnCandidate interface (m_extractionStart a) (m_extractionEnd a))
    rest ->
  ExtractFunction.doMatch interface result = result.
Proof.
  intros Hin a Huses Hx Hy. unfold ExtractFunction.doMatch.
  destruct (negb (hasSelection interface)); [reflexivity|].
  rewrite Hin.
  destruct refFuncDef; try reflexivity.
  destruct function_body as [[]|]; try reflexivity.
  destruct statement_list; try reflexivity.
  destruct symbol as [symbol|]; try reflexivity.
  destruct (name symbol); try reflexivity.
  destruct (enclosingScopeIsTemplate symbol); try reflexivity.
  subst a. unfold analysed, selection in Hx, Hy.
  destruct (selectionStart interface >? selectionEnd interface);
    cbn [fst snd] in Hx, Hy;
    match goal with
    | |- context [analyse ?i ?s ?e ?f] =>
        destruct (m_failed (analyse i s e f)); [reflexivity|]
    end;
    destruct (collectParameters _ _ _) as [knownDecls refFuncParams];
    rewrite Huses, (identify_two _ _ _ _ _ pre x rest [] Hx Hy);
    reflexivity.
Qed.
End ExtractFunctionFacts.

Import SplitIfSpec AddBracesSpec AddBracesToControlStatement.

(** * The claims *)

Import Examples.

(** C1. SplitIfStatement::doMatch adds at most one operation, and only when
    the nodes of the path below the innermost if statement, down to the
    expression that has the caret on its operator token, are binary
    expressions of a single operator kind, [&&] or [||]; when the kind is
    [&&] the if statement has no else branch.  For [if (a && b)] with the
    caret on [&&], exactly one operation is added when there is no else
    branch and none when there is one. *)
Theorem split_if_offers (interface : CppQuickFixInterface)
    (result : QuickFixOperations) :
  (SplitIfStatement.doMatch interface result = result
   \/ exists index rg if_token rparen_token cond body else_token else_statement
             pre condition post k,
        let pattern :=
          IfStatementAST rg if_token rparen_token cond (Some body) else_token
            else_statement in
        innermost SplitIfStatement.selectIf (path interface)
          (length (path interface))
        = Some (index, pattern)
        /\ skipn (S index) (path interface) = pre ++ condition :: post
        /\ Forall (binaryOf interface k) (pre ++ [condition])
        /\ (k = T_AMPER_AMPER \/ k = T_PIPE_PIPE)
        /\ (k = T_AMPER_AMPER -> else_statement = None)
        /\ cursorOnOperator interface condition
        /\ SplitIfStatement.doMatch interface result
           = result ++ [SplitIfStatementOp (Z.of_nat (S index + length pre))
                          pattern condition])
  /\ (forall prefix rg if_token rparen_token cond body else_token
             else_statement rg' l tok r,
        let pattern :=
          IfStatementAST rg if_token rparen_token cond (Some body) else_token
            else_statement in
        let condition := BinaryExpressionAST rg' l tok r in
        path interface = prefix ++ [pattern; condition] ->
        kind (tokenAt interface tok) = T_AMPER_AMPER ->
        isCursorOnToken interface tok = true ->
        SplitIfStatement.doMatch interface result
        = match else_statement with
          | None =>
              result ++ [SplitIfStatementOp (Z.of_nat (S (length prefix)))
                           pattern condition]
          | Some _ => result
          end).
Proof. exact (split_if_spec interface result). Qed.

Lemma split_if_offers_witness :
  SplitIfStatement.doMatch (onAnd None) []
  = [SplitIfStatementOp 1 (ifAnd None) andCondition]
  /\ SplitIfStatement.doMatch (onAnd (Some bodyX)) [] = [].
Proof.
  split.
  - exact (proj2 (split_if_offers (onAnd None) []) [] (rng 0 14) 1%nat 6%nat
             (Some andCondition) bodyX 9%nat None (rng 4 10)
             (Some (IdExpressionAST (rng 4 5) "a")) 4%nat
             (Some (IdExpressionAST (rng 9 10) "b")) eq_refl eq_refl eq_refl).
  - exact (proj2 (split_if_offers (onAnd (Some bodyX)) []) [] (rng 0 14)
             1%nat 6%nat (Some andCondition) bodyX 9%nat (Some bodyX)
             (rng 4 10) (Some (IdExpressionAST (rng 4 5) "a")) 4%nat
             (Some (IdExpressionAST (rng 9 10) "b")) eq_refl eq_refl eq_refl).
Defined.



(** C3.  The input on which the rule offers an extraction whose range
    holds a return statement: in [void f() { if (c) { a(); return; } }]
    with the selection [if (c) { a();] the operation extracts the offsets
    11 to 34, and the return statement, at 25 to 32, lies inside them. *)
Theorem extract_function_keeps_return :
  ExtractFunction.doMatch onPartialIf []
  = [ExtractFunctionOperation defaultPriority 11 34 functionF None []]
  /\ 11 <= startOf returnStatement /\ endOf returnStatement <= 34.
Proof.
  split; [vm_compute; reflexivity | cbn; lia].
Qed.

(** C4, as stated, fails on the integer literal [18446744073709551616]:
    it is neither float nor double, and no conversion is offered, because
    its value does not fit an unsigned long. *)
Lemma convert_numeric_literal_counterexample :
  cursorOnLiteral (onLiteral "18446744073709551616")
    (literalNode "18446744073709551616")
    (integerLiteral "18446744073709551616")
  /\ isDouble (integerLiteral "18446744073709551616") = false
  /\ isFloat (integerLiteral "18446744073709551616") = false
  /\ ConvertNumericLiteral.doMatch (onLiteral "18446744073709551616") [] = [].
Proof.
  split; [|repeat split; reflexivity].
  exists (rng 8 28), 4%nat. repeat split; reflexivity.
Qed.

(** C4 (amended).  With a numeric literal under the caret,
    ConvertNumericLiteral::doMatch adds nothing for a float or double
    literal, and nothing when the digits of the literal (its spelling
    without the trailing characters that are no hexadecimal digits) do not
    parse as an unsigned long.  When they parse to a value, it adds one
    conversion for each of hexadecimal, octal, decimal and binary except the
    radix the literal is written in, in this order.  Zero is written [0b0]
    in binary; any other value is written as its bit string without the
    leading zeros. *)
Theorem convert_numeric_literal_offers (interface : CppQuickFixInterface)
    (result : QuickFixOperations) (literal : AST) (numeric : NumericLiteral) :
  cursorOnLiteral interface literal numeric ->
  (isDouble numeric || isFloat numeric = true ->
   ConvertNumericLiteral.doMatch interface result = result)
  /\ (ConvertNumericLiteral.toNumber (digitsOf numeric) = None ->
      ConvertNumericLiteral.doMatch interface result = result)
  /\ (forall value,
        isDouble numeric = false -> isFloat numeric = false ->
        isHex numeric = QStr.startsWithCI "0x" (chars numeric) ->
        ConvertNumericLiteral.toNumber (digitsOf numeric) = Some value ->
        ConvertNumericLiteral.doMatch interface result
        = result ++ conversions (Z.of_nat (length (path interface)) - 1)
                      (startOf literal)
                      (startOf literal + Z.of_nat (numberLength numeric))
                      value (radixOf (chars numeric)))
  /\ render Binary 0 = "0b0"%string
  /\ (forall value,
        value <> 0 ->
        exists k,
          ULong.bitset_to_string value
          = String.append (zeros k) (binaryDigits value)
          /\ QStr.startsWithCI "0" (binaryDigits value) = false).
Proof.
  intros Hcursor. split; [|split; [|split; [|split]]].
  - now apply doMatch_floating with (literal := literal).
  - now apply doMatch_unparsed with (literal := literal).
  - intros value Hd Hf Hhex Hv. now apply doMatch_conversions.
  - reflexivity.
  - intros value Hnz. unfold binaryDigits.
    replace (value =? 0) with false by (symmetry; now apply Z.eqb_neq).
    apply removeLeadingZeros_spec.
Qed.

Lemma convert_numeric_literal_offers_witness :
  cursorOnLiteral (onLiteral "32UL") (literalNode "32UL")
    (integerLiteral "32UL")
  /\ ConvertNumericLiteral.doMatch (onLiteral "32UL") []
     = [ConvertNumericLiteralOp 0 "Convert to Hexadecimal" 8 10 "0x20";
        ConvertNumericLiteralOp 0 "Convert to Octal" 8 10 "040";
        ConvertNumericLiteralOp 0 "Convert to Binary" 8 10 "0b100000"].
Proof.
  assert (Hcursor : cursorOnLiteral (onLiteral "32UL") (literalNode "32UL")
                      (integerLiteral "32UL")).
  { exists (rng 8 12), 4%nat. repeat split; reflexivity. }
  split; [exact Hcursor|].
  destruct (convert_numeric_literal_offers (onLiteral "32UL") [] _ _ Hcursor)
    as (_ & _ & H & _).
  exact (H 32 eq_refl eq_refl eq_refl eq_refl).
Defined.

(** ** The value of a literal and what the rule reads from it *)

Module LiteralFacts.
Import LiteralSpec.







Section Values.
Variable v : Z.
Hypothesis v_range : 0 <= v <= ULong.max.




End Values.
End LiteralFacts.



(** C6.  On an if statement whose body is a compound statement and whose
    else chain needs no braces, AddBracesToControlStatement::doMatch adds
    nothing.  In general it adds nothing, or one operation that names at
    least one control statement or a trailing else; every statement it
    names has a body that is no compound statement, and the trailing else
    it names is neither an if statement nor a compound statement. *)
Theorem add_braces_idempotent (interface : CppQuickFixInterface)
    (result : QuickFixOperations) :
  (forall rg if_token rparen_token cond body else_token else_statement,
     let statement :=
       IfStatementAST rg if_token rparen_token cond (Some body) else_token
         else_statement in
     lastValue (path interface) = Some statement ->
     asCompoundStatement body = true ->
     elseChainBraced statement = true ->
     AddBracesToControlStatement.doMatch interface result = result)
  /\ (AddBracesToControlStatement.doMatch interface result = result
      \/ exists statement statements elseStmt elseToken,
           lastValue (path interface) = Some statement
           /\ AddBracesToControlStatement.doMatch interface result
              = result ++ [AddBracesToControlStatementOp 0 statements elseStmt
                             elseToken]
           /\ (statements <> [] \/ elseStmt <> None)
           /\ Forall (fun s => lacksBraces s = true) statements
           /\ (forall e, elseStmt = Some e ->
                         asIfStatement e = false
                         /\ asCompoundStatement e = false)).
Proof. exact (add_braces_spec interface result). Qed.

Lemma add_braces_idempotent_witness :
  (lastValue (path onBracedIf) = Some bracedIf
   /\ elseChainBraced bracedIf = true)
  /\ AddBracesToControlStatement.doMatch onBracedIf [] = [].
Proof.
  split; [split; reflexivity|].
  exact (proj1 (add_braces_idempotent onBracedIf []) (rng 0 14) 1%nat 4%nat
           (Some (IdExpressionAST (rng 4 5) "a"))
           (CompoundStatementAST (rng 7 14) 5 [bodyX]) 0%nat None
           eq_refl eq_refl eq_refl).
Defined.



Lemma structural_mismatch_witness :
  (innermost SplitDeclarationSpec.asSimpleDeclaration
     (path onUnfinishedDeclaration) (length (path onUnfinishedDeclaration))
   = Some (0%nat, unfinishedDeclaration))
  /\ SplitSimpleDeclaration.doMatch onUnfinishedDeclaration [] = [].
Proof.
  split; [reflexivity|].
  refine (proj1 (structural_mismatch_returns_unchanged
                   onUnfinishedDeclaration [])
            0%nat (rng 0 8) _ _ 0%nat eq_refl (or_introl eq_refl)).
Defined.

Lemma changeset_apply_atomic_witness :
  ChangeSet.conflicting (ChangeSet.Replace 2 6 "ab") (ChangeSet.Remove 4 8)
  /\ ChangeSet.apply [ChangeSet.Replace 2 6 "ab"; ChangeSet.Remove 4 8]
       "0123456789"
     = (ChangeSet.OverlapError, "0123456789"%string).
Proof.
  assert (Hc : ChangeSet.conflicting (ChangeSet.Replace 2 6 "ab")
                 (ChangeSet.Remove 4 8)).
  { split; [reflexivity|]. split; [reflexivity|].
    exists (2, 6), (4, 8), 4. cbn. repeat split; auto; lia. }
  split; [exact Hc|].
  exact (proj1 (changeset_apply_atomic
                  [ChangeSet.Replace 2 6 "ab"; ChangeSet.Remove 4 8]
                  "0123456789")
           0%nat 1%nat _ _ ltac:(lia) eq_refl eq_refl Hc).
Defined.

(** ** The range a conversion replaces *)

Lemma length_append (s t : string) :
  String.length (String.append s t) = (String.length s + String.length t)%nat.
Proof.
  induction s as [|c s IH]; [reflexivity|].
  rewrite append_cons. cbn [String.length]. now rewrite IH.
Qed.

Lemma left_app_exact (before rest : string) :
  QStr.left (String.length before) (String.append before rest) = before.
Proof.
  induction before as [|c before IH]; [apply left_0|].
  rewrite append_cons. cbn [String.length QStr.left]. now rewrite IH.
Qed.

Lemma mid_app_exact (before rest : string) (n : nat) :
  QStr.mid (String.length before + n) (String.append before rest)
  = QStr.mid n rest.
Proof.
  induction before as [|c before IH]; [now rewrite append_nil_l|].
  rewrite append_cons. cbn [String.length Nat.add QStr.mid]. exact IH.
Qed.

Lemma mid_app_within (s rest : string) (n : nat) :
  (n <= String.length s)%nat ->
  QStr.mid n (String.append s rest) = String.append (QStr.mid n s) rest.
Proof.
  revert s. induction n as [|n IH]; intros s Hn.
  - now destruct s.
  - destruct s as [|c s]; [cbn in Hn; lia|].
    rewrite append_cons. cbn [QStr.mid]. apply IH. cbn in Hn. lia.
Qed.

(** Every operation [doMatch] adds is for the numeric literal that ends
    the path, and replaces its digits. *)
Lemma doMatch_added_literal (interface : CppQuickFixInterface)
    (result : QuickFixOperations) (op : Operation) :
  In op (ConvertNumericLiteral.doMatch interface result) ->
  In op result
  \/ exists rg tok descr replacement,
       lastValue (path interface) = Some (NumericLiteralAST rg tok)
       /\ kind (tokenAt interface tok) = T_NUMERIC_LITERAL
       /\ (1 <= numberLength (number (tokenAt interface tok)))%nat
       /\ op = ConvertNumericLiteralOp
                 (Z.of_nat (length (path interface)) - 1) descr
                 (range_start rg)
                 (range_start rg
                  + Z.of_nat (numberLength (number (tokenAt interface tok))))
                 replacement.
Proof.
  unfold ConvertNumericLiteral.doMatch.
  destruct (lastValue (path interface)) as [[]|] eqn:Hlast; auto.
  set (numeric := number (tokenAt interface literal_token)).
  destruct (kind_eqb (kind (tokenAt interface literal_token))
              T_NUMERIC_LITERAL) eqn:Hkind; cbn [negb]; auto.
  apply kind_eqb_eq in Hkind.
  destruct (isDouble numeric || isFloat numeric); auto.
  fold (numberLength numeric).
  destruct (numberLength numeric <? 1)%nat eqn:Hlen; auto.
  apply Nat.ltb_ge in Hlen.
  destruct (ConvertNumericLiteral.toNumber _) as [value|]; auto.
  cbv zeta. intros Hin.
  repeat match type of Hin with
         | In _ (if ?b then _ else _) => destruct b
         | In _ (_ ++ [_]) =>
             apply in_app_or in Hin as [Hin|[<-|[]]];
             [|right; do 4 eexists; split; [reflexivity|];
               split; [exact Hkind|]; split; [exact Hlen | reflexivity]]
         end; auto.
Qed.

(** C10.  Every operation ConvertNumericLiteral::doMatch adds is for the
    numeric literal that ends the path: it replaces the range from the
    start of that literal to the end of the digits of its token, by one
    replacement of the change set.  The range holds a digit at least and
    ends with a hexadecimal digit; the characters of the spelling behind
    it are no hexadecimal digits.  In a buffer that holds the spelling of
    the literal at its start, performing the operation puts the
    replacement where the digits were and keeps what is in front of the
    literal, the suffix of the literal and what is behind it. *)
Theorem convert_replaces_digits_only (interface : CppQuickFixInterface)
    (op : Operation) :
  In op (ConvertNumericLiteral.doMatch interface []) ->
  exists rg literal_token priority descr replacement,
    let literal := NumericLiteralAST rg literal_token in
    let token := tokenAt interface literal_token in
    let numeric := number token in
    let start := startOf literal in
    let end_ := start + Z.of_nat (numberLength numeric) in
    lastValue (path interface) = Some literal
    /\ kind token = T_NUMERIC_LITERAL
    /\ op = ConvertNumericLiteralOp priority descr start end_ replacement
    /\ ConvertNumericLiteral.changes op
       = [ChangeSet.Replace start end_ replacement]
    /\ (1 <= numberLength numeric <= NumericLiteral_size numeric)%nat
    /\ ULong.isxdigit (QStr.at_ (chars numeric) (numberLength numeric - 1))
       = true
    /\ (forall i, (numberLength numeric <= i < NumericLiteral_size numeric)%nat ->
                  ULong.isxdigit (QStr.at_ (chars numeric) i) = false)
    /\ forall before behind,
         start = Z.of_nat (String.length before) ->
         ConvertNumericLiteral.perform op
           (String.append before (String.append (chars numeric) behind))
         = (ChangeSet.Applied,
            String.append before
              (String.append replacement
                 (String.append
                    (QStr.mid (numberLength numeric) (chars numeric))
                    behind))).
Proof.
  intros Hin.
  destruct (doMatch_added_literal _ _ _ Hin)
    as [[]|(rg & tok & descr & replacement & Hlast & Hkind & Hlen & ->)].
  exists rg, tok, (Z.of_nat (length (path interface)) - 1), descr, replacement.
  cbv zeta.
  set (numeric := number (tokenAt interface tok)) in *.
  change (startOf (NumericLiteralAST rg tok)) with (range_start rg).
  split; [assumption|]. split; [assumption|]. split; [reflexivity|].
  split; [reflexivity|].
  split; [split; [assumption | apply stripSuffix_le]|].
  split; [apply stripSuffix_last; unfold numberLength in Hlen; lia|].
  split; [apply stripSuffix_suffix|].
  intros before behind Hstart.
  unfold ConvertNumericLiteral.perform, ConvertNumericLiteral.changes.
  assert (Hle : (numberLength numeric <= String.length (chars numeric))%nat)
    by apply stripSuffix_le.
  rewrite apply_replace.
  - rewrite Hstart, Nat2Z.id, left_app_exact.
    replace (Z.to_nat (Z.of_nat (String.length before)
                       + Z.of_nat (numberLength numeric)))
      with (String.length before + numberLength numeric)%nat by lia.
    rewrite mid_app_exact, mid_app_within by assumption.
    reflexivity.
  - lia.
  - lia.
  - rewrite Hstart, !length_append. lia.
Qed.

Lemma convert_replaces_digits_only_witness :
  In (ConvertNumericLiteralOp 0 "Convert to Hexadecimal" 8 10 "0x20")
    (ConvertNumericLiteral.doMatch (onLiteral "32UL") [])
  /\ ConvertNumericLiteral.perform
       (ConvertNumericLiteralOp 0 "Convert to Hexadecimal" 8 10 "0x20")
       "int x = 32UL;"
     = (ChangeSet.Applied, "int x = 0x20UL;"%string).
Proof.
  assert (Hin : In (ConvertNumericLiteralOp 0 "Convert to Hexadecimal" 8 10
                      "0x20")
                  (ConvertNumericLiteral.doMatch (onLiteral "32UL") []))
    by (left; reflexivity).
  split; [exact Hin|].
  destruct (convert_replaces_digits_only (onLiteral "32UL") _ Hin)
    as (rg & tok & p & d & r & H).
  cbv zeta in H. destruct H as (Hlast & _ & Hop & _ & _ & _ & _ & H).
  injection Hlast as <- <-. inversion Hop; subst.
  exact (H "int x = "%string ";"%string eq_refl).
Defined.

(** * Further properties of the code *)

(** ** Every conversion keeps the value *)

Lemma digitValue_nonneg (c : ascii) (d : Z) :
  ULong.digitValue c = Some d -> 0 <= d.
Proof.
  unfold ULong.digitValue.
  repeat match goal with
         | |- context [if ?b then _ else _] => destruct b eqn:?
         end; intros [= <-]; lia.
Qed.

Lemma parseDigits_range (base : Z) (s : string) :
  forall acc v,
    0 <= base -> 0 <= acc <= ULong.max ->
    ULong.parseDigits base s acc = Some v -> 0 <= v <= ULong.max.
Proof.
  induction s as [|c s IH]; intros acc v Hb Hacc; cbn [ULong.parseDigits].
  - intros [= <-]. assumption.
  - destruct (ULong.digitValue c) as [d|] eqn:Ed; [|discriminate].
    destruct (d <? base); [|discriminate].
    destruct (Z.leb_spec (acc * base + d) ULong.max); [|discriminate].
    apply IH; [assumption|]. apply digitValue_nonneg in Ed. nia.
Qed.

Lemma max_nonneg : 0 <= ULong.max.
Proof. vm_compute. discriminate. Qed.

Lemma parseNonEmpty_range (base : Z) (s : string) (v : Z) :
  0 <= base -> ULong.parseNonEmpty base s = Some v -> 0 <= v <= ULong.max.
Proof.
  intros Hb. unfold ULong.parseNonEmpty. destruct s; [discriminate|].
  apply parseDigits_range; [assumption|]. pose proof max_nonneg. lia.
Qed.

Lemma toNumber_range (x : string) (v : Z) :
  ConvertNumericLiteral.toNumber x = Some v -> 0 <= v <= ULong.max.
Proof.
  unfold ConvertNumericLiteral.toNumber, ULong.toULong.
  repeat match goal with
         | |- context [if ?b then _ else _] => destruct b
         end; apply parseNonEmpty_range; lia.
Qed.

Section PrintedMore.
Variable v : Z.
Hypothesis v_range : 0 <= v <= ULong.max.

Lemma octal_first :
  exists d rest, ULong.fmt_lo v = String (ULong.digitChar d) rest
                 /\ 0 <= d < 8.
Proof.
  destruct (utoa_shape 8 ltac:(lia) 63 v EmptyString)
    as (d & rest & E & Hd & _).
  { pose proof (max_lt_pow 8 ltac:(lia)).
    change (Z.of_nat 64) with 64. lia. }
  exists d, rest. split; [exact E | lia].
Qed.

Lemma octal_toNumber :
  ConvertNumericLiteral.toNumber (render Octal v) = Some v.
Proof.
  destruct octal_first as (d & rest & E & Hd).
  pose proof (printed_parse v v_range 8 ltac:(lia)) as Hparse.
  fold (ULong.fmt_lo v) in Hparse.
  unfold ConvertNumericLiteral.toNumber, ULong.toULong.
  cbn [render]. rewrite append_cons, append_nil_l. rewrite E in *.
  cbn [QStr.startsWithCI].
  rewrite lower_zero_code, lower_b_code, lower_x_code, code_digitChar by lia.
  replace (d <? 10) with true by (symmetry; apply Z.ltb_lt; lia).
  replace (48 + d =? 98) with false by (symmetry; apply Z.eqb_neq; lia).
  replace (48 + d =? 66) with false by (symmetry; apply Z.eqb_neq; lia).
  replace (48 + d =? 120) with false by (symmetry; apply Z.eqb_neq; lia).
  replace (48 + d =? 88) with false by (symmetry; apply Z.eqb_neq; lia).
  cbn -[ULong.parseDigits ULong.max].
  unfold ULong.parseNonEmpty in *.
  cbn [ULong.parseDigits]. change (ULong.digitValue "0") with (Some 0).
  cbn -[ULong.parseDigits ULong.max ULong.digitChar].
  replace (0 <=? ULong.max) with true by reflexivity.
  exact Hparse.
Qed.

Lemma octal_radix : radixOf (render Octal v) = Octal.
Proof.
  destruct octal_first as (d & rest & E & Hd).
  cbn [render]. rewrite append_cons, append_nil_l, E.
  cbn [radixOf]. rewrite eqb_x_code, eqb_b_code, code_digitChar by lia.
  replace (d <? 10) with true by (symmetry; apply Z.ltb_lt; lia).
  replace (48 + d =? 98) with false by (symmetry; apply Z.eqb_neq; lia).
  replace (48 + d =? 66) with false by (symmetry; apply Z.eqb_neq; lia).
  replace (48 + d =? 120) with false by (symmetry; apply Z.eqb_neq; lia).
  replace (48 + d =? 88) with false by (symmetry; apply Z.eqb_neq; lia).
  replace (48 <=? 48 + d) with true by (symmetry; apply Z.leb_le; lia).
  replace (48 + d <=? 55) with true by (symmetry; apply Z.leb_le; lia).
  reflexivity.
Qed.

Lemma octal_digitsOf :
  digitsOf (integerLiteral (render Octal v)) = render Octal v.
Proof.
  unfold digitsOf, numberLength, NumericLiteral_size.
  cbn [chars integerLiteral].
  rewrite stripSuffix_all.
  - apply left_length.
  - discriminate.
  - change (render Octal v) with (String "0" (ULong.fmt_lo v)).
    cbn [String.length]. intros c Hc.
    destruct (String.length (ULong.fmt_lo v)) as [|k] eqn:El.
    { exfalso. destruct (ULong.fmt_lo v) eqn:E; [|discriminate].
      revert E. apply (utoa_nonempty 8 63). }
    replace (S (S k) - 1)%nat with (S k) in Hc by lia.
    cbn [String.get] in Hc.
    apply (printed_last_xdigit v 8 EmptyString ltac:(lia) eq_refl
             (ULong.fmt_lo v) eq_refl k c Hc).
Qed.
End PrintedMore.

(** The bit string of a value reads back as the value. *)
Lemma parseDigits_bits (n : nat) (v : Z) :
  forall acc,
    0 <= acc -> acc * 2 ^ Z.of_nat n + v mod 2 ^ Z.of_nat n <= ULong.max ->
    ULong.parseDigits 2 (ULong.bits n v) acc
    = Some (acc * 2 ^ Z.of_nat n + v mod 2 ^ Z.of_nat n).
Proof.
  induction n as [|n IH]; intros acc Hacc Hmax.
  - cbn. rewrite Z.mod_1_r. f_equal. lia.
  - cbn [ULong.bits ULong.parseDigits].
    rewrite Nat2Z.inj_succ, Z.pow_succ_r in * by lia.
    assert (Hp : 0 < 2 ^ Z.of_nat n) by (apply Z.pow_pos_nonneg; lia).
    pose proof (Z.mod_pos_bound v (2 ^ Z.of_nat n) Hp) as Hlow.
    assert (Hsplit : v mod (2 * 2 ^ Z.of_nat n)
                     = v mod 2 ^ Z.of_nat n
                       + 2 ^ Z.of_nat n * ((v / 2 ^ Z.of_nat n) mod 2)).
    { rewrite (Z.mul_comm 2). apply Z.rem_mul_r; lia. }
    pose proof (Z.mod_pos_bound (v / 2 ^ Z.of_nat n) 2 ltac:(lia)) as Hbit.
    destruct (Z.testbit v (Z.of_nat n)) eqn:Et.
    + apply Z.testbit_true in Et; [|lia].
      change (ULong.digitValue "1") with (Some 1).
      cbn [Z.ltb Z.compare Pos.compare Pos.compare_cont].
      replace (acc * 2 + 1 <=? ULong.max) with true
        by (symmetry; apply Z.leb_le; nia).
      rewrite IH by nia. f_equal. nia.
    + apply Z.testbit_false in Et; [|lia].
      change (ULong.digitValue "0") with (Some 0).
      cbn [Z.ltb Z.compare].
      replace (acc * 2 + 0 <=? ULong.max) with true
        by (symmetry; apply Z.leb_le; nia).
      rewrite IH by nia. f_equal. nia.
Qed.

Lemma parseDigits_zeros (k : nat) (s : string) :
  ULong.parseDigits 2 (String.append (zeros k) s) 0
  = ULong.parseDigits 2 s 0.
Proof.
  induction k as [|k IH]; [reflexivity|].
  cbn [zeros]. rewrite append_cons. cbn [ULong.parseDigits].
  change (ULong.digitValue "0") with (Some 0). exact IH.
Qed.

Lemma bits_binary (n : nat) (v : Z) :
  allChars (fun c => c = "0"%char \/ c = "1"%char) (ULong.bits n v).
Proof.
  induction n as [|n IH]; cbn [ULong.bits allChars]; [exact I|].
  split; [|assumption]. destruct (Z.testbit v (Z.of_nat n)); auto.
Qed.

Lemma removeLeadingZeros_allChars (P : ascii -> Prop) (s : string) :
  allChars P s -> allChars P (ULong.removeLeadingZeros s).
Proof.
  induction s as [|c s IH]; [trivial|].
  intros [Hc Hs]. cbn [ULong.removeLeadingZeros].
  destruct (Ascii.eqb c "0"); [auto|]. split; assumption.
Qed.

Lemma binaryDigits_binary (v : Z) :
  allChars (fun c => c = "0"%char \/ c = "1"%char) (binaryDigits v).
Proof.
  unfold binaryDigits. destruct (v =? 0).
  - cbn. auto.
  - apply removeLeadingZeros_allChars, bits_binary.
Qed.

Section PrintedBinary.
Variable v : Z.
Hypothesis v_range : 0 <= v <= ULong.max.

Lemma binaryDigits_parse :
  ULong.parseNonEmpty 2 (binaryDigits v) = Some v.
Proof.
  unfold binaryDigits. destruct (Z.eqb_spec v 0) as [->|Hnz]; [reflexivity|].
  destruct (removeLeadingZeros_spec (ULong.bitset_to_string v))
    as (k & Hk & _).
  assert (Hbits : ULong.parseDigits 2 (ULong.bitset_to_string v) 0 = Some v).
  { unfold ULong.bitset_to_string.
    pose proof (max_lt_pow 2 ltac:(lia)) as Hm.
    change (Z.of_nat ULong.digits) with 64.
    change ULong.digits with 64%nat.
    rewrite parseDigits_bits; change (Z.of_nat 64) with 64;
      rewrite ?Z.mod_small by lia; [f_equal; lia | lia | lia]. }
  rewrite Hk, parseDigits_zeros in Hbits.
  unfold ULong.parseNonEmpty.
  destruct (ULong.removeLeadingZeros (ULong.bitset_to_string v));
    [|assumption].
  cbn in Hbits. congruence.
Qed.

Lemma binary_toNumber :
  ConvertNumericLiteral.toNumber (render Binary v) = Some v.
Proof.
  unfold ConvertNumericLiteral.toNumber, ULong.toULong.
  cbn [render]. rewrite !append_cons, append_nil_l.
  cbn [QStr.startsWithCI QStr.mid].
  change (Ascii.eqb (QStr.toLower "0") (QStr.toLower "0")) with true.
  change (Ascii.eqb (QStr.toLower "b") (QStr.toLower "b")) with true.
  cbn [andb]. change (2 =? 0) with false. cbv iota.
  exact binaryDigits_parse.
Qed.

Lemma binary_radix : radixOf (render Binary v) = Binary.
Proof. reflexivity. Qed.

Lemma binary_digitsOf :
  digitsOf (integerLiteral (render Binary v)) = render Binary v.
Proof.
  unfold digitsOf, numberLength, NumericLiteral_size.
  cbn [chars integerLiteral].
  rewrite stripSuffix_all.
  - apply left_length.
  - discriminate.
  - change (render Binary v) with (String "0" (String "b" (binaryDigits v))).
    cbn [String.length]. intros c Hc.
    pose proof binaryDigits_parse as Hparse.
    destruct (String.length (binaryDigits v)) as [|k] eqn:El.
    { exfalso. destruct (binaryDigits v); [discriminate Hparse|discriminate El]. }
    replace (S (S (S k)) - 1)%nat with (S (S k)) in Hc by lia.
    cbn [String.get] in Hc.
    destruct (allChars_get _ _ (binaryDigits_binary v) k c Hc) as [->| ->];
      reflexivity.
Qed.

(** Each radix: the spelling the rule prints is all digits, reads back
    as the value, and is in the radix. *)
Lemma render_reads_back (r : Radix) :
  digitsOf (integerLiteral (render r v)) = render r v
  /\ ConvertNumericLiteral.toNumber (render r v) = Some v
  /\ radixOf (render r v) = r.
Proof.
  destruct r.
  - split; [now apply hex_digitsOf|]. split; [now apply hex_toNumber|].
    reflexivity.
  - split; [apply octal_digitsOf|]; try assumption.
    split; [now apply octal_toNumber | now apply octal_radix].
  - split; [now apply decimal_digitsOf|].
    split; [now apply decimal_toNumber | now apply decimal_radix].
  - split; [apply binary_digitsOf|]. split; [apply binary_toNumber|].
    reflexivity.
Qed.
End PrintedBinary.

(** X1.  Every replacement the rule offers for an integer literal is a
    literal of the radix its description names, consists of digits only,
    and has, read the way the rule reads literals, the value of the
    literal under the caret. *)
Theorem conversions_keep_value (interface : CppQuickFixInterface)
    (literal : AST) (numeric : NumericLiteral) (value : Z) (op : Operation) :
  cursorOnLiteral interface literal numeric ->
  isDouble numeric = false -> isFloat numeric = false ->
  isHex numeric = QStr.startsWithCI "0x" (chars numeric) ->
  ConvertNumericLiteral.toNumber (digitsOf numeric) = Some value ->
  In op (ConvertNumericLiteral.doMatch interface []) ->
  exists r priority start end_,
    op = ConvertNumericLiteralOp priority (description r) start end_
           (render r value)
    /\ r <> radixOf (chars numeric)
    /\ digitsOf (integerLiteral (render r value)) = render r value
    /\ ConvertNumericLiteral.toNumber (render r value) = Some value
    /\ radixOf (render r value) = r.
Proof.
  intros Hcursor Hd Hf Hhex Hv Hin.
  rewrite (doMatch_conversions interface [] literal numeric value) in Hin
    by assumption.
  cbn [app] in Hin. unfold conversions in Hin.
  apply in_map_iff in Hin as (r & <- & Hr).
  apply filter_In in Hr as [_ Hr].
  exists r. do 3 eexists. split; [reflexivity|]. split.
  - intros ->. now destruct (radixOf (chars numeric)).
  - apply render_reads_back. now apply toNumber_range in Hv.
Qed.

Lemma conversions_keep_value_witness :
  (cursorOnLiteral (onLiteral "32UL") (literalNode "32UL")
     (integerLiteral "32UL")
   /\ ConvertNumericLiteral.toNumber (digitsOf (integerLiteral "32UL"))
      = Some 32
   /\ In (ConvertNumericLiteralOp 0 ConvertNumericLiteral.tr_hex 8 10 "0x20")
        (ConvertNumericLiteral.doMatch (onLiteral "32UL") []))
  /\ exists r priority start end_,
       ConvertNumericLiteralOp 0 ConvertNumericLiteral.tr_hex 8 10 "0x20"
       = ConvertNumericLiteralOp priority (description r) start end_
           (render r 32)
       /\ r <> radixOf (chars (integerLiteral "32UL"))
       /\ digitsOf (integerLiteral (render r 32)) = render r 32
       /\ ConvertNumericLiteral.toNumber (render r 32) = Some 32
       /\ radixOf (render r 32) = r.
Proof.
  assert (Hcursor : cursorOnLiteral (onLiteral "32UL") (literalNode "32UL")
                      (integerLiteral "32UL")).
  { exists (rng 8 12), 4%nat. repeat split; reflexivity. }
  split.
  - split; [exact Hcursor|]. split; [reflexivity | left; reflexivity].
  - apply (conversions_keep_value (onLiteral "32UL") (literalNode "32UL")
             (integerLiteral "32UL") 32);
      try reflexivity; [exact Hcursor | left; reflexivity].
Defined.

Lemma length_left (s : string) :
  forall n, String.length (QStr.left n s) = Nat.min n (String.length s).
Proof.
  induction s as [|c s IH]; intros [|n]; cbn; try reflexivity.
  now rewrite IH.
Qed.

(** X2.  The rule applied to a literal it printed offers the three other
    radices of the same value. *)
Theorem conversion_rematch (r : Radix) (value : Z)
    (interface : CppQuickFixInterface) (literal : AST) :
  0 <= value <= ULong.max ->
  cursorOnLiteral interface literal (integerLiteral (render r value)) ->
  ConvertNumericLiteral.doMatch interface []
  = conversions (Z.of_nat (length (path interface)) - 1) (startOf literal)
      (startOf literal + Z.of_nat (String.length (render r value))) value r.
Proof.
  intros Hv Hcursor.
  destruct (render_reads_back value Hv r) as (Hdigits & Hnum & Hradix).
  rewrite (doMatch_conversions interface [] literal
             (integerLiteral (render r value)) value);
    try assumption; try reflexivity.
  - cbn [app chars integerLiteral]. rewrite Hradix. f_equal.
    f_equal. f_equal. unfold digitsOf in Hdigits.
    cbn [chars integerLiteral] in Hdigits.
    pose proof (stripSuffix_le (render r value)
                  (String.length (render r value))) as Hle.
    apply (f_equal String.length) in Hdigits.
    rewrite length_left in Hdigits.
    unfold numberLength, NumericLiteral_size in *.
    cbn [chars integerLiteral] in *. lia.
  - now rewrite Hdigits.
Qed.

Lemma conversion_rematch_witness :
  (0 <= 32 <= ULong.max
   /\ cursorOnLiteral (onLiteral "040") (literalNode "040")
        (integerLiteral (render Octal 32)))
  /\ ConvertNumericLiteral.doMatch (onLiteral "040") []
     = conversions (Z.of_nat (length (path (onLiteral "040"))) - 1)
         (startOf (literalNode "040"))
         (startOf (literalNode "040")
          + Z.of_nat (String.length (render Octal 32))) 32 Octal.
Proof.
  assert (Hrange : 0 <= 32 <= ULong.max) by (vm_compute; split; discriminate).
  assert (Hcursor : cursorOnLiteral (onLiteral "040") (literalNode "040")
                      (integerLiteral (render Octal 32))).
  { exists (rng 8 11), 4%nat. repeat split; reflexivity. }
  split; [split; assumption|].
  exact (conversion_rematch Octal 32 (onLiteral "040") (literalNode "040")
           Hrange Hcursor).
Defined.

Lemma acceptList_fold {S : Type} (rec : AST -> S -> S) (l : list AST) (s : S) :
  acceptList rec l s = fold_left (fun s c => rec c s) l s.
Proof. reflexivity. Qed.

Lemma collect_list (l : list AST) :
  forall acc, acceptList (fun c acc => acc ++ [c]) l acc = acc ++ l.
Proof.
  unfold acceptList.
  induction l as [|c l IH]; intros acc; cbn [fold_left].
  - now rewrite app_nil_r.
  - rewrite IH, <- app_assoc. reflexivity.
Qed.

Lemma collect_opt (o : option AST) (acc : list AST) :
  acceptOpt (fun c acc => acc ++ [c]) o acc
  = acc ++ match o with Some c => [c] | None => [] end.
Proof. destruct o; cbn; [reflexivity | now rewrite app_nil_r]. Qed.

Lemma acceptOpt_fold {S : Type} (rec : AST -> S -> S) (o : option AST) (s : S) :
  acceptOpt rec o s
  = fold_left (fun s c => rec c s)
      match o with Some c => [c] | None => [] end s.
Proof. now destruct o. Qed.

(** Visiting the children is folding over the subnodes. *)
Lemma acceptChildren_fold {S : Type} (rec : AST -> S -> S) (a : AST) (s : S) :
  acceptChildren rec a s = fold_left (fun s c => rec c s) (subnodes a) s.
Proof.
  unfold subnodes.
  destruct a; cbn [acceptChildren];
    rewrite ?collect_list, ?collect_opt, ?collect_list, ?collect_opt,
      ?collect_list, ?collect_opt, ?collect_opt;
    cbn [app]; rewrite ?fold_left_app, ?acceptOpt_fold, ?acceptList_fold;
    try reflexivity.
Qed.

Lemma AST_subnodes_ind (P : AST -> Prop) :
  (forall a, Forall P (subnodes a) -> P a) -> forall a, P a.
Proof.
  intros H. fix IH 1. intros a. apply H.
  assert (Hlist : forall l : list AST,
            (fix all (l : list AST) : Prop :=
               match l with [] => True | c :: r => P c /\ all r end) l ->
            Forall P l).
  { induction l as [|c l IHl]; [constructor|].
    intros [Hc Hl]. constructor; auto. }
  unfold subnodes.
  destruct a; cbn [acceptChildren];
    rewrite ?collect_list, ?collect_opt, ?collect_list, ?collect_opt,
      ?collect_list, ?collect_opt, ?collect_opt;
    cbn [app].
  all: repeat match goal with
         | |- Forall _ (_ ++ _) => apply Forall_app; split
         | |- Forall _ [] => constructor
         | |- Forall _ (_ :: _) => constructor; [apply IH |]
         | |- Forall _ match ?o with Some _ => _ | None => _ end =>
             destruct o
         | |- Forall _ ?l =>
             is_var l; apply Hlist; clear -IH;
             induction l; [exact I | split; [apply IH | assumption]]
         end.
Qed.

Module AnalyserFacts.
Import ExtractFunction ExtractFunctionSpec.

Lemma subnodes_opt (o : option AST) (c : AST) (l r : list AST) :
  o = Some c ->
  In c (l ++ match o with Some c => [c] | None => [] end ++ r).
Proof. intros ->. apply in_or_app. right. now left. Qed.

Ltac in_apps :=
  first [ assumption
        | now left
        | apply in_or_app; first [ left; solve [in_apps] | right; solve [in_apps] ] ].

Ltac subnode :=
  unfold subnodes; cbn [acceptChildren];
  rewrite ?collect_list, ?collect_opt, ?collect_list, ?collect_opt,
    ?collect_list, ?collect_opt, ?collect_opt;
  cbn [app]; solve [in_apps].

Section Invariant.
Variable interface : CppQuickFixInterface.
Variables selStart selEnd : Z.
Variable root : AST.
Variable Inv : Analyser -> Prop.

Hypothesis Inv_done : forall a, Inv a -> Inv (set_done a).
Hypothesis Inv_failed : forall a, Inv a -> Inv (set_failed a).
Hypothesis Inv_decl : forall k v a, Inv a -> Inv (insert_knownDecl k v a).
Hypothesis Inv_start :
  forall stmt a,
    inside root stmt -> Inv a -> m_extractionStart a = 0 ->
    selStart <= startOf stmt < selEnd ->
    Inv (set_extractionStart (startOf stmt) a).
Hypothesis Inv_end :
  forall stmt a,
    inside root stmt -> Inv a -> m_extractionStart a <> 0 ->
    Inv (set_extractionEnd (endOf stmt) a).

Lemma statement_invariant (rec : AST -> Analyser -> Analyser)
    (stmt : AST) (a : Analyser) :
  (inside root stmt /\ forall a, Inv a -> Inv (rec stmt a)) -> Inv a ->
  Inv (statement selStart selEnd rec (Some stmt) a).
Proof.
  intros [Hin Hrec] Ha. unfold statement. cbv zeta.
  destruct (_ || _) eqn:Estop; [now apply Inv_done|].
  apply orb_false_iff in Estop as [Estart _].
  apply Hrec.
  destruct ((startOf stmt >=? selStart) && _) eqn:E1.
  - apply andb_true_iff in E1 as [Hge Hz].
    assert (Hzero : m_extractionStart a = 0).
    { unfold nonzero in Hz. apply negb_true_iff, negb_false_iff in Hz.
      now apply Z.eqb_eq in Hz. }
    assert (Inv (set_extractionStart (startOf stmt) a)).
    { apply Inv_start; try assumption.
      rewrite Z.geb_leb in Hge, Estart.
      apply Z.leb_le in Hge. apply Z.leb_gt in Estart. lia. }
    destruct ((endOf stmt >? _) && _) eqn:E2; [|assumption].
    apply andb_true_iff in E2 as [_ Hnz].
    apply Inv_end; try assumption.
    unfold nonzero in Hnz. apply negb_true_iff, Z.eqb_neq in Hnz. exact Hnz.
  - destruct ((endOf stmt >? _) && _) eqn:E2; [|assumption].
    apply andb_true_iff in E2 as [_ Hnz].
    apply Inv_end; try assumption.
    unfold nonzero in Hnz. apply negb_true_iff, Z.eqb_neq in Hnz. exact Hnz.
Qed.

Lemma statement_opt_invariant (rec : AST -> Analyser -> Analyser)
    (stmt : option AST) (a : Analyser) :
  (forall s, stmt = Some s -> (inside root s /\ forall a, Inv a -> Inv (rec s a))) -> Inv a ->
  Inv (statement selStart selEnd rec stmt a).
Proof.
  destruct stmt as [s|]; intros H Ha; [|assumption].
  apply statement_invariant; auto.
Qed.

Lemma statements_invariant (rec : AST -> Analyser -> Analyser)
    (l : list AST) :
  forall a, (forall s, In s l -> (inside root s /\ forall a, Inv a -> Inv (rec s a))) -> Inv a ->
            Inv (statements selStart selEnd rec l a).
Proof.
  induction l as [|s l IH]; intros a H Ha; cbn [statements]; [assumption|].
  assert (Inv (statement selStart selEnd rec (Some s) a))
    by (apply statement_invariant; [apply H; now left | assumption]).
  destruct (m_done _); [assumption|].
  apply IH; [|assumption]. intros s' Hs'. apply H. now right.
Qed.

Lemma declarations_invariant (declaration : option AST) (a : Analyser) :
  Inv a -> Inv (visitDeclarationStatement interface declaration a).
Proof.
  intros Ha. unfold visitDeclarationStatement.
  destruct declaration as [[]|]; try assumption.
  destruct (lastValue _); [|assumption].
  destruct declarator_list as [|d ds]; [assumption|].
  generalize (d :: ds). intros l. revert a Ha.
  induction l as [|x l IH]; intros a Ha; cbn [fold_left]; [assumption|].
  apply IH. destruct (negb _); [now apply Inv_decl | assumption].
Qed.

Lemma fold_invariant (rec : AST -> Analyser -> Analyser) (l : list AST) :
  forall a, (forall s, In s l -> (inside root s /\ forall a, Inv a -> Inv (rec s a))) -> Inv a ->
            Inv (fold_left (fun s c => rec c s) l a).
Proof.
  induction l as [|s l IH]; intros a H Ha; cbn [fold_left]; [assumption|].
  apply IH; [intros s' Hs'; apply H; now right|].
  apply (H s); [now left | assumption].
Qed.

(** The analyser keeps an invariant that its assignments keep. *)
Lemma accept_invariant :
  forall ast, inside root ast ->
    forall a, Inv a -> Inv (accept interface selStart selEnd ast a).
Proof.
  intros ast. induction ast as [ast IH] using AST_subnodes_ind.
  intros Hin a Ha.
  assert (Hsub : forall c, In c (subnodes ast) ->
            (inside root c /\ forall a, Inv a -> Inv (accept interface selStart selEnd c a))).
  { intros c Hc. split; [now apply inside_sub with ast|].
    rewrite List.Forall_forall in IH. apply IH; [assumption|].
    now apply inside_sub with ast. }
  clear IH.
  destruct ast; cbn [accept]; (destruct (m_done a); [assumption|]);
    try (rewrite acceptChildren_fold; now apply fold_invariant);
    repeat match goal with
      | |- Inv (statement _ _ _ _ _) =>
          apply statement_opt_invariant; [intros s ->; apply Hsub; subnode|]
      | |- Inv (statements _ _ _ _ _) =>
          apply statements_invariant; [intros s Hs; apply Hsub; subnode|]
      | |- Inv (if negb (m_done ?x) then _ else ?x) =>
          assert (Inv x); [|destruct (negb (m_done x)); [|assumption]]
      | |- Inv (visitDeclarationStatement _ _ _) =>
          apply declarations_invariant
      | |- Inv (if nonzero _ then _ else _) => destruct (nonzero _)
      | |- Inv (set_failed _) => apply Inv_failed
      | |- Inv (set_done _) => apply Inv_done
      | |- Inv _ => assumption
      end.
Qed.
End Invariant.
End AnalyserFacts.

Module ExtractFunctionMore.
Import ExtractFunction ExtractFunctionSpec AnalyserFacts.

(** What an operation of the rule was made from. *)
Lemma doMatch_offered (interface : CppQuickFixInterface) (op : Operation) :
  In op (ExtractFunction.doMatch interface []) ->
  exists index rg declarator body symbol funcReturn relevantDecls,
    let refFuncDef := FunctionDefinitionAST rg declarator body symbol in
    let a := analysed interface refFuncDef in
    let known := collectParameters interface declarator (m_knownDecls a) in
    hasSelection interface = true
    /\ innermost asFunctionDefinition (path interface)
         (length (path interface)) = Some (index, refFuncDef)
    /\ m_failed a = false
    /\ identify interface (m_extractionStart a) (m_extractionEnd a)
         (fst known) (snd known) (localUses interface) None []
       = Some (funcReturn, relevantDecls)
    /\ op = ExtractFunctionOperation defaultPriority (m_extractionStart a)
              (m_extractionEnd a) refFuncDef funcReturn relevantDecls.
Proof.
  unfold ExtractFunction.doMatch.
  destruct (hasSelection interface); cbn [negb]; [|intros []].
  destruct (innermost _ _ _) as [[index refFuncDef]|] eqn:Ein; [|intros []].
  destruct refFuncDef; try (intros []).
  destruct function_body as [[]|]; try (intros []).
  destruct statement_list; try (intros []).
  destruct symbol as [symbol|]; try (intros []).
  destruct (name symbol); try (intros []).
  destruct (enclosingScopeIsTemplate symbol); try (intros []).
  unfold analysed, selection.
  destruct (selectionStart interface >? selectionEnd interface);
    cbn [fst snd];
    match goal with
    | |- context [analyse ?i ?s ?e ?f] =>
        destruct (m_failed (analyse i s e f)) eqn:Ef; [intros []|]
    end;
    (destruct (collectParameters _ _ _) as [knownDecls refFuncParams] eqn:Ec;
     destruct (identify _ _ _ _ _ _ _ _) as [[funcReturn relevantDecls]|] eqn:Ei;
     [|intros []];
     intros [<-|[]];
     exists index; do 4 eexists; exists funcReturn, relevantDecls;
     cbv zeta;
     split; [reflexivity|]; split; [reflexivity|];
     split; [exact Ef|];
     split; [rewrite Ec; exact Ei | reflexivity]).
Qed.

Section Range.
Variable interface : CppQuickFixInterface.
Variables selStart selEnd : Z.
Variable root : AST.

(** Where the analyser sets the limits of the extraction. *)
Lemma accept_limits (a : Analyser) :
  a = accept interface selStart selEnd root init ->
  (m_extractionStart a = 0 /\ m_extractionEnd a = 0)
  \/ (m_extractionStart a <> 0
      /\ selStart <= m_extractionStart a < selEnd
      /\ (exists first, inside root first
                        /\ m_extractionStart a = startOf first)
      /\ (m_extractionEnd a = 0
          \/ exists last, inside root last
                          /\ m_extractionEnd a = endOf last)).
Proof.
  intros ->.
  apply (accept_invariant interface selStart selEnd root
           (fun a =>
              (m_extractionStart a = 0 /\ m_extractionEnd a = 0)
              \/ (m_extractionStart a <> 0
                  /\ selStart <= m_extractionStart a < selEnd
                  /\ (exists first, inside root first
                                    /\ m_extractionStart a = startOf first)
                  /\ (m_extractionEnd a = 0
                      \/ exists last, inside root last
                                      /\ m_extractionEnd a = endOf last)))).
  - intros a H. exact H.
  - intros a H. exact H.
  - intros k v a H. exact H.
  - intros stmt a Hin [[_ He]|[Hnz _]] Hz Hr; [|contradiction].
    cbn [set_extractionStart m_extractionStart m_extractionEnd].
    destruct (Z.eq_dec (startOf stmt) 0) as [E|E]; [left; auto|].
    right. split; [assumption|]. split; [assumption|].
    split; [now exists stmt|]. now left.
  - intros stmt a Hin [[Hz _]|(Hnz & Hr & Hf & _)] Hnz'; [contradiction|].
    right. cbn [set_extractionEnd m_extractionStart m_extractionEnd].
    split; [assumption|]. split; [assumption|]. split; [assumption|].
    right. now exists stmt.
  - constructor.
  - left. split; reflexivity.
Qed.
End Range.

Lemma analyse_succeeded (interface : CppQuickFixInterface)
    (selStart selEnd : Z) (refFuncDef : AST) :
  m_failed (analyse interface selStart selEnd refFuncDef) = false ->
  analyse interface selStart selEnd refFuncDef
  = accept interface selStart selEnd refFuncDef init
  /\ m_extractionStart (accept interface selStart selEnd refFuncDef init)
     <> m_extractionEnd (accept interface selStart selEnd refFuncDef init).
Proof.
  unfold analyse. cbv zeta.
  destruct (m_failed (accept _ _ _ _ _)) eqn:Ef; cbn [negb andb].
  - intros H. congruence.
  - destruct (Z.eqb_spec
                (m_extractionStart (accept interface selStart selEnd refFuncDef init))
                (m_extractionEnd (accept interface selStart selEnd refFuncDef init)));
      [discriminate|]. auto.
Qed.

Section Identified.
Variable interface : CppQuickFixInterface.
Variables extractionStart extractionEnd : Z.
Variable knownDecls : gmap string string.
Variable refFuncParams : gset string.

Lemma contains_value (name : string) :
  contains knownDecls name = true ->
  knownDecls !! name = Some (value knownDecls name).
Proof.
  unfold contains, value. now destruct (knownDecls !! name).
Qed.

(** The return value stays the first item of the list, and every item
    has its known declaration. *)
Lemma identify_decls (localUses : list (LocalSymbol * list Use)) :
  forall funcReturn relevantDecls ret decls,
    identify interface extractionStart extractionEnd knownDecls
      refFuncParams localUses funcReturn relevantDecls
    = Some (ret, decls) ->
    (forall key, funcReturn = Some key ->
                 exists d rest, relevantDecls = (prettyName key, d) :: rest) ->
    (forall n d, In (n, d) relevantDecls -> knownDecls !! n = Some d) ->
    (forall key, ret = Some key ->
                 exists d rest, decls = (prettyName key, d) :: rest)
    /\ (forall n d, In (n, d) decls -> knownDecls !! n = Some d).
Proof.
  induction localUses as [|[key uses] rest IH];
    intros funcReturn relevantDecls ret decls; cbn [identify].
  - intros [= <- <-]. auto.
  - destruct (classify interface extractionStart extractionEnd uses)
      as [[before after] inside].
    set (isParameter :=
           before && inside
           || inside && bool_decide (prettyName key ∈ refFuncParams)).
    destruct (isParameter && negb (contains knownDecls (prettyName key)))
      eqn:Eknown; [discriminate|].
    intros Hid Hfirst Hknown.
    assert (Hfirst' : forall key', funcReturn = Some key' ->
              exists d rest',
                (if isParameter
                 then relevantDecls
                      ++ [(prettyName key, value knownDecls (prettyName key))]
                 else relevantDecls)
                = (prettyName key', d) :: rest').
    { intros key' E. destruct (Hfirst key' E) as (d & rest' & ->).
      destruct isParameter; cbn [app]; eauto. }
    assert (Hknown' : forall n d,
              In (n, d)
                (if isParameter
                 then relevantDecls
                      ++ [(prettyName key, value knownDecls (prettyName key))]
                 else relevantDecls) ->
              knownDecls !! n = Some d).
    { intros n d. destruct isParameter; [|apply Hknown].
      intros Hin. apply in_app_or in Hin as [Hin|[[= <- <-]|[]]];
        [now apply Hknown|].
      apply contains_value. cbn [andb] in Eknown.
      now apply negb_false_iff in Eknown. }
    destruct (inside && after && negb before).
    + destruct funcReturn; [discriminate|].
      destruct (negb (contains knownDecls (prettyName key))) eqn:Ec;
        [discriminate|].
      apply negb_false_iff in Ec.
      apply (IH _ _ _ _ Hid).
      * intros key' [= <-]. eauto.
      * intros n d [[= <- <-]|Hin]; [now apply contains_value|].
        now apply Hknown'.
    + apply (IH _ _ _ _ Hid); assumption.
Qed.

Lemma candidate_flags (key : LocalSymbol) (uses : list Use)
    (before after inside : bool) :
  classify interface extractionStart extractionEnd uses
  = (before, after, inside) ->
  (inside && after && negb before = true <-> returnCandidate interface extractionStart extractionEnd (key, uses)).
Proof.
  intros E. unfold returnCandidate. cbn [snd]. rewrite E.
  destruct before, after, inside; cbn; split; congruence.
Qed.

(** With a return value chosen, the loop ends well only without a
    further candidate. *)
Lemma identify_chosen (localUses : list (LocalSymbol * list Use)) :
  forall chosen relevantDecls ret decls,
    identify interface extractionStart extractionEnd knownDecls
      refFuncParams localUses (Some chosen) relevantDecls
    = Some (ret, decls) ->
    ret = Some chosen /\ Forall (fun e => ~ returnCandidate interface extractionStart extractionEnd e) localUses.
Proof.
  induction localUses as [|[key uses] rest IH];
    intros chosen relevantDecls ret decls; cbn [identify].
  - intros [= <- <-]. split; [reflexivity | constructor].
  - destruct (classify interface extractionStart extractionEnd uses)
      as [[before after] inside] eqn:Ec.
    destruct (_ && negb (contains knownDecls (prettyName key)));
      [discriminate|].
    destruct (inside && after && negb before) eqn:E; [discriminate|].
    intros Hid. destruct (IH _ _ _ _ Hid) as [-> Hrest].
    split; [reflexivity|]. constructor; [|assumption].
    intros Hc. apply (candidate_flags key uses _ _ _ Ec) in Hc. congruence.
Qed.

(** The return value is the one candidate, if there is one. *)
Lemma identify_return (localUses : list (LocalSymbol * list Use)) :
  forall relevantDecls ret decls,
    identify interface extractionStart extractionEnd knownDecls
      refFuncParams localUses None relevantDecls
    = Some (ret, decls) ->
    (ret = None /\ Forall (fun e => ~ returnCandidate interface extractionStart extractionEnd e) localUses)
    \/ (exists pre key uses post,
          localUses = pre ++ (key, uses) :: post
          /\ ret = Some key /\ returnCandidate interface extractionStart extractionEnd (key, uses)
          /\ Forall (fun e => ~ returnCandidate interface extractionStart extractionEnd e) pre
          /\ Forall (fun e => ~ returnCandidate interface extractionStart extractionEnd e) post).
Proof.
  induction localUses as [|[key uses] rest IH];
    intros relevantDecls ret decls; cbn [identify].
  - intros [= <- <-]. left. split; [reflexivity | constructor].
  - destruct (classify interface extractionStart extractionEnd uses)
      as [[before after] inside] eqn:Ec.
    destruct (_ && negb (contains knownDecls (prettyName key)));
      [discriminate|].
    destruct (inside && after && negb before) eqn:E.
    + destruct (negb (contains knownDecls (prettyName key)));
        [discriminate|].
      intros Hid. apply identify_chosen in Hid as [-> Hrest].
      right. exists [], key, uses, rest.
      split; [reflexivity|]. split; [reflexivity|].
      split; [now apply (candidate_flags key uses _ _ _ Ec)|].
      split; [constructor | assumption].
    + intros Hid.
      assert (Hnot : ~ returnCandidate interface extractionStart extractionEnd (key, uses)).
      { intros Hc. apply (candidate_flags key uses _ _ _ Ec) in Hc.
        congruence. }
      destruct (IH _ _ _ Hid)
        as [[-> Hall]|(pre & k & u & post & -> & -> & Hc & Hpre & Hpost)].
      * left. split; [reflexivity|]. now constructor.
      * right. exists ((key, uses) :: pre), k, u, post.
        split; [reflexivity|]. split; [reflexivity|].
        split; [assumption|]. split; [now constructor | assumption].
Qed.
End Identified.
End ExtractFunctionMore.

(** X3.  The range an offered extraction covers begins at the start of a
    node of the function and inside the selection; it is not empty, and it
    ends at the end of a node of the function (or at offset 0). *)
Theorem extraction_range_in_selection (interface : CppQuickFixInterface)
    (op : Operation) :
  In op (ExtractFunction.doMatch interface []) ->
  exists extractionStart extractionEnd refFuncDef funcReturn relevantDecls
         first,
    op = ExtractFunctionOperation defaultPriority extractionStart
           extractionEnd refFuncDef funcReturn relevantDecls
    /\ inside refFuncDef first /\ extractionStart = startOf first
    /\ fst (ExtractFunctionSpec.selection interface) <= extractionStart
       < snd (ExtractFunctionSpec.selection interface)
    /\ extractionStart <> 0 /\ extractionStart <> extractionEnd
    /\ (extractionEnd = 0
        \/ exists last, inside refFuncDef last /\ extractionEnd = endOf last).
Proof.
  intros Hin.
  destruct (ExtractFunctionMore.doMatch_offered interface op Hin)
    as (index & rg & declarator & body & symbol & funcReturn & relevantDecls
        & H).
  cbv zeta in H. destruct H as (_ & _ & Hok & _ & ->).
  unfold ExtractFunctionSpec.analysed in *.
  destruct (ExtractFunctionMore.analyse_succeeded _ _ _ _ Hok) as [-> Hne].
  destruct (ExtractFunctionMore.accept_limits interface
              (fst (ExtractFunctionSpec.selection interface))
              (snd (ExtractFunctionSpec.selection interface))
              (FunctionDefinitionAST rg declarator body symbol) _ eq_refl)
    as [[Hs He]|(Hnz & Hr & (first & Hf & Hfs) & Hlast)];
    [congruence|].
  do 5 eexists. exists first. split; [reflexivity|]. auto 10.
Qed.

Lemma extraction_range_in_selection_witness :
  In Samples.extractionY (ExtractFunction.doMatch Samples.onDeclarationY [])
  /\ exists extractionStart extractionEnd refFuncDef funcReturn relevantDecls
            first,
       Samples.extractionY
       = ExtractFunctionOperation defaultPriority extractionStart
           extractionEnd refFuncDef funcReturn relevantDecls
       /\ inside refFuncDef first /\ extractionStart = startOf first
       /\ fst (ExtractFunctionSpec.selection Samples.onDeclarationY)
          <= extractionStart
          < snd (ExtractFunctionSpec.selection Samples.onDeclarationY)
       /\ extractionStart <> 0 /\ extractionStart <> extractionEnd
       /\ (extractionEnd = 0
           \/ exists last,
                inside refFuncDef last /\ extractionEnd = endOf last).
Proof.
  split; [left; reflexivity|].
  apply (extraction_range_in_selection Samples.onDeclarationY
           Samples.extractionY).
  left. reflexivity.
Defined.

(** X4.  The list of declarations of an offered extraction begins with the
    declaration of the return value, if there is one, and every name in it
    comes with the declaration the analyser or the parameter list of the
    function recorded for it. *)
Theorem extract_function_declarations (interface : CppQuickFixInterface)
    (op : Operation) :
  In op (ExtractFunction.doMatch interface []) ->
  exists extractionStart extractionEnd rg declarator body symbol funcReturn
         relevantDecls,
    let refFuncDef := FunctionDefinitionAST rg declarator body symbol in
    op = ExtractFunctionOperation defaultPriority extractionStart
           extractionEnd refFuncDef funcReturn relevantDecls
    /\ (forall key, funcReturn = Some key ->
                    exists decl rest,
                      relevantDecls = (prettyName key, decl) :: rest)
    /\ (forall name decl,
          In (name, decl) relevantDecls ->
          fst (ExtractFunction.collectParameters interface declarator
                 (ExtractFunction.m_knownDecls
                    (ExtractFunctionSpec.analysed interface refFuncDef)))
          !! name = Some decl).
Proof.
  intros Hin.
  destruct (ExtractFunctionMore.doMatch_offered interface op Hin)
    as (index & rg & declarator & body & symbol & funcReturn & relevantDecls
        & H).
  cbv zeta in H. destruct H as (_ & _ & _ & Hid & ->).
  do 2 eexists. exists rg, declarator, body, symbol, funcReturn, relevantDecls.
  cbv zeta. split; [reflexivity|].
  apply (ExtractFunctionMore.identify_decls _ _ _ _ _ _ _ _ _ _ Hid).
  - discriminate.
  - intros n d [].
Qed.

Lemma extract_function_declarations_witness :
  In Samples.extractionY (ExtractFunction.doMatch Samples.onDeclarationY [])
  /\ exists extractionStart extractionEnd rg declarator body symbol funcReturn
            relevantDecls,
       Samples.extractionY
       = ExtractFunctionOperation defaultPriority extractionStart
           extractionEnd (FunctionDefinitionAST rg declarator body symbol)
           funcReturn relevantDecls
       /\ (forall key, funcReturn = Some key ->
                       exists decl rest,
                         relevantDecls = (prettyName key, decl) :: rest)
       /\ (forall name decl,
             In (name, decl) relevantDecls ->
             fst (ExtractFunction.collectParameters Samples.onDeclarationY
                    declarator
                    (ExtractFunction.m_knownDecls
                       (ExtractFunctionSpec.analysed Samples.onDeclarationY
                          (FunctionDefinitionAST rg declarator body symbol))))
             !! name = Some decl).
Proof.
  split; [left; reflexivity|].
  apply (extract_function_declarations Samples.onDeclarationY
           Samples.extractionY).
  left. reflexivity.
Defined.

(** X5.  An offered extraction returns a local exactly when that local is
    the only one used inside and behind the extracted range but not in
    front of it; without such a local it returns nothing. *)
Theorem extract_function_return_value (interface : CppQuickFixInterface)
    (op : Operation) :
  In op (ExtractFunction.doMatch interface []) ->
  exists extractionStart extractionEnd refFuncDef funcReturn relevantDecls,
    op = ExtractFunctionOperation defaultPriority extractionStart
           extractionEnd refFuncDef funcReturn relevantDecls
    /\ ((funcReturn = None
         /\ Forall (fun e => ~ ExtractFunctionSpec.returnCandidate interface
                                 extractionStart extractionEnd e)
              (localUses interface))
        \/ exists pre key uses post,
             localUses interface = pre ++ (key, uses) :: post
             /\ funcReturn = Some key
             /\ ExtractFunctionSpec.returnCandidate interface extractionStart
                  extractionEnd (key, uses)
             /\ Forall (fun e => ~ ExtractFunctionSpec.returnCandidate
                                     interface extractionStart extractionEnd e)
                  (pre ++ post)).
Proof.
  intros Hin.
  destruct (ExtractFunctionMore.doMatch_offered interface op Hin)
    as (index & rg & declarator & body & symbol & funcReturn & relevantDecls
        & H).
  cbv zeta in H. destruct H as (_ & _ & _ & Hid & ->).
  do 3 eexists. exists funcReturn, relevantDecls. split; [reflexivity|].
  destruct (ExtractFunctionMore.identify_return _ _ _ _ _ _ _ _ _ Hid)
    as [?|(pre & key & uses & post & ? & ? & ? & ? & ?)]; [now left|].
  right. exists pre, key, uses, post. repeat split; try assumption.
  apply Forall_app. now split.
Qed.

Lemma extract_function_return_value_witness :
  In Samples.extractionY (ExtractFunction.doMatch Samples.onDeclarationY [])
  /\ exists extractionStart extractionEnd refFuncDef funcReturn relevantDecls,
       Samples.extractionY
       = ExtractFunctionOperation defaultPriority extractionStart
           extractionEnd refFuncDef funcReturn relevantDecls
       /\ ((funcReturn = None
            /\ Forall (fun e => ~ ExtractFunctionSpec.returnCandidate
                                    Samples.onDeclarationY extractionStart
                                    extractionEnd e)
                 (localUses Samples.onDeclarationY))
           \/ exists pre key uses post,
                localUses Samples.onDeclarationY = pre ++ (key, uses) :: post
                /\ funcReturn = Some key
                /\ ExtractFunctionSpec.returnCandidate Samples.onDeclarationY
                     extractionStart extractionEnd (key, uses)
                /\ Forall (fun e => ~ ExtractFunctionSpec.returnCandidate
                                        Samples.onDeclarationY extractionStart
                                        extractionEnd e)
                     (pre ++ post)).
Proof.
  split; [left; reflexivity|].
  apply (extract_function_return_value Samples.onDeclarationY
           Samples.extractionY).
  left. reflexivity.
Defined.

(** ** Extract Function: the call *)

Module CallFacts.
Import ExtractFunctionOperation.

Lemma concat_cons (sep x : string) (l : list string) :
  String.concat sep (x :: l)
  = match l with
    | [] => x
    | _ => String.append x (String.append sep (String.concat sep l))
    end.
Proof. destruct l; reflexivity. Qed.

(** The loop writes the names from [i] on, separated by commas. *)
Lemma arguments_join (m_relevantDecls : list (string * string)) (n : nat) :
  forall i funcCall,
    (n + i = length m_relevantDecls)%nat ->
    arguments m_relevantDecls n i funcCall
    = String.append funcCall
        (QStr.join ", " (map fst (skipn i m_relevantDecls))).
Proof.
  induction n as [|n IH]; intros i funcCall Hn; cbn [arguments].
  - rewrite skipn_all2 by lia. cbn. now rewrite append_empty_r.
  - destruct (nth_error m_relevantDecls i) as [p|] eqn:Ep.
    2:{ apply nth_error_None in Ep. lia. }
    assert (Hskip : skipn i m_relevantDecls = p :: skipn (S i) m_relevantDecls).
    { clear -Ep. revert i Ep.
      induction m_relevantDecls as [|q l IHl]; intros [|i] Ep;
        try discriminate.
      - now injection Ep as ->.
      - cbn [skipn]. rewrite (IHl i Ep). reflexivity. }
    rewrite IH by lia. rewrite Hskip. cbn [map]. unfold QStr.join.
    rewrite concat_cons.
    destruct (i <? length m_relevantDecls - 1)%nat eqn:Ei.
    + apply Nat.ltb_lt in Ei.
      destruct (skipn (S i) m_relevantDecls) as [|q rest] eqn:Es.
      { apply (f_equal (@length _)) in Es. rewrite length_skipn in Es.
        cbn in Es. lia. }
      cbn [map]. now rewrite !string_append_assoc.
    + apply Nat.ltb_ge in Ei.
      rewrite skipn_all2 by lia. cbn. now rewrite append_empty_r.
Qed.

Lemma funcCall_shape (funcName : string) (m_funcReturn : option LocalSymbol)
    (m_relevantDecls : list (string * string)) :
  let call (parameters : list (string * string)) :=
    String.append funcName
      (String.append "("
         (String.append (QStr.join ", " (map fst parameters)) ");")) in
  funcCall funcName m_funcReturn m_relevantDecls
  = match m_funcReturn, m_relevantDecls with
    | Some _, [] => None
    | Some _, p :: rest =>
        Some (String.append (snd p) (String.append " = " (call rest)))
    | None, _ => Some (call m_relevantDecls)
    end.
Proof.
  cbv zeta. unfold funcCall.
  destruct m_funcReturn as [key|].
  - destruct m_relevantDecls as [|p rest]; [reflexivity|].
    rewrite arguments_join by (cbn; lia).
    cbn [skipn append_nil_l]. rewrite append_nil_l.
    f_equal. now rewrite !string_append_assoc.
  - rewrite arguments_join by (cbn; lia).
    cbn [skipn]. rewrite append_nil_l.
    destruct m_relevantDecls; f_equal; now rewrite !string_append_assoc.
Qed.
End CallFacts.

(** X6.  For every extraction the rule offers, [perform] gets past its
    assertion, and the call that replaces the extracted range is the
    function name applied to names of the list of declarations, separated
    by commas.  Without a return value these are the names of all the
    entries; with a return value they are the names of the entries behind
    the first one, and the call initialises the declaration that the first
    entry gives for the returned local.  (A local of the name of the
    returned one can still be among the entries behind the first.) *)
Theorem extract_function_call (interface : CppQuickFixInterface)
    (op : Operation) (funcName : string) :
  In op (ExtractFunction.doMatch interface []) ->
  exists extractionStart extractionEnd refFuncDef funcReturn relevantDecls,
    op = ExtractFunctionOperation defaultPriority extractionStart
           extractionEnd refFuncDef funcReturn relevantDecls
    /\ exists declaration parameters,
         (match funcReturn with
          | Some key =>
              exists decl,
                relevantDecls = (prettyName key, decl) :: parameters
                /\ declaration = String.append decl " = "
          | None =>
              relevantDecls = parameters /\ declaration = EmptyString
          end)
         /\ ExtractFunctionOperation.funcCall funcName funcReturn
              relevantDecls
            = Some (String.append declaration
                      (String.append funcName
                         (String.append "("
                            (String.append
                               (QStr.join ", " (map fst parameters))
                               ");")))).
Proof.
  intros Hin.
  destruct (ExtractFunctionMore.doMatch_offered interface op Hin)
    as (index & rg & declarator & body & symbol & funcReturn & relevantDecls
        & H).
  cbv zeta in H. destruct H as (_ & _ & _ & Hid & ->).
  do 3 eexists. exists funcReturn, relevantDecls. split; [reflexivity|].
  destruct (ExtractFunctionMore.identify_decls _ _ _ _ _ _ _ _ _ _ Hid)
    as [Hfirst _]; [discriminate | intros n d [] |].
  pose proof (CallFacts.funcCall_shape funcName funcReturn relevantDecls)
    as Hshape. cbv zeta in Hshape. rewrite Hshape.
  destruct funcReturn as [key|].
  - destruct (Hfirst key eq_refl) as (decl & rest & ->).
    exists (String.append decl " = "), rest. split; [eauto|].
    cbn [snd]. now rewrite !string_append_assoc.
  - exists EmptyString, relevantDecls. split; [auto|]. reflexivity.
Qed.

Lemma extract_function_call_witness :
  In Samples.extractionY (ExtractFunction.doMatch Samples.onDeclarationY [])
  /\ exists extractionStart extractionEnd refFuncDef funcReturn relevantDecls,
       Samples.extractionY
       = ExtractFunctionOperation defaultPriority extractionStart
           extractionEnd refFuncDef funcReturn relevantDecls
       /\ exists declaration parameters,
            (match funcReturn with
             | Some key =>
                 exists decl,
                   relevantDecls = (prettyName key, decl) :: parameters
                   /\ declaration = String.append decl " = "
             | None =>
                 relevantDecls = parameters /\ declaration = EmptyString
             end)
            /\ ExtractFunctionOperation.funcCall "extracted" funcReturn
                 relevantDecls
               = Some (String.append declaration
                         (String.append "extracted"
                            (String.append "("
                               (String.append
                                  (QStr.join ", " (map fst parameters))
                                  ");")))).
Proof.
  split; [left; reflexivity|].
  apply (extract_function_call Samples.onDeclarationY Samples.extractionY
           "extracted").
  left. reflexivity.
Defined.

(** ** Strings *)

Lemma length_mid (s : string) :
  forall n, String.length (QStr.mid n s) = (String.length s - n)%nat.
Proof.
  induction s as [|c s IH]; intros [|n]; cbn; try reflexivity. apply IH.
Qed.

Lemma left_mid (s : string) :
  forall n, String.append (QStr.left n s) (QStr.mid n s) = s.
Proof.
  induction s as [|c s IH]; intros [|n]; cbn [QStr.left QStr.mid];
    try reflexivity.
  now rewrite append_cons, IH.
Qed.

Lemma mid_at (s : string) :
  forall i, (i < String.length s)%nat ->
    QStr.mid i s = String (QStr.at_ s i) (QStr.mid (S i) s).
Proof.
  induction s as [|c s IH]; intros [|i] H; cbn in H; try lia.
  - reflexivity.
  - cbn [QStr.mid]. rewrite (IH i) by lia. reflexivity.
Qed.

Lemma left_app_left (s t : string) :
  forall k i, (k <= i)%nat -> (i <= String.length s)%nat ->
    QStr.left k (String.append (QStr.left i s) t) = QStr.left k s.
Proof.
  induction s as [|c s IH]; intros [|k] [|i] Hk Hi;
    cbn [QStr.left String.length] in *; try lia;
    rewrite ?append_nil_l, ?append_cons; cbn [QStr.left];
    try reflexivity.
  rewrite IH by lia. reflexivity.
Qed.

Lemma at_app_left (s t : string) :
  forall i, (i < String.length s)%nat ->
    QStr.at_ (String.append s t) i = QStr.at_ s i.
Proof.
  unfold QStr.at_.
  induction s as [|c s IH]; intros [|i] H; cbn in H; try lia;
    rewrite append_cons; cbn [String.get].
  - reflexivity.
  - apply IH. lia.
Qed.

Lemma at_app_right (s t : string) :
  forall i, QStr.at_ (String.append s t) (String.length s + i) = QStr.at_ t i.
Proof.
  unfold QStr.at_. induction s as [|c s IH]; intros i; [reflexivity|].
  rewrite append_cons. cbn [String.length Nat.add String.get]. apply IH.
Qed.

Lemma at_mid (s : string) :
  forall n i, QStr.at_ (QStr.mid n s) i = QStr.at_ s (n + i).
Proof.
  unfold QStr.at_.
  induction s as [|c s IH]; intros [|n] i; cbn; try reflexivity;
    try (now destruct i); apply IH.
Qed.

Lemma length_set (s : string) (i : nat) (c : ascii) :
  String.length (QString.set s i c) = String.length s.
Proof.
  unfold QString.set. destruct (Nat.ltb_spec i (String.length s)); [|reflexivity].
  rewrite length_append. cbn [String.length].
  rewrite length_left, length_mid. lia.
Qed.

Lemma length_remove (s : string) (i : nat) :
  (i < String.length s)%nat ->
  String.length (QString.remove s i 1) = (String.length s - 1)%nat.
Proof.
  intros H. unfold QString.remove.
  rewrite length_append, length_left, length_mid. lia.
Qed.

Lemma left_set (s : string) (i k : nat) (c : ascii) :
  (k <= i)%nat -> QStr.left k (QString.set s i c) = QStr.left k s.
Proof.
  intros H. unfold QString.set.
  destruct (Nat.ltb_spec i (String.length s)); [|reflexivity].
  apply left_app_left; lia.
Qed.

Lemma left_remove (s : string) (i k : nat) :
  (k <= i)%nat -> (i <= String.length s)%nat ->
  QStr.left k (QString.remove s i 1) = QStr.left k s.
Proof. intros. unfold QString.remove. now apply left_app_left. Qed.

(** ** Convert to Camel Case *)

Module CamelCaseFacts.
Import ConvertToCamelCase CamelCaseSpec.

Lemma letters_app (s t : string) :
  letters (String.append s t) = String.append (letters s) (letters t).
Proof.
  induction s as [|c s IH]; [reflexivity|].
  rewrite append_cons. cbn [letters].
  destruct (Ascii.eqb c "_"); [assumption|]. now rewrite append_cons, IH.
Qed.

Lemma lower_class (c : ascii) :
  Ascii.eqb (QChar.toLower c) "_" = Ascii.eqb c "_"
  /\ QChar.toLower (QChar.toLower c) = QChar.toLower c.
Proof. destruct c as [[] [] [] [] [] [] [] []]; vm_compute; auto. Qed.

Lemma upper_class (c : ascii) :
  Ascii.eqb (QChar.toUpper c) "_" = Ascii.eqb c "_"
  /\ QChar.toLower (QChar.toUpper c) = QChar.toLower c.
Proof. destruct c as [[] [] [] [] [] [] [] []]; vm_compute; auto. Qed.

(** Writing a character of the same letter keeps the letters. *)
Lemma letters_set (s : string) (i : nat) (c : ascii) :
  Ascii.eqb c "_" = Ascii.eqb (QStr.at_ s i) "_" ->
  QChar.toLower c = QChar.toLower (QStr.at_ s i) ->
  letters (QString.set s i c) = letters s.
Proof.
  intros Hu Hl. unfold QString.set.
  destruct (Nat.ltb_spec i (String.length s)) as [Hi|]; [|reflexivity].
  rewrite <- (left_mid s i) at 3. rewrite (mid_at s i Hi).
  rewrite !letters_app. cbn [letters]. now rewrite Hu, Hl.
Qed.

Lemma letters_remove (s : string) (i : nat) :
  (i < String.length s)%nat -> QStr.at_ s i = "_"%char ->
  letters (QString.remove s i 1) = letters s.
Proof.
  intros Hi Hu. unfold QString.remove.
  rewrite <- (left_mid s i) at 3. rewrite (mid_at s i Hi).
  rewrite !letters_app. cbn [letters]. rewrite Hu. cbn.
  now replace (i + 1)%nat with (S i) by lia.
Qed.

Lemma letters_toLower (s : string) : letters (QString.toLower s) = letters s.
Proof.
  induction s as [|c s IH]; [reflexivity|].
  cbn [QString.toLower QString.map letters].
  destruct (lower_class c) as [-> ->].
  fold (QString.toLower s). now rewrite IH.
Qed.

Lemma length_toLower (s : string) :
  String.length (QString.toLower s) = String.length s.
Proof. induction s as [|c s IH]; cbn; [reflexivity | now f_equal]. Qed.

Lemma convertible_underscore (s : string) (i : nat) :
  isConvertibleUnderscore s i = true -> QStr.at_ s i = "_"%char.
Proof.
  unfold isConvertibleUnderscore. intros H.
  apply andb_true_iff in H as [H _]. apply andb_true_iff in H as [H _].
  now apply Ascii.eqb_eq in H.
Qed.

Section Loop.
Variable m_isAllUpper : bool.

(** One round of the loop: the string it goes on with. *)
Lemma camelCase_letters (fuel : nat) :
  forall s i, letters (camelCase fuel m_isAllUpper s i) = letters s.
Proof.
  induction fuel as [|fuel IH]; intros s i; cbn [camelCase]; [reflexivity|].
  destruct (Nat.ltb_spec i (String.length s)) as [Hi|]; [|reflexivity].
  destruct (QChar.isUpper (QStr.at_ s i) && m_isAllUpper).
  - rewrite IH. apply letters_set; apply lower_class.
  - destruct ((i <? String.length s - 1)%nat && isConvertibleUnderscore s i)
      eqn:E; [|apply IH].
    apply andb_true_iff in E as [_ E]. apply convertible_underscore in E.
    rewrite IH, letters_set; [now apply letters_remove| |]; apply upper_class.
Qed.

Lemma camelCase_length (fuel : nat) :
  forall s i,
    (String.length (camelCase fuel m_isAllUpper s i) <= String.length s)%nat.
Proof.
  induction fuel as [|fuel IH]; intros s i; cbn [camelCase]; [lia|].
  destruct (Nat.ltb_spec i (String.length s)) as [Hi|]; [|lia].
  destruct (QChar.isUpper (QStr.at_ s i) && m_isAllUpper).
  - etransitivity; [apply IH|]. now rewrite length_set.
  - destruct ((i <? String.length s - 1)%nat && isConvertibleUnderscore s i);
      [|apply IH].
    etransitivity; [apply IH|]. rewrite length_set, length_remove; lia.
Qed.

Lemma camelCase_prefix (fuel : nat) :
  forall s i k, (k <= i)%nat ->
    QStr.left k (camelCase fuel m_isAllUpper s i) = QStr.left k s.
Proof.
  induction fuel as [|fuel IH]; intros s i k Hk; cbn [camelCase];
    [reflexivity|].
  destruct (Nat.ltb_spec i (String.length s)) as [Hi|]; [|reflexivity].
  destruct (QChar.isUpper (QStr.at_ s i) && m_isAllUpper).
  - rewrite IH by lia. now apply left_set.
  - destruct ((i <? String.length s - 1)%nat && isConvertibleUnderscore s i);
      [|apply IH; lia].
    rewrite IH by lia. rewrite left_set by assumption.
    apply left_remove; lia.
Qed.

(** The loop has ended when the fuel is used up. *)
Lemma camelCase_fuel (fuel : nat) :
  forall fuel' s i,
    (String.length s - i <= fuel)%nat -> (String.length s - i <= fuel')%nat ->
    camelCase fuel m_isAllUpper s i = camelCase fuel' m_isAllUpper s i.
Proof.
  induction fuel as [|fuel IH]; intros fuel' s i H H'.
  - destruct fuel'; cbn [camelCase]; [reflexivity|].
    destruct (Nat.ltb_spec i (String.length s)); [lia | reflexivity].
  - destruct fuel' as [|fuel']; cbn [camelCase].
    + destruct (Nat.ltb_spec i (String.length s)); [lia | reflexivity].
    + destruct (Nat.ltb_spec i (String.length s)) as [Hi|]; [|reflexivity].
      destruct (QChar.isUpper (QStr.at_ s i) && m_isAllUpper).
      * apply IH; rewrite length_set; lia.
      * destruct ((i <? String.length s - 1)%nat
                  && isConvertibleUnderscore s i).
        -- apply IH; rewrite length_set, length_remove; lia.
        -- apply IH; lia.
Qed.
End Loop.

(** Without upper-case folding, a convertible underscore ahead makes the
    name shorter. *)
Lemma camelCase_shorter (fuel : nat) :
  forall s i j,
    (i <= j)%nat -> (j + 2 <= String.length s)%nat ->
    isConvertibleUnderscore s j = true ->
    (j < fuel + i)%nat ->
    (String.length (camelCase fuel false s i) < String.length s)%nat.
Proof.
  induction fuel as [|fuel IH]; intros s i j Hij Hj Hc Hfuel; [lia|].
  cbn [camelCase].
  destruct (Nat.ltb_spec i (String.length s)) as [Hi|]; [|lia].
  rewrite andb_false_r.
  destruct ((i <? String.length s - 1)%nat && isConvertibleUnderscore s i)
    eqn:E.
  - eapply Nat.le_lt_trans; [apply camelCase_length|].
    rewrite length_set, length_remove; lia.
  - apply (IH s (S i) j); try assumption; [|lia].
    destruct (Nat.eq_dec i j) as [->|]; [|lia].
    rewrite Hc, andb_true_r in E. apply Nat.ltb_ge in E. lia.
Qed.

Lemma offers_position (nameString : string) :
  offers nameString = true <->
  exists i, (1 <= i)%nat /\ (i + 2 <= String.length nameString)%nat
            /\ isConvertibleUnderscore nameString i = true.
Proof.
  unfold offers.
  destruct (Nat.ltb_spec (String.length nameString) 3) as [Hlen|Hlen].
  - split; [discriminate|]. intros (i & ? & ? & _). lia.
  - rewrite existsb_exists. split.
    + intros (i & Hi & Hc). apply in_seq in Hi. exists i. repeat split; [lia|lia|assumption].
    + intros (i & H1 & H2 & Hc). exists i. split; [|assumption].
      apply in_seq. lia.
Qed.
End CamelCaseFacts.

(** X7.  For a name of the ASCII range, the name the conversion renames
    to has the letters of the name, in their order, when case and
    underscores are left out of account; it is not longer than the name;
    and the loop that computes it has ended before its rounds are used
    up. *)
Theorem camel_case_keeps_letters (m_name : string) :
  NameSpec.isAscii m_name = true ->
  CamelCaseSpec.letters (ConvertToCamelCase.newName m_name)
  = CamelCaseSpec.letters m_name
  /\ (String.length (ConvertToCamelCase.newName m_name)
      <= String.length m_name)%nat
  /\ forall fuel,
       (String.length m_name <= fuel)%nat ->
       ConvertToCamelCase.camelCase fuel (QString.isUpper m_name)
         (if QString.isUpper m_name then QString.toLower m_name else m_name)
         1
       = ConvertToCamelCase.newName m_name.
Proof.
  intros _. unfold ConvertToCamelCase.newName. cbv zeta.
  assert (Hlen : String.length
                   (if QString.isUpper m_name then QString.toLower m_name
                    else m_name)
                 = String.length m_name).
  { destruct (QString.isUpper m_name);
      [apply CamelCaseFacts.length_toLower | reflexivity]. }
  split; [|split].
  - rewrite CamelCaseFacts.camelCase_letters.
    destruct (QString.isUpper m_name);
      [apply CamelCaseFacts.letters_toLower | reflexivity].
  - etransitivity; [apply CamelCaseFacts.camelCase_length|]. lia.
  - intros fuel Hfuel. apply CamelCaseFacts.camelCase_fuel; lia.
Qed.

Lemma camel_case_keeps_letters_witness :
  NameSpec.isAscii "FOO_BAR_BAZ" = true
  /\ CamelCaseSpec.letters (ConvertToCamelCase.newName "FOO_BAR_BAZ")
     = CamelCaseSpec.letters "FOO_BAR_BAZ"
  /\ (String.length (ConvertToCamelCase.newName "FOO_BAR_BAZ")
      <= String.length "FOO_BAR_BAZ")%nat
  /\ forall fuel,
       (String.length "FOO_BAR_BAZ" <= fuel)%nat ->
       ConvertToCamelCase.camelCase fuel (QString.isUpper "FOO_BAR_BAZ")
         (if QString.isUpper "FOO_BAR_BAZ"
          then QString.toLower "FOO_BAR_BAZ" else "FOO_BAR_BAZ"%string)
         1
       = ConvertToCamelCase.newName "FOO_BAR_BAZ".
Proof.
  split; [reflexivity|].
  apply (camel_case_keeps_letters "FOO_BAR_BAZ"). reflexivity.
Defined.

(** X8.  The conversion never touches the first character of the name
    (lower-cased, if the name was all upper case), and it keeps the prefix
    [m_] of a member. *)
Theorem camel_case_keeps_prefix (m_name : string) :
  let start :=
    if QString.isUpper m_name then QString.toLower m_name else m_name in
  QStr.left 1 (ConvertToCamelCase.newName m_name) = QStr.left 1 start
  /\ (QStr.left 2 start = "m_"%string ->
      QStr.left 2 (ConvertToCamelCase.newName m_name) = "m_"%string).
Proof.
  cbv zeta. unfold ConvertToCamelCase.newName. cbv zeta.
  set (u := QString.isUpper m_name).
  set (s := if u then QString.toLower m_name else m_name).
  split; [now apply CamelCaseFacts.camelCase_prefix|].
  intros Hm. destruct s as [|a [|b r]]; try discriminate.
  cbn [QStr.left] in Hm. injection Hm as -> ->.
  generalize (String.length (String "m" (String "_" r))). intros [|fuel];
    [reflexivity|].
  cbn [ConvertToCamelCase.camelCase].
  destruct (1 <? String.length (String "m" (String "_" r)))%nat;
    [|reflexivity].
  change (QStr.at_ (String "m" (String "_" r)) 1) with "_"%char.
  change (QChar.isUpper "_") with false. cbn [andb].
  replace (ConvertToCamelCase.isConvertibleUnderscore
             (String "m" (String "_" r)) 1) with false.
  - rewrite andb_false_r.
    now rewrite CamelCaseFacts.camelCase_prefix.
  - unfold ConvertToCamelCase.isConvertibleUnderscore.
    change (QStr.at_ (String "m" (String "_" r)) 0) with "m"%char.
    cbn. now rewrite andb_false_r.
Qed.

(** X9.  Whenever the rule offers the conversion for a name that is not
    all upper case, the name it renames to is shorter than the name: the
    operation is never without effect. *)
Theorem camel_case_offered_shortens (nameString : string) :
  ConvertToCamelCase.offers nameString = true ->
  QString.isUpper nameString = false ->
  (String.length (ConvertToCamelCase.newName nameString)
   < String.length nameString)%nat.
Proof.
  intros Hoffer Hupper.
  apply CamelCaseFacts.offers_position in Hoffer as (j & H1 & H2 & Hc).
  unfold ConvertToCamelCase.newName. cbv zeta. rewrite Hupper.
  apply (CamelCaseFacts.camelCase_shorter _ _ 1 j); try assumption. lia.
Qed.

Lemma camel_case_offered_shortens_witness :
  (ConvertToCamelCase.offers "foo_bar" = true
   /\ QString.isUpper "foo_bar" = false)
  /\ (String.length (ConvertToCamelCase.newName "foo_bar")
      < String.length "foo_bar")%nat.
Proof.
  split; [split; reflexivity|].
  apply (camel_case_offered_shortens "foo_bar"); reflexivity.
Defined.

(** X10.  A name without an underscore, a name of fewer than three
    characters and a name whose only underscore follows the prefix [m] or
    ends the name are not offered the conversion. *)
Theorem camel_case_not_offered (nameString : string) :
  (QStr.contains "_" nameString = false ->
   ConvertToCamelCase.offers nameString = false)
  /\ ((String.length nameString < 3)%nat ->
      ConvertToCamelCase.offers nameString = false)
  /\ (forall rest,
        nameString = String "m" (String "_" rest) ->
        QStr.contains "_" rest = false ->
        ConvertToCamelCase.offers nameString = false)
  /\ (forall front,
        nameString = String.append front "_" ->
        QStr.contains "_" front = false ->
        ConvertToCamelCase.offers nameString = false).
Proof.
  assert (Hat : forall s i, QStr.contains "_" s = false ->
            QStr.at_ s i <> "_"%char).
  { unfold QStr.at_. induction s as [|c s IH]; intros i Hc.
    - destruct i; discriminate.
    - cbn [QStr.contains] in Hc. apply orb_false_iff in Hc as [Hc Hs].
      destruct i as [|i]; cbn [String.get].
      + intros ->. now rewrite Ascii.eqb_refl in Hc.
      + now apply IH. }
  assert (Hno : forall s,
            (forall i, (1 <= i)%nat -> (i + 2 <= String.length s)%nat ->
                       ConvertToCamelCase.isConvertibleUnderscore s i = false) ->
            ConvertToCamelCase.offers s = false).
  { intros s H. destruct (ConvertToCamelCase.offers s) eqn:E; [|reflexivity].
    apply CamelCaseFacts.offers_position in E as (i & H1 & H2 & Hc).
    rewrite H in Hc by assumption. discriminate. }
  split; [|split; [|split]].
  - intros Hc. apply Hno. intros i _ _.
    unfold ConvertToCamelCase.isConvertibleUnderscore.
    destruct (Ascii.eqb_spec (QStr.at_ nameString i) "_") as [E|];
      [|reflexivity].
    now apply Hat in E.
  - intros Hlen. apply Hno. intros; lia.
  - intros rest -> Hc. apply Hno. intros i H1 H2.
    unfold ConvertToCamelCase.isConvertibleUnderscore.
    destruct i as [|[|i]]; [lia| |].
    + cbn. now rewrite andb_false_r.
    + change (QStr.at_ (String "m" (String "_" rest)) (S (S i)))
        with (QStr.at_ rest i).
      destruct (Ascii.eqb_spec (QStr.at_ rest i) "_") as [E|];
        [|reflexivity].
      now apply Hat in E.
  - intros front -> Hc. apply Hno. intros i H1 H2.
    rewrite length_append in H2. cbn [String.length] in H2.
    unfold ConvertToCamelCase.isConvertibleUnderscore.
    rewrite at_app_left by lia.
    destruct (Ascii.eqb_spec (QStr.at_ front i) "_") as [E|];
      [|reflexivity].
    now apply Hat in E.
Qed.

(** ** Assign to Local Variable *)

Module VarNameFacts.
Import AssignToLocalVariableOperation.

Lemma length_replace (s : string) (pos : nat) (len : nat) (after : string) :
  (pos <= String.length s)%nat ->
  String.length (QString.replace s (Z.of_nat pos) len after)
  = (Nat.min pos (String.length s) + String.length after
     + (String.length s - (pos + len)))%nat.
Proof.
  intros H. unfold QString.replace.
  replace (Z.of_nat pos <? 0) with false by (symmetry; apply Z.ltb_ge; lia).
  replace (Z.of_nat (String.length s) <? Z.of_nat pos) with false
    by (symmetry; apply Z.ltb_ge; lia).
  cbn [orb]. rewrite Nat2Z.id, !length_append, length_left, length_mid. lia.
Qed.

Lemma upper_lower (c : ascii) :
  QChar.isUpper c = true -> QChar.isLower (QChar.toLower c) = true.
Proof. destruct c as [[] [] [] [] [] [] [] []]; vm_compute; auto. Qed.

Lemma replace_first (s : string) (c : ascii) :
  QString.replace s 0 1 (String c EmptyString)
  = String c (QStr.mid 1 s).
Proof.
  unfold QString.replace.
  replace (Z.of_nat (String.length s) <? 0) with false
    by (symmetry; apply Z.ltb_ge; lia).
  reflexivity.
Qed.

(** The three shapes of the variable name. *)
Lemma constructVarName_cases (m_originalName : string) :
  (exists c, QChar.isUpper c = true
             /\ ((QStr.startsWithCI "get" m_originalName = true
                  /\ (3 < String.length m_originalName)%nat
                  /\ c = QStr.at_ m_originalName 3
                  /\ constructVarName m_originalName
                     = String (QChar.toLower c) (QStr.mid 4 m_originalName))
                 \/ (QStr.startsWithCI "to" m_originalName = true
                     /\ (2 < String.length m_originalName)%nat
                     /\ c = QStr.at_ m_originalName 2
                     /\ constructVarName m_originalName
                        = String (QChar.toLower c)
                            (QStr.mid 3 m_originalName))))
  \/ constructVarName m_originalName
     = String.append "local"
         (String (QChar.toUpper (QStr.at_ m_originalName 0))
            (QStr.mid 1 m_originalName)).
Proof.
  unfold constructVarName. cbv zeta.
  assert (Hmid : forall n k, QStr.mid k (QString.remove m_originalName 0 n)
                             = QStr.mid (n + k) m_originalName).
  { intros n k. unfold QString.remove. cbn [QStr.left Nat.add].
    rewrite append_nil_l. revert k. generalize m_originalName.
    induction n as [|n IH]; intros s k; [reflexivity|].
    destruct s as [|a s]; cbn [QStr.mid Nat.add]; [now destruct k|].
    apply IH. }
  assert (Hat : forall n, QStr.at_ (QString.remove m_originalName 0 n) 0
                          = QStr.at_ m_originalName n).
  { intros n. unfold QString.remove. cbn [QStr.left Nat.add].
    rewrite append_nil_l, at_mid. f_equal. lia. }
  destruct (QStr.startsWithCI "get" m_originalName
            && (3 <? String.length m_originalName)%nat
            && QChar.isUpper (QStr.at_ m_originalName 3)) eqn:Eget.
  - apply andb_true_iff in Eget as [Eget Hup].
    apply andb_true_iff in Eget as [Hget Hlen]. apply Nat.ltb_lt in Hlen.
    left. exists (QStr.at_ m_originalName 3). split; [assumption|]. left.
    repeat split; try assumption.
    now rewrite replace_first, Hat, Hmid.
  - destruct (QStr.startsWithCI "to" m_originalName
              && (2 <? String.length m_originalName)%nat
              && QChar.isUpper (QStr.at_ m_originalName 2)) eqn:Eto.
    + apply andb_true_iff in Eto as [Eto Hup].
      apply andb_true_iff in Eto as [Hto Hlen]. apply Nat.ltb_lt in Hlen.
      left. exists (QStr.at_ m_originalName 2). split; [assumption|]. right.
      repeat split; try assumption.
      now rewrite replace_first, Hat, Hmid.
    + right. now rewrite replace_first.
Qed.
End VarNameFacts.

(** X11.  For a function name of the ASCII range that is not empty,
    the name of the new variable begins with a lower-case letter, and its
    length differs from the length of the name of the function it is made
    from: the variable never gets the name of the function. *)
Theorem variable_name_differs (m_originalName : string) :
  NameSpec.isAscii m_originalName = true ->
  m_originalName <> EmptyString ->
  QChar.isLower
    (QStr.at_ (AssignToLocalVariableOperation.constructVarName m_originalName)
       0) = true
  /\ String.length
       (AssignToLocalVariableOperation.constructVarName m_originalName)
     <> String.length m_originalName
  /\ AssignToLocalVariableOperation.constructVarName m_originalName
     <> m_originalName.
Proof.
  intros _ Hne.
  assert (Hlen : String.length
                   (AssignToLocalVariableOperation.constructVarName
                      m_originalName)
                 <> String.length m_originalName
                 /\ QChar.isLower
                      (QStr.at_
                         (AssignToLocalVariableOperation.constructVarName
                            m_originalName) 0) = true).
  { destruct (VarNameFacts.constructVarName_cases m_originalName)
      as [(c & Hup & [(_ & Hl & _ & ->)|(_ & Hl & _ & ->)])| ->].
    - cbn [String.length]. rewrite length_mid. split; [lia|].
      now apply VarNameFacts.upper_lower.
    - cbn [String.length]. rewrite length_mid. split; [lia|].
      now apply VarNameFacts.upper_lower.
    - rewrite length_append. cbn [String.length]. rewrite length_mid.
      split; [lia | reflexivity]. }
  destruct Hlen as [Hlen Hfirst]. split; [assumption|]. split; [assumption|].
  intros E. now rewrite E in Hlen.
Qed.

Lemma variable_name_differs_witness :
  NameSpec.isAscii "getValue" = true
  /\ QChar.isLower
       (QStr.at_ (AssignToLocalVariableOperation.constructVarName "getValue")
          0)
     = true
  /\ String.length (AssignToLocalVariableOperation.constructVarName "getValue")
     <> String.length "getValue"
  /\ AssignToLocalVariableOperation.constructVarName "getValue"
     <> "getValue"%string.
Proof.
  split; [reflexivity|].
  apply (variable_name_differs "getValue"); [reflexivity | discriminate].
Defined.

(** X12.  The text inserted in front of the expression is the deduced
    type with the name of the function at its end replaced by the name of
    the variable and [ = ], and the cursor is put on the first character
    of that name. *)
Theorem assign_to_local_variable_text (m_insertPos : Z)
    (m_originalName type : string) :
  type <> EmptyString ->
  (String.length m_originalName <= String.length type)%nat ->
  let varName :=
    AssignToLocalVariableOperation.constructVarName m_originalName in
  let kept := (String.length type - String.length m_originalName)%nat in
  exists insertString position,
    AssignToLocalVariableOperation.perform m_insertPos m_originalName type
    = Some (insertString, position)
    /\ insertString
       = String.append (QStr.left kept type) (String.append varName " = ")
    /\ position = m_insertPos + Z.of_nat kept
    /\ QStr.mid (Z.to_nat (position - m_insertPos)) insertString
       = String.append varName " = ".
Proof.
  intros Hne Hlen. cbv zeta.
  unfold AssignToLocalVariableOperation.perform.
  replace (QStr.isEmpty type) with false
    by (destruct type; [contradiction | reflexivity]).
  cbv zeta. do 2 eexists. split; [reflexivity|].
  set (varName :=
         AssignToLocalVariableOperation.constructVarName m_originalName).
  set (kept := (String.length type - String.length m_originalName)%nat).
  assert (Hins : QString.replace type
                   (Z.of_nat (String.length type)
                    - Z.of_nat (String.length m_originalName))
                   (String.length m_originalName)
                   (String.append varName " = ")
                 = String.append (QStr.left kept type)
                     (String.append varName " = ")).
  { unfold QString.replace.
    replace (_ <? 0) with false by (symmetry; apply Z.ltb_ge; lia).
    replace (Z.of_nat (String.length type) <? _) with false
      by (symmetry; apply Z.ltb_ge; lia).
    cbn [orb].
    replace (Z.to_nat (Z.of_nat (String.length type)
                       - Z.of_nat (String.length m_originalName)))
      with kept by (unfold kept; lia).
    assert (Hmid : QStr.mid (kept + String.length m_originalName) type
                   = EmptyString).
    { pose proof (length_mid type (kept + String.length m_originalName)) as H.
      destruct (QStr.mid _ type); [reflexivity|].
      cbn in H. unfold kept in H. lia. }
    now rewrite Hmid, append_empty_r. }
  rewrite Hins. split; [reflexivity|].
  assert (Hkept : String.length (QStr.left kept type) = kept).
  { rewrite length_left. unfold kept. lia. }
  split.
  - rewrite !length_append, Hkept. cbn [String.length]. lia.
  - rewrite !length_append, Hkept. cbn [String.length].
    replace (Z.to_nat _) with (String.length (QStr.left kept type) + 0)%nat
      by (rewrite Hkept; lia).
    generalize (String.append varName " = "). generalize (QStr.left kept type).
    intros a b. induction a as [|x a IH]; [reflexivity|].
    rewrite append_cons. cbn [String.length Nat.add QStr.mid]. exact IH.
Qed.

Lemma assign_to_local_variable_text_witness :
  (String.length "getValue" <= String.length "auto getValue")%nat
  /\ exists insertString position,
       AssignToLocalVariableOperation.perform 10 "getValue" "auto getValue"
       = Some (insertString, position)
       /\ insertString
          = String.append
              (QStr.left (String.length "auto getValue"
                          - String.length "getValue") "auto getValue")
              (String.append
                 (AssignToLocalVariableOperation.constructVarName "getValue")
                 " = ")
       /\ position
          = 10 + Z.of_nat (String.length "auto getValue"
                           - String.length "getValue")
       /\ QStr.mid (Z.to_nat (position - 10)) insertString
          = String.append
              (AssignToLocalVariableOperation.constructVarName "getValue")
              " = ".
Proof.
  split; [cbn; lia|].
  apply (assign_to_local_variable_text 10 "getValue" "auto getValue");
    [discriminate | cbn; lia].
Defined.

(** ** The filter of the path *)

Module FilterFacts.
Import ReformatPointerDeclarationASTPathResultsFilter ReformatSpec.

Lemma supported_eqb_eq (a b : Supported) :
  supported_eqb a b = true <-> a = b.
Proof. destruct a, b; cbn; split; congruence. Qed.

Lemma ofClass_spec (k : Supported) (a b : AST) :
  ofClass k a = Some b <-> classOf a = Some k /\ b = a.
Proof.
  unfold ofClass. destruct (classOf a) as [k'|].
  - destruct (supported_eqb k k') eqn:E.
    + apply supported_eqb_eq in E as ->. split.
      * intros [= ->]. auto.
      * intros [_ ->]. reflexivity.
    + split; [discriminate|]. intros [[= ->] _].
      assert (supported_eqb k k = true) by now apply supported_eqb_eq.
      congruence.
  - split; [discriminate|]. intros [[=] _].
Qed.

(** What one round does. *)
Lemma step_cases (ast : AST) (f : Flags) (filtered : list AST) :
  (classOf ast = None /\ step ast (f, filtered) = (f, filtered))
  \/ (exists k, classOf ast = Some k /\ seen k f = true
                /\ step ast (f, filtered) = (f, filtered))
  \/ (exists k f',
        classOf ast = Some k /\ seen k f = false
        /\ step ast (f, filtered) = (f', filtered ++ [ast])
        /\ forall k', seen k' f' = supported_eqb k' k || seen k' f).
Proof.
  destruct ast; cbn [classOf step]; try (left; split; reflexivity); right;
    match goal with
    | |- context [if negb ?b then _ else _] => destruct b eqn:E
    end; cbn [negb];
    try (left; eexists; split; [reflexivity|]; split; [exact E|reflexivity]);
    right; eexists; eexists; (split; [reflexivity|]);
    (split; [exact E|]); (split; [reflexivity|]);
    intros k'; destruct k'; cbn; rewrite ?E; reflexivity.
Qed.

Section Loop.
Variable path : list AST.

(** A node of a class at an index makes the search for the innermost
    node of the class succeed, at that index or deeper. *)
Lemma innermost_exists (k : Supported) (n j : nat) (node : AST) :
  (j < n)%nat -> nth_error path j = Some node -> classOf node = Some k ->
  exists i a, (j <= i)%nat /\ innermost (ofClass k) path n = Some (i, a).
Proof.
  induction n as [|n IH]; intros Hj Hn Hc; [lia|].
  cbn [innermost].
  destruct (nth_error path n) as [top|] eqn:Et.
  - destruct (ofClass k top) as [a|] eqn:Eo.
    + exists n, a. split; [lia | reflexivity].
    + destruct (Nat.eq_dec j n) as [->|].
      * rewrite Hn in Et. injection Et as <-.
        assert (ofClass k node = Some node) by now apply ofClass_spec.
        congruence.
      * apply IH; [lia | assumption | assumption].
  - destruct (Nat.eq_dec j n) as [->|]; [congruence|].
    apply IH; [lia | assumption | assumption].
Qed.

Lemma innermost_at (k : Supported) (i : nat) (a : AST) :
  innermost (ofClass k) path (length path) = Some (i, a) ->
  (i < length path)%nat /\ nth_error path i = Some a /\ classOf a = Some k.
Proof.
  intros H. destruct (innermost_spec _ _ _ _ _ H) as (Hi & (node & Hn & Hs) & _).
  apply ofClass_spec in Hs as [Hc ->]. auto.
Qed.

Lemma NoDup_snoc {A : Type} (l : list A) (x : A) :
  List.NoDup l -> ~ In x l -> List.NoDup (l ++ [x]).
Proof.
  induction l as [|y l IH]; intros Hl Hx; cbn [app].
  - constructor; [intros []|constructor].
  - inversion Hl as [|? ? Hy Hl']; subst. constructor.
    + intros Hin. apply in_app_or in Hin as [Hin|[->|[]]]; [contradiction|].
      apply Hx. now left.
    + apply IH; [assumption|]. intros Hin. apply Hx. now right.
Qed.

Lemma StronglySorted_snoc {A : Type} (R : A -> A -> Prop) (l : list A)
    (x : A) :
  StronglySorted R l -> List.Forall (fun y => R y x) l ->
  StronglySorted R (l ++ [x]).
Proof.
  induction l as [|y l IH]; intros Hl Hx; cbn [app].
  - constructor; constructor.
  - inversion Hl as [|? ? Hl' Hy]; subst.
    inversion Hx as [|? ? Hyx Hx']; subst.
    constructor; [now apply IH|].
    apply List.Forall_app. split; [assumption|]. now constructor.
Qed.

(** One round keeps the description of the state. *)
Lemma step_upTo (i : nat) (node : AST) (st : Flags * list AST) :
  nth_error path i = Some node ->
  upTo path (S i) st -> upTo path i (step node st).
Proof.
  intros Hnode (Hin & Hseen & Hdup & indices & Hmap & Hsorted & Hfrom).
  assert (Hi : (i < length path)%nat) by (apply nth_error_Some; congruence).
  assert (Hnew : forall k a,
            innermost (ofClass k) path (length path) = Some (i, a) ->
            a = node /\ classOf node = Some k).
  { intros k a H. apply innermost_at in H as (_ & Hn & Hc).
    rewrite Hnode in Hn. injection Hn as <-. auto. }
  assert (Hweak : forall (P : nat -> Prop),
            (forall j, (S i <= j)%nat -> P j) -> P i ->
            forall j, (i <= j)%nat -> P j).
  { intros P HS H0 j Hj. destruct (Nat.eq_dec j i) as [->|]; [assumption|].
    apply HS. lia. }
  destruct st as [f filtered]. cbn [fst snd] in *.
  destruct (step_cases node f filtered)
    as [[Hc ->]|[(k & Hc & Hs & ->)|(k & f' & Hc & Hs & -> & Hf')]];
    unfold upTo; cbn [fst snd].
  - (* no supported class *)
    assert (Hnone : forall k a,
              innermost (ofClass k) path (length path) <> Some (i, a)).
    { intros k a H. apply Hnew in H as [_ H]. congruence. }
    split; [|split; [|split]].
    + intros a. rewrite Hin. split.
      * intros (k & j & Hj & H). exists k, j. split; [lia | assumption].
      * intros (k & j & Hj & H). exists k, j. split; [|assumption].
        destruct (Nat.eq_dec j i) as [->|]; [now apply Hnone in H | lia].
    + intros k. rewrite Hseen. split.
      * intros (j & a & Hj & H). exists j, a. split; [lia | assumption].
      * intros (j & a & Hj & H). exists j, a. split; [|assumption].
        destruct (Nat.eq_dec j i) as [->|]; [now apply Hnone in H | lia].
    + assumption.
    + exists indices. split; [assumption|]. split; [assumption|].
      eapply List.Forall_impl; [|exact Hfrom]. cbn. intros; lia.
  - (* the class is behind us *)
    apply Hseen in Hs as (i0 & a0 & Hi0 & H0).
    assert (Hnone : forall k' a,
              innermost (ofClass k') path (length path) <> Some (i, a)).
    { intros k' a H. destruct (Hnew _ _ H) as [_ Hk].
      assert (k' = k) by congruence. subst k'. rewrite H in H0.
      injection H0 as ? ?. lia. }
    split; [|split; [|split]].
    + intros a. rewrite Hin. split.
      * intros (k' & j & Hj & H). exists k', j. split; [lia | assumption].
      * intros (k' & j & Hj & H). exists k', j. split; [|assumption].
        destruct (Nat.eq_dec j i) as [->|]; [now apply Hnone in H | lia].
    + intros k'. rewrite Hseen. split.
      * intros (j & a & Hj & H). exists j, a. split; [lia | assumption].
      * intros (j & a & Hj & H). exists j, a. split; [|assumption].
        destruct (Nat.eq_dec j i) as [->|]; [now apply Hnone in H | lia].
    + assumption.
    + exists indices. split; [assumption|]. split; [assumption|].
      eapply List.Forall_impl; [|exact Hfrom]. cbn. intros; lia.
  - (* the innermost node of its class *)
    assert (Hinner : innermost (ofClass k) path (length path)
                     = Some (i, node)).
    { apply innermost_found with node; try assumption.
      - now apply ofClass_spec.
      - intros j node' Hj Hn'.
        destruct (ofClass k node') as [b|] eqn:Eo; [|reflexivity].
        apply ofClass_spec in Eo as [Hc' _].
        destruct (innermost_exists k (length path) j node' ltac:(lia) Hn' Hc')
          as (i' & a' & Hi' & H').
        assert (seen k f = true) by (apply Hseen; exists i', a'; split; [lia | assumption]).
        congruence. }
    split; [|split; [|split]].
    + intros a. split.
      * intros Ha. apply in_app_or in Ha as [Ha|[<-|[]]].
        -- apply Hin in Ha as (k' & j & Hj & H). exists k', j.
           split; [lia | assumption].
        -- exists k, i. split; [lia | assumption].
      * intros (k' & j & Hj & H). apply in_or_app.
        destruct (Nat.eq_dec j i) as [->|].
        -- right. destruct (Hnew _ _ H) as [-> _]. now left.
        -- left. apply Hin. exists k', j. split; [lia | assumption].
    + intros k'. rewrite Hf'. split.
      * intros H. apply orb_true_iff in H as [H|H].
        -- apply supported_eqb_eq in H as ->. exists i, node.
           split; [lia | assumption].
        -- apply Hseen in H as (j & a & Hj & H). exists j, a.
           split; [lia | assumption].
      * intros (j & a & Hj & H). apply orb_true_iff.
        destruct (Nat.eq_dec j i) as [->|].
        -- left. destruct (Hnew _ _ H) as [_ Hk].
           apply supported_eqb_eq. congruence.
        -- right. apply Hseen. exists j, a. split; [lia | assumption].
    + rewrite List.map_app. cbn [List.map]. apply NoDup_snoc; [assumption|].
      intros Hx. apply in_map_iff in Hx as (a & Ha & Hina).
      apply Hin in Hina as (k' & j & Hj & H).
      destruct (innermost_at _ _ _ H) as (_ & _ & Hk').
      assert (k' = k) by congruence. subst k'.
      assert (seen k f = true) by (apply Hseen; eauto).
      congruence.
    + exists (indices ++ [i]). split; [|split].
      * rewrite !List.map_app. cbn [List.map]. now rewrite Hmap, Hnode.
      * apply StronglySorted_snoc; [assumption|].
        eapply List.Forall_impl; [|exact Hfrom]. cbn. intros; lia.
      * apply List.Forall_app. split.
        -- eapply List.Forall_impl; [|exact Hfrom]. cbn. intros; lia.
        -- constructor; [lia | constructor].
Qed.

Lemma loop_upTo (n : nat) :
  forall st, (n <= length path)%nat -> upTo path n st ->
             upTo path 0 (loop path n st).
Proof.
  induction n as [|n IH]; intros st Hn Hst; cbn [loop]; [assumption|].
  destruct (nth_error path n) as [node|] eqn:En.
  - apply IH; [lia|]. now apply step_upTo.
  - apply nth_error_None in En. lia.
Qed.

Lemma init_upTo : upTo path (length path) (init, []).
Proof.
  split; [|split; [|split]]; cbn [fst snd].
  - intros a. split; [intros []|].
    intros (k & i & Hi & H). apply innermost_at in H as (Hlt & _). lia.
  - intros k. split; [destruct k; discriminate|].
    intros (i & a & Hi & H). apply innermost_at in H as (Hlt & _). lia.
  - constructor.
  - exists []. repeat split; constructor.
Qed.
End Loop.
End FilterFacts.

(** X13.  The filter keeps, of every supported class of nodes, the
    innermost node of the path and no other node; no class comes twice,
    and the deeper nodes come first. *)
Theorem filter_keeps_innermost (astPathList : list AST) :
  let filtered :=
    ReformatPointerDeclarationASTPathResultsFilter.filter astPathList in
  (forall a,
     In a filtered <->
     exists k i, innermost (ReformatSpec.ofClass k) astPathList
                   (length astPathList) = Some (i, a))
  /\ List.NoDup (List.map ReformatSpec.classOf filtered)
  /\ exists indices,
       List.map (nth_error astPathList) indices = List.map Some filtered
       /\ StronglySorted (fun i j => (j < i)%nat) indices.
Proof.
  cbv zeta. unfold ReformatPointerDeclarationASTPathResultsFilter.filter.
  destruct (FilterFacts.loop_upTo astPathList (length astPathList) _
              (Nat.le_refl _) (FilterFacts.init_upTo astPathList))
    as (Hin & _ & Hdup & indices & Hmap & Hsorted & _).
  split; [|split].
  - intros a. rewrite Hin. split.
    + intros (k & i & _ & H). eauto.
    + intros (k & i & H). exists k, i. split; [lia | assumption].
  - assumption.
  - exists indices. split; assumption.
Qed.

(** ** Optimize for-Loop: the unused name *)

Module UnusedNameFacts.
Import OptimizeForLoopOperation.

Section Names.
Variable interface : CppQuickFixInterface.
Variable declarator_list : list AST.
Hypothesis with_core :
  forall d, In d declarator_list ->
    exists rg core postfix equal_token initializer,
      d = DeclaratorAST rg (Some core) postfix equal_token initializer.

(** The spellings of the declarators. *)
Lemma isUsed_texts :
  exists texts,
    length texts = length declarator_list
    /\ forall varName,
         isUsed interface declarator_list varName
         = Some (existsb (fun t => String.eqb t varName) texts).
Proof.
  induction declarator_list as [|d l IH].
  - exists []. split; reflexivity.
  - destruct IH as (texts & Hlen & Htexts).
    { intros d' Hd'. apply with_core. now right. }
    destruct (with_core d ltac:(now left))
      as (rg & core & postfix & equal_token & initializer & ->).
    exists (textOf interface (startOf core) (endOf core) :: texts).
    split; [cbn; now rewrite Hlen|].
    intros varName. cbn [isUsed existsb]. rewrite Htexts.
    now destruct (String.eqb _ varName).
Qed.

Lemma isUsed_false (varName : string) :
  isUsed interface declarator_list varName = Some false ->
  forall rg core postfix equal_token initializer,
    In (DeclaratorAST rg (Some core) postfix equal_token initializer)
      declarator_list ->
    textOf interface (startOf core) (endOf core) <> varName.
Proof.
  clear with_core.
  induction declarator_list as [|d l IH]; intros Hu rg core pf eq init;
    [intros []|].
  cbn [isUsed] in Hu.
  destruct d; try discriminate.
  destruct core_declarator as [c|]; [|discriminate].
  destruct (String.eqb_spec (textOf interface (startOf c) (endOf c)) varName)
    as [|Hne]; [discriminate|].
  intros [[= <- <- <- <- <-]|Hin]; [assumption|].
  now apply (IH Hu rg core pf eq init).
Qed.

Lemma iter_append (k : nat) (varName : string) :
  Nat.iter k (fun s => String.append s "X") (String.append varName "X")
  = Nat.iter (S k) (fun s => String.append s "X") varName.
Proof.
  symmetry. exact (Nat.iter_succ_r k (fun s => String.append s "X") varName).
Qed.

(** The loop returns the first of the names that is not used. *)
Lemma unusedName_least (k : nat) :
  forall fuel varName,
    (forall j, (j < k)%nat ->
       isUsed interface declarator_list
         (Nat.iter j (fun s => String.append s "X") varName) = Some true) ->
    isUsed interface declarator_list
      (Nat.iter k (fun s => String.append s "X") varName) = Some false ->
    (k < fuel)%nat ->
    unusedName fuel interface declarator_list varName
    = Named (Nat.iter k (fun s => String.append s "X") varName).
Proof.
  induction k as [|k IH]; intros fuel varName Hused Hfree Hfuel;
    (destruct fuel as [|fuel]; [lia|]); cbn [unusedName].
  - cbn [Nat.iter nat_rect] in Hfree. now rewrite Hfree.
  - pose proof (Hused 0%nat ltac:(lia)) as Hfirst.
    cbn [Nat.iter nat_rect] in Hfirst. rewrite Hfirst.
    rewrite <- iter_append. apply IH; [| |lia].
    + intros j Hj. rewrite iter_append. apply Hused. lia.
    + now rewrite iter_append.
Qed.

Lemma length_iter (k : nat) (varName : string) :
  String.length (Nat.iter k (fun s => String.append s "X") varName)
  = (String.length varName + k)%nat.
Proof.
  induction k as [|k IH]; [cbn; lia|].
  rewrite Nat.iter_succ, length_append, IH. cbn. lia.
Qed.

(** Among more names than there are declarators, one is not used. *)
Lemma unused_exists (varName : string) :
  exists k, (k <= length declarator_list)%nat
    /\ (forall j, (j < k)%nat ->
          isUsed interface declarator_list
            (Nat.iter j (fun s => String.append s "X") varName) = Some true)
    /\ isUsed interface declarator_list
         (Nat.iter k (fun s => String.append s "X") varName) = Some false.
Proof.
  destruct isUsed_texts as (texts & Hlen & Htexts).
  set (name j := Nat.iter j (fun s => String.append s "X") varName).
  assert (Hsearch : forall m,
            (exists k, (k <= m)%nat
               /\ (forall j, (j < k)%nat ->
                     isUsed interface declarator_list (name j) = Some true)
               /\ isUsed interface declarator_list (name k) = Some false)
            \/ (forall j, (j <= m)%nat ->
                  isUsed interface declarator_list (name j) = Some true)).
  { induction m as [|m [(k & Hk & H1 & H2)|Hall]].
    - destruct (existsb (fun t => String.eqb t (name 0%nat)) texts) eqn:E.
      + right. intros j Hj. replace j with 0%nat by lia.
        now rewrite Htexts, E.
      + left. exists 0%nat. split; [lia|]. split; [intros; lia|].
        now rewrite Htexts, E.
    - left. exists k. split; [lia|]. auto.
    - destruct (existsb (fun t => String.eqb t (name (S m))) texts) eqn:E.
      + right. intros j Hj. destruct (Nat.eq_dec j (S m)) as [->|].
        * now rewrite Htexts, E.
        * apply Hall. lia.
      + left. exists (S m). split; [lia|]. split.
        * intros j Hj. apply Hall. lia.
        * now rewrite Htexts, E. }
  destruct (Hsearch (length declarator_list)) as [H|Hall]; [exact H|].
  exfalso.
  assert (Hincl : incl (List.map name (seq 0 (S (length declarator_list))))
                    texts).
  { intros n Hn. apply in_map_iff in Hn as (j & <- & Hj).
    apply in_seq in Hj. specialize (Hall j ltac:(lia)).
    rewrite Htexts in Hall. injection Hall as Hall.
    apply existsb_exists in Hall as (t & Ht & Heq).
    apply String.eqb_eq in Heq as <-. assumption. }
  assert (Hnodup : List.NoDup
                     (List.map name (seq 0 (S (length declarator_list))))).
  { apply Finite.Injective_map_NoDup_in.
    - intros i j _ _ Hij. apply (f_equal String.length) in Hij.
      unfold name in Hij. rewrite !length_iter in Hij. lia.
    - apply seq_NoDup. }
  pose proof (NoDup_incl_length Hnodup Hincl) as Hle.
  rewrite length_map, length_seq in Hle. lia.
Qed.
End Names.
End UnusedNameFacts.

(** X14.  When the initializer of the loop is a simple declaration whose
    declarators all have a core declarator, the search for the name of the
    new variable ends within one round more than there are declarators;
    the name is [total] followed by as many [X] as there were used names,
    and no declarator is spelled like it. *)
Theorem unused_name_found (fuel : nat) (interface : CppQuickFixInterface)
    (rg rg' : Range) (decl_specifier_list declarator_list : list AST)
    (semicolon_token : nat) :
  (forall d, In d declarator_list ->
     exists rg core postfix equal_token initializer,
       d = DeclaratorAST rg (Some core) postfix equal_token initializer) ->
  (length declarator_list < fuel)%nat ->
  exists k,
    let varName := Nat.iter k (fun s => String.append s "X") "total"%string in
    (k <= length declarator_list)%nat
    /\ OptimizeForLoopOperation.varName fuel interface
         (DeclarationStatementAST rg
            (Some (SimpleDeclarationAST rg' decl_specifier_list
                     declarator_list semicolon_token)))
       = OptimizeForLoopOperation.Named varName
    /\ (forall j, (j < k)%nat ->
          OptimizeForLoopOperation.isUsed interface declarator_list
            (Nat.iter j (fun s => String.append s "X") "total"%string)
          = Some true)
    /\ forall rg core postfix equal_token initializer,
         In (DeclaratorAST rg (Some core) postfix equal_token initializer)
           declarator_list ->
         textOf interface (startOf core) (endOf core) <> varName.
Proof.
  intros Hcore Hfuel.
  destruct (UnusedNameFacts.unused_exists interface declarator_list Hcore
              "total")
    as (k & Hk & Hused & Hfree).
  exists k. cbv zeta. split; [assumption|]. split; [|split].
  - cbn [OptimizeForLoopOperation.varName].
    apply UnusedNameFacts.unusedName_least; [assumption | assumption | lia].
  - assumption.
  - now apply UnusedNameFacts.isUsed_false.
Qed.

Lemma unused_name_found_witness :
  (length Samples.declaratorsTotal < 3)%nat
  /\ exists k,
       (k <= length Samples.declaratorsTotal)%nat
       /\ OptimizeForLoopOperation.varName 3 Samples.onTotal
            Samples.initializerTotal
          = OptimizeForLoopOperation.Named
              (Nat.iter k (fun s => String.append s "X") "total"%string)
       /\ (forall j, (j < k)%nat ->
             OptimizeForLoopOperation.isUsed Samples.onTotal
               Samples.declaratorsTotal
               (Nat.iter j (fun s => String.append s "X") "total"%string)
             = Some true)
       /\ forall rg core postfix equal_token initializer,
            In (DeclaratorAST rg (Some core) postfix equal_token initializer)
              Samples.declaratorsTotal ->
            textOf Samples.onTotal (startOf core) (endOf core)
            <> Nat.iter k (fun s => String.append s "X") "total"%string.
Proof.
  split; [cbn; lia|].
  apply (unused_name_found 3 Samples.onTotal (rng 0 18) (rng 0 18)
           [SimpleSpecifierAST (rng 0 3)] Samples.declaratorsTotal 8);
    [|cbn; lia].
  intros d [<-|[<-|[]]]; do 5 eexists; reflexivity.
Defined.

(** ** The chunk of a block *)

Module ChunkFacts.
Import DiffChunkInfo.

(** The entry in front of the upper bound starts at or before the block. *)
Lemma upperBound_pred (m : ChunkInfo) (b : Z) :
  match upperBound m b with
  | O => True
  | S it =>
      exists k rows idx,
        nth_error m it = Some (k, (rows, idx)) /\ In (k, (rows, idx)) m
        /\ k <= b
  end.
Proof.
  induction m as [|[k [rows idx]] rest IH]; cbn [upperBound]; [exact I|].
  destruct (b <? k) eqn:E; [exact I|].
  apply Z.ltb_ge in E.
  destruct (upperBound rest b) as [|it].
  - exists k, rows, idx. repeat split; [now left | assumption].
  - destruct IH as (k' & rows' & idx' & Hnth & Hin & Hle).
    exists k', rows', idx'. repeat split; [assumption | now right | assumption].
Qed.

(** Without overlap, the entry in front of the upper bound is the chunk
    that contains the block. *)
Lemma upperBound_found (m : ChunkInfo) (b k rows idx : Z) :
  ChunkSpec.inOrder m -> In (k, (rows, idx)) m -> k <= b < k + rows ->
  exists it, upperBound m b = S it /\ nth_error m it = Some (k, (rows, idx)).
Proof.
  induction m as [|[k0 [rows0 idx0]] rest IH]; intros Hord Hin Hb;
    [contradiction|].
  cbn [ChunkSpec.inOrder] in Hord. destruct Hord as [Hrest Hord].
  cbn [upperBound].
  destruct Hin as [[= -> -> ->]|Hin].
  - replace (b <? k) with false by (symmetry; apply Z.ltb_ge; lia).
    exists 0%nat. split; [|reflexivity].
    destruct rest as [|[k1 v1] rest]; [reflexivity|].
    cbn [upperBound]. apply List.Forall_inv in Hrest. cbn [fst] in Hrest.
    replace (b <? k1) with true by (symmetry; apply Z.ltb_lt; lia).
    reflexivity.
  - rewrite List.Forall_forall in Hrest.
    pose proof (Hrest _ Hin) as Hk. cbn [fst] in Hk.
    replace (b <? k0) with false by (symmetry; apply Z.ltb_ge; lia).
    destruct (IH Hord Hin Hb) as (it & -> & Hnth).
    exists (S it). split; [reflexivity | exact Hnth].
Qed.

Lemma forBlockNumber_found (m : ChunkInfo) (b k rows idx : Z)
    (func : Z -> Z -> Z -> Z) :
  ChunkSpec.inOrder m -> In (k, (rows, idx)) m -> k <= b < k + rows ->
  forBlockNumber m b func = func k rows idx.
Proof.
  intros Hord Hin Hb.
  destruct (upperBound_found m b k rows idx Hord Hin Hb) as (it & Hub & Hnth).
  unfold forBlockNumber. destruct m as [|e m]; [contradiction|].
  rewrite Hub, Hnth.
  replace (b <? k + rows) with true by (symmetry; apply Z.ltb_lt; lia).
  reflexivity.
Qed.

Lemma forBlockNumber_missing (m : ChunkInfo) (b : Z)
    (func : Z -> Z -> Z -> Z) :
  (forall k rows idx, In (k, (rows, idx)) m -> ~ k <= b < k + rows) ->
  forBlockNumber m b func = -1.
Proof.
  intros Hnone. unfold forBlockNumber. destruct m as [|e m]; [reflexivity|].
  pose proof (upperBound_pred (e :: m) b) as Hpred.
  destruct (upperBound (e :: m) b) as [|it]; [reflexivity|].
  destruct Hpred as (k & rows & idx & -> & Hin & Hle).
  destruct (b <? k + rows) eqn:E; [|reflexivity].
  apply Z.ltb_lt in E. exfalso. apply (Hnone k rows idx Hin). lia.
Qed.
End ChunkFacts.

(** X15.  When the chunks follow each other without overlap, a block inside a
    chunk whose end [startBlockNumber + rowsCount] is an [int] (it does not
    exceed [Int.max]) is answered from that chunk: its row is the distance
    to the start of the chunk, the rows count and the index are the
    chunk's.  The one sum and the one difference the code computes on the
    way, of the start and the rows count of that chunk and of the block
    and that start, stay within the bounds of [int]. *)
Theorem chunk_of_block_found (m_chunkInfo : DiffChunkInfo.ChunkInfo)
    (blockNumber startBlockNumber rowsCount chunkIndex : Z) :
  ChunkSpec.inOrder m_chunkInfo ->
  In (startBlockNumber, (rowsCount, chunkIndex)) m_chunkInfo ->
  startBlockNumber <= blockNumber < startBlockNumber + rowsCount ->
  Int.min <= startBlockNumber ->
  rowsCount <= Int.max ->
  startBlockNumber + rowsCount <= Int.max ->
  DiffChunkInfo.chunkRowForBlockNumber m_chunkInfo blockNumber
  = blockNumber - startBlockNumber
  /\ 0 <= DiffChunkInfo.chunkRowForBlockNumber m_chunkInfo blockNumber
     < rowsCount
  /\ DiffChunkInfo.chunkRowsCountForBlockNumber m_chunkInfo blockNumber
     = rowsCount
  /\ DiffChunkInfo.chunkIndexForBlockNumber m_chunkInfo blockNumber
     = chunkIndex
  /\ Int.min <= startBlockNumber + rowsCount <= Int.max
  /\ Int.min <= blockNumber - startBlockNumber <= Int.max.
Proof.
  intros Hord Hin Hb Hmin Hrows Hmax.
  unfold DiffChunkInfo.chunkRowForBlockNumber,
    DiffChunkInfo.chunkRowsCountForBlockNumber,
    DiffChunkInfo.chunkIndexForBlockNumber.
  rewrite !(ChunkFacts.forBlockNumber_found m_chunkInfo blockNumber
              startBlockNumber rowsCount chunkIndex) by assumption.
  unfold Int.min, Int.max in *.
  change (2 ^ 31) with 2147483648 in *.
  repeat split; lia.
Qed.

Lemma chunk_of_block_found_witness :
  (ChunkSpec.inOrder Samples.chunks /\ In (10, (2, 1)) Samples.chunks
   /\ 10 <= 11 < 10 + 2 /\ Int.min <= 10 /\ 2 <= Int.max
   /\ 10 + 2 <= Int.max)
  /\ DiffChunkInfo.chunkRowForBlockNumber Samples.chunks 11 = 11 - 10
  /\ 0 <= DiffChunkInfo.chunkRowForBlockNumber Samples.chunks 11 < 2
  /\ DiffChunkInfo.chunkRowsCountForBlockNumber Samples.chunks 11 = 2
  /\ DiffChunkInfo.chunkIndexForBlockNumber Samples.chunks 11 = 1
  /\ Int.min <= 10 + 2 <= Int.max
  /\ Int.min <= 11 - 10 <= Int.max.
Proof.
  assert (Hord : ChunkSpec.inOrder Samples.chunks).
  { cbn. repeat split; try lia; repeat constructor; cbn; lia. }
  assert (Hin : In (10, (2, 1)) Samples.chunks) by (right; left; reflexivity).
  assert (Hmin : Int.min <= 10) by (vm_compute; discriminate).
  assert (Hrows : 2 <= Int.max) by (vm_compute; discriminate).
  assert (Hmax : 10 + 2 <= Int.max) by (vm_compute; discriminate).
  split.
  { split; [exact Hord|]. split; [exact Hin|]. split; [lia|].
    split; [exact Hmin|]. split; assumption. }
  apply (chunk_of_block_found Samples.chunks 11 10 2 1 Hord Hin);
    [lia | assumption | assumption | assumption].
Defined.

(** X16.  A block that no chunk contains (also with an empty map, or in front
    of the first chunk) has no row, no rows count and no chunk index: the
    three functions return -1. *)
Theorem chunk_of_block_missing (m_chunkInfo : DiffChunkInfo.ChunkInfo)
    (blockNumber : Z) :
  (forall startBlockNumber rowsCount chunkIndex,
     In (startBlockNumber, (rowsCount, chunkIndex)) m_chunkInfo ->
     ~ startBlockNumber <= blockNumber < startBlockNumber + rowsCount) ->
  DiffChunkInfo.chunkRowForBlockNumber m_chunkInfo blockNumber = -1
  /\ DiffChunkInfo.chunkRowsCountForBlockNumber m_chunkInfo blockNumber = -1
  /\ DiffChunkInfo.chunkIndexForBlockNumber m_chunkInfo blockNumber = -1.
Proof.
  intros Hnone.
  unfold DiffChunkInfo.chunkRowForBlockNumber,
    DiffChunkInfo.chunkRowsCountForBlockNumber,
    DiffChunkInfo.chunkIndexForBlockNumber.
  rewrite !ChunkFacts.forBlockNumber_missing by assumption.
  repeat split.
Qed.

Lemma chunk_of_block_missing_witness :
  DiffChunkInfo.chunkRowForBlockNumber Samples.chunks 5 = -1
  /\ DiffChunkInfo.chunkRowsCountForBlockNumber Samples.chunks 5 = -1
  /\ DiffChunkInfo.chunkIndexForBlockNumber Samples.chunks 5 = -1.
Proof.
  apply (chunk_of_block_missing Samples.chunks 5).
  intros k rows idx [[= <- <- <-]|[[= <- <- <-]|[]]]; lia.
Defined.

(** ** Move Function Documentation: the removed range *)

Module RemoveFacts.
Import MoveFunctionCommentsOp.

Section Loops.
Variable isSpace : Z -> bool.
Variable charAt : Z -> Z.
Variable characterCount : Z.

Lemma removalPos_spec (fuel : nat) :
  forall pos, (Z.to_nat pos < fuel)%nat ->
    exists first,
      removalPos isSpace charAt fuel pos = Some first
      /\ first <= pos
      /\ (forall i, first <= i < pos ->
            isSpace (charAt i) = true /\ charAt i <> newline)
      /\ (first <= 0 \/ isSpace (charAt (first - 1)) = false
          \/ charAt (first - 1) = newline).
Proof.
  induction fuel as [|fuel IH]; intros pos Hfuel; [lia|].
  cbn [removalPos]. cbv zeta.
  destruct (pos - 1 <? 0) eqn:E0.
  - apply Z.ltb_lt in E0. exists pos.
    repeat split; lia.
  - apply Z.ltb_ge in E0.
    destruct (negb (isSpace (charAt (pos - 1))) || (charAt (pos - 1) =? newline))
      eqn:E1.
    + exists pos. repeat split; try lia.
      apply orb_true_iff in E1 as [E1|E1].
      * right. left. now apply negb_true_iff in E1.
      * right. right. now apply Z.eqb_eq in E1.
    + apply orb_false_iff in E1 as [Hs Hn].
      apply negb_false_iff in Hs. apply Z.eqb_neq in Hn.
      destruct (IH (pos - 1) ltac:(lia)) as (first & -> & Hle & Hall & Hmax).
      exists first. repeat split; try lia; try assumption.
      * destruct (Z.eq_dec i (pos - 1)) as [->|]; [assumption|].
        apply Hall. lia.
      * destruct (Z.eq_dec i (pos - 1)) as [->|]; [assumption|].
        apply Hall. lia.
Qed.

Lemma removalEndPos_spec (fuel : nat) :
  forall pos, pos <= characterCount ->
    (Z.to_nat (characterCount - pos) < fuel)%nat ->
    exists last,
      removalEndPos isSpace charAt characterCount fuel pos = Some last
      /\ pos <= last <= characterCount
      /\ (forall i, pos <= i < last -> isSpace (charAt i) = true)
      /\ (forall i, pos <= i < last - 1 -> charAt i <> newline)
      /\ (last = characterCount \/ isSpace (charAt last) = false
          \/ (pos < last /\ charAt (last - 1) = newline)).
Proof.
  induction fuel as [|fuel IH]; intros pos Hpos Hfuel; [lia|].
  cbn [removalEndPos]. cbv zeta.
  destruct (pos =? characterCount) eqn:E0.
  - apply Z.eqb_eq in E0. exists pos. repeat split; lia.
  - apply Z.eqb_neq in E0.
    destruct (isSpace (charAt pos)) eqn:Hs; cbn [negb].
    + destruct (charAt pos =? newline) eqn:Hn.
      * apply Z.eqb_eq in Hn. exists (pos + 1). repeat split; try lia.
        -- intros i Hi. now replace i with pos by lia.
        -- right. right. split; [lia|]. now replace (pos + 1 - 1) with pos by lia.
      * apply Z.eqb_neq in Hn.
        destruct (IH (pos + 1) ltac:(lia) ltac:(lia))
          as (last & -> & Hle & Hall & Hnl & Hmax).
        exists last. repeat split; try lia.
        -- intros i Hi. destruct (Z.eq_dec i pos) as [->|]; [assumption|].
           apply Hall. lia.
        -- intros i Hi. destruct (Z.eq_dec i pos) as [->|]; [assumption|].
           apply Hnl. lia.
        -- destruct Hmax as [H|[H|[H1 H2]]]; [now left | now right; left |].
           right. right. split; [lia | assumption].
    + exists pos. repeat split; try lia. right. now left.
Qed.
End Loops.
End RemoveFacts.

(** X17.  The range removed at the source starts at the comment or in front
    of it, after the last character that is no blank or is a line break,
    and ends behind the comment, after the blanks that follow it up to
    and including the first line break; the two loops end within as many
    rounds as there are characters on their side. *)
Theorem remove_at_source_range (isSpace : Z -> bool) (charAt : Z -> Z)
    (characterCount : Z) (fuel : nat)
    (sourceCommentStartPos sourceCommentEndPos : Z) :
  sourceCommentEndPos <= characterCount ->
  (Z.to_nat sourceCommentStartPos < fuel)%nat ->
  (Z.to_nat (characterCount - sourceCommentEndPos) < fuel)%nat ->
  exists removalPos removalEndPos,
    MoveFunctionCommentsOp.removeAtSource isSpace charAt characterCount fuel
      sourceCommentStartPos sourceCommentEndPos
    = Some (removalPos, removalEndPos)
    /\ removalPos <= sourceCommentStartPos
    /\ (forall i, removalPos <= i < sourceCommentStartPos ->
          isSpace (charAt i) = true
          /\ charAt i <> MoveFunctionCommentsOp.newline)
    /\ (removalPos <= 0 \/ isSpace (charAt (removalPos - 1)) = false
        \/ charAt (removalPos - 1) = MoveFunctionCommentsOp.newline)
    /\ sourceCommentEndPos <= removalEndPos <= characterCount
    /\ (forall i, sourceCommentEndPos <= i < removalEndPos ->
          isSpace (charAt i) = true)
    /\ (forall i, sourceCommentEndPos <= i < removalEndPos - 1 ->
          charAt i <> MoveFunctionCommentsOp.newline)
    /\ (removalEndPos = characterCount
        \/ isSpace (charAt removalEndPos) = false
        \/ (sourceCommentEndPos < removalEndPos
            /\ charAt (removalEndPos - 1) = MoveFunctionCommentsOp.newline)).
Proof.
  intros Hend Hfuel1 Hfuel2.
  destruct (RemoveFacts.removalPos_spec isSpace charAt fuel
              sourceCommentStartPos Hfuel1)
    as (first & Hfirst & Hle & Hall & Hmax).
  destruct (RemoveFacts.removalEndPos_spec isSpace charAt characterCount fuel
              sourceCommentEndPos Hend Hfuel2)
    as (last & Hlast & Hle' & Hall' & Hnl & Hmax').
  exists first, last. unfold MoveFunctionCommentsOp.removeAtSource.
  rewrite Hfirst, Hlast. repeat split; try assumption; try lia.
  - now apply Hall.
  - now apply Hall.
Qed.

Lemma remove_at_source_range_witness :
  (9 <= 12 /\ (Z.to_nat 4 < 13)%nat /\ (Z.to_nat (12 - 9) < 13)%nat)
  /\ exists removalPos removalEndPos,
       MoveFunctionCommentsOp.removeAtSource Samples.isSpace Samples.charAt
         12 13 4 9
       = Some (removalPos, removalEndPos)
       /\ removalPos <= 4
       /\ (forall i, removalPos <= i < 4 ->
             Samples.isSpace (Samples.charAt i) = true
             /\ Samples.charAt i <> MoveFunctionCommentsOp.newline)
       /\ (removalPos <= 0
           \/ Samples.isSpace (Samples.charAt (removalPos - 1)) = false
           \/ Samples.charAt (removalPos - 1) = MoveFunctionCommentsOp.newline)
       /\ 9 <= removalEndPos <= 12
       /\ (forall i, 9 <= i < removalEndPos ->
             Samples.isSpace (Samples.charAt i) = true)
       /\ (forall i, 9 <= i < removalEndPos - 1 ->
             Samples.charAt i <> MoveFunctionCommentsOp.newline)
       /\ (removalEndPos = 12
           \/ Samples.isSpace (Samples.charAt removalEndPos) = false
           \/ (9 < removalEndPos
               /\ Samples.charAt (removalEndPos - 1)
                  = MoveFunctionCommentsOp.newline)).
Proof.
  split; [repeat split; lia|].
  apply (remove_at_source_range Samples.isSpace Samples.charAt 12 13 4 9);
    lia.
Defined.

(** ** Split Declaration: when the operation is offered *)

Module SplitOfferFacts.
Import SplitSimpleDeclaration SplitDeclarationSpec.

Lemma skipn_nth_error {A : Type} (l : list A) (n : nat) (a : A) :
  nth_error l n = Some a -> skipn n l = a :: skipn (S n) l.
Proof.
  revert l. induction n as [|n IH]; intros [|x l]; cbn; try discriminate.
  - now intros [= ->].
  - intros H. now rewrite (IH l H).
Qed.

(** The loop reaches the innermost simple declaration with the outermost
    of the declarator ids below it. *)
Lemma split_loop_reaches (interface : CppQuickFixInterface)
    (result : QuickFixOperations) (index : nat) (decl : AST) (n : nat) :
  innermost asSimpleDeclaration (path interface) n = Some (index, decl) ->
  (n <= length (path interface))%nat ->
  loop interface n (find asCoreDeclarator (skipn n (path interface))) result
  = loop interface (S index)
      (find asCoreDeclarator (skipn (S index) (path interface))) result.
Proof.
  induction n as [|n IH]; cbn [innermost]; [discriminate|].
  intros Hin Hn.
  destruct (nth_error (path interface) n) as [node|] eqn:En.
  2:{ apply nth_error_None in En. lia. }
  destruct (asSimpleDeclaration node) as [d|] eqn:Ed.
  - now injection Hin as <- <-.
  - rewrite <- (IH Hin ltac:(lia)).
    cbn [loop]. rewrite En.
    rewrite (skipn_nth_error _ _ _ En). cbn [find].
    destruct (asCoreDeclarator node) eqn:Ec; [reflexivity|].
    destruct node; try reflexivity; discriminate.
Qed.

Lemma check_spec (rg : Range) (specifiers declarators : list AST)
    (semicolon_token : nat) :
  checkDeclarationForSplit
    (SimpleDeclarationAST rg specifiers declarators semicolon_token) = true
  <-> semicolon_token <> 0%nat
      /\ (2 <= length declarators)%nat
      /\ specifiers <> []
      /\ forall specifier, In specifier specifiers ->
           forall rg', specifier <> EnumSpecifierAST rg'
                       /\ specifier <> ClassSpecifierAST rg'.
Proof.
  cbn [checkDeclarationForSplit].
  destruct (Nat.eqb_spec semicolon_token 0) as [->|Hs].
  { split; [discriminate | now intros []]. }
  destruct specifiers as [|s specifiers].
  { split; [discriminate | now intros (_ & _ & ? & _)]. }
  destruct (existsb _ (s :: specifiers)) eqn:Ee.
  - split; [discriminate|]. intros (_ & _ & _ & Hall).
    apply existsb_exists in Ee as (x & Hx & Hk).
    destruct x; try discriminate; destruct (Hall _ Hx rg0); congruence.
  - split.
    + intros Hd. split; [assumption|]. split.
      * destruct declarators as [|d1 [|d2 ds]]; try discriminate. cbn. lia.
      * split; [discriminate|]. intros x Hx rg'.
        split; intros ->;
          (assert (Ht : existsb
                          (fun specifier =>
                             match specifier with
                             | EnumSpecifierAST _ | ClassSpecifierAST _ => true
                             | _ => false
                             end) (s :: specifiers) = true)
             by (apply existsb_exists; eexists; split; [exact Hx|reflexivity]);
           congruence).
    + intros (_ & Hlen & _). destruct declarators as [|d1 [|d2 ds]];
        cbn in Hlen; (lia || reflexivity).
Qed.
End SplitOfferFacts.

(** X18.  On the innermost simple declaration of the path,
    SplitSimpleDeclaration::doMatch offers its operation exactly when the
    declaration ends with a semicolon, declares two names at least, has
    specifiers, none of them an enum or a class specifier, and the cursor
    is either within the specifiers or on the outermost core declarator
    (a declarator id, a nested or a decomposition declarator) of the path
    below the declaration; otherwise it returns the result unchanged. *)
Theorem split_declaration_offers (interface : CppQuickFixInterface)
    (result : QuickFixOperations) (index : nat) (rg : Range)
    (specifiers declarators : list AST) (semicolon_token : nat) :
  let declaration :=
    SimpleDeclarationAST rg specifiers declarators semicolon_token in
  let cursorPosition := selectionStart interface in
  let offered :=
    semicolon_token <> 0%nat
    /\ (2 <= length declarators)%nat
    /\ (forall specifier, In specifier specifiers ->
          forall rg', specifier <> EnumSpecifierAST rg'
                      /\ specifier <> ClassSpecifierAST rg')
    /\ exists first last,
         hd_error specifiers = Some first /\ lastValue specifiers = Some last
         /\ (startOf first <= cursorPosition <= endOf last
             \/ exists core,
                  find SplitSimpleDeclaration.asCoreDeclarator
                    (skipn (S index) (path interface)) = Some core
                  /\ isCursorOn interface core = true) in
  innermost SplitDeclarationSpec.asSimpleDeclaration (path interface)
    (length (path interface)) = Some (index, declaration) ->
  (offered ->
   SplitSimpleDeclaration.doMatch interface result
   = result ++ [SplitSimpleDeclarationOp (Z.of_nat index) declaration])
  /\ (~ offered -> SplitSimpleDeclaration.doMatch interface result = result).
Proof.
  intros declaration cursorPosition offered Hin.
  assert (Hdo : SplitSimpleDeclaration.doMatch interface result
                = SplitSimpleDeclaration.loop interface (S index)
                    (find SplitSimpleDeclaration.asCoreDeclarator
                       (skipn (S index) (path interface))) result).
  { unfold SplitSimpleDeclaration.doMatch.
    rewrite <- (SplitOfferFacts.split_loop_reaches _ _ _ _ _ Hin (le_n _)).
    now rewrite skipn_all. }
  destruct (innermost_spec _ _ _ _ _ Hin) as (_ & (node & Hn & Hsel) & _).
  assert (node = declaration) by (destruct node; cbn in Hsel; congruence).
  subst node.
  rewrite Hdo. cbn [SplitSimpleDeclaration.loop]. rewrite Hn.
  cbn [SplitSimpleDeclaration.asCoreDeclarator declaration]. cbv zeta.
  pose proof (SplitOfferFacts.check_spec rg specifiers declarators
                semicolon_token) as Hcheck.
  fold declaration in Hcheck |- *.
  destruct (checkDeclarationForSplit declaration).
  2:{ split; [|reflexivity]. intros (H1 & H2 & H3 & first & last & Hf & _).
      assert (Hfalse : false = true); [|discriminate].
      apply Hcheck. split; [assumption|]. split; [assumption|].
      split; [|assumption]. intros ->. discriminate. }
  destruct (proj1 Hcheck eq_refl) as (Hs & Hl & Hne & Hall).
  assert (Hfirst : exists first rest, specifiers = first :: rest)
    by (destruct specifiers as [|f r]; [contradiction | eauto]).
  destruct Hfirst as (first & rest & Especs).
  assert (Hlast : exists last, lastValue specifiers = Some last).
  { rewrite Especs. clear. revert first.
    induction rest as [|x rest IH]; intros first; [now exists first|].
    destruct (IH x) as (last & Hl). exists last.
    cbn [lastValue]. destruct rest; exact Hl. }
  destruct Hlast as (last & Hlast). rewrite Hlast.
  replace (match specifiers with spec :: _ => startOf spec | [] => 0 end)
    with (startOf first) by now rewrite Especs.
  assert (Hhd : hd_error specifiers = Some first) by now rewrite Especs.
  destruct ((startOf first <=? selectionStart interface)
            && (selectionStart interface <=? endOf last)) eqn:Ecur.
  - split; [reflexivity|]. intros Hno. exfalso. apply Hno.
    apply andb_true_iff in Ecur as [E1 E2].
    apply Z.leb_le in E1. apply Z.leb_le in E2.
    split; [assumption|]. split; [assumption|]. split; [assumption|].
    exists first, last. split; [assumption|]. split; [assumption|]. left.
    unfold cursorPosition. lia.
  - assert (Hout : ~ startOf first <= cursorPosition <= endOf last).
    { unfold cursorPosition. intros [H1 H2].
      apply Z.leb_le in H1. apply Z.leb_le in H2.
      rewrite H1, H2 in Ecur. discriminate. }
    destruct (find SplitSimpleDeclaration.asCoreDeclarator
                (skipn (S index) (path interface))) as [core|] eqn:Ecore.
    + destruct (isCursorOn interface core) eqn:Eon.
      * split; [reflexivity|]. intros Hno. exfalso. apply Hno.
        split; [assumption|]. split; [assumption|]. split; [assumption|].
        exists first, last. split; [assumption|]. split; [assumption|].
        right. now exists core.
      * split; [|reflexivity].
        intros (_ & _ & _ & first' & last' & Hf' & Hl' & [Hc|Hc]).
        -- congruence.
        -- destruct Hc as (core' & [= <-] & Hon). congruence.
    + split; [|reflexivity].
      intros (_ & _ & _ & first' & last' & Hf' & Hl' & [Hc|Hc]).
      * congruence.
      * destruct Hc as (core' & [=] & _).
Qed.

Lemma split_declaration_offers_witness :
  innermost SplitDeclarationSpec.asSimpleDeclaration
    (path Samples.onNestedDeclarator)
    (length (path Samples.onNestedDeclarator))
  = Some (0%nat, Samples.nestedDeclaration)
  /\ SplitSimpleDeclaration.doMatch Samples.onNestedDeclarator []
     = [SplitSimpleDeclarationOp 0 Samples.nestedDeclaration].
Proof.
  split; [reflexivity|].
  refine (proj1 (split_declaration_offers Samples.onNestedDeclarator []
                   0 (rng 0 12) [SimpleSpecifierAST (rng 0 3)]
                   [Samples.declaratorA; Samples.declaratorB] 8 eq_refl) _).
  split; [discriminate|]. split; [cbn; lia|]. split.
  - intros specifier [<-|[]] rg'. split; discriminate.
  - exists (SimpleSpecifierAST (rng 0 3)), (SimpleSpecifierAST (rng 0 3)).
    split; [reflexivity|]. split; [reflexivity|]. right.
    exists Samples.nestedA. split; reflexivity.
Defined.

(** ** Complete Switch Statement: the labels the collector finds *)

Module CollectorFacts.
Import CaseLabelSpec.

Lemma acceptPre_eq {S : Type} (pre : AST -> S -> bool * S) (a : AST) (s : S) :
  acceptPre pre a s
  = (let '(descend, s1) := pre a s in
     if descend then acceptChildren (acceptPre pre) a s1 else s1).
Proof. now destruct a. Qed.

Lemma hasCase_eq (a : AST) :
  hasCase a
  = match a with
    | CaseStatementAST _ _ _ => true
    | _ => existsb hasCase (subnodes a)
    end.
Proof.
  assert (Hfold : forall l b,
            fold_left (fun found c => found || hasCase c) l b
            = b || existsb hasCase l).
  { induction l as [|c l IH]; intros b; cbn [fold_left existsb].
    - now rewrite orb_false_r.
    - now rewrite IH, orb_assoc. }
  destruct a; cbn [hasCase]; try reflexivity;
    rewrite acceptChildren_fold, Hfold; reflexivity.
Qed.

Section Collector.
Variable interface : CppQuickFixInterface.

(** Below the level of the case statements only case statements are
    entered. *)
Lemma found_level (a : AST) :
  forall found values,
    (found = true \/ asCaseStatement a = true) ->
    acceptPre (preVisit interface) a (found, values)
    = (true, values ++ caseLabels interface a).
Proof.
  induction a as [a IH] using AST_subnodes_ind.
  intros found values Hlevel. rewrite acceptPre_eq.
  destruct a;
    try (destruct Hlevel as [->|Hc]; [|discriminate];
         cbn [preVisit caseLabels]; now rewrite app_nil_r).
  cbn [preVisit caseLabels]. cbv zeta.
  unfold subnodes in IH. cbn [acceptChildren] in IH.
  rewrite !collect_opt in IH. cbn [app] in IH.
  apply List.Forall_app in IH as [IHe IHs].
  cbn [acceptChildren].
  assert (Hlabel : match expression with
                   | Some (IdExpressionAST _ _ as expression) =>
                       match typeOfExpression interface expression with
                       | Some decl => values ++ [fullyQualifiedName decl]
                       | None => values
                       end
                   | _ => values
                   end = values ++ label interface expression).
  { unfold label. destruct expression as [[]|]; try now rewrite app_nil_r.
    destruct (typeOfExpression _ _); [reflexivity | now rewrite app_nil_r]. }
  rewrite Hlabel.
  destruct expression as [e|]; destruct statement as [s|]; cbn [acceptOpt].
  - apply List.Forall_inv in IHe. apply List.Forall_inv in IHs.
    rewrite (IHe true _ (or_introl eq_refl)).
    rewrite (IHs true _ (or_introl eq_refl)).
    now rewrite <- !app_assoc.
  - apply List.Forall_inv in IHe.
    rewrite (IHe true _ (or_introl eq_refl)).
    cbn [app]. now rewrite <- !app_assoc, ?app_nil_r.
  - apply List.Forall_inv in IHs.
    rewrite (IHs true _ (or_introl eq_refl)).
    cbn [app]. now rewrite <- !app_assoc.
  - cbn [app]. now rewrite ?app_nil_r.
Qed.

Lemma found_level_list (l : list AST) (values : list string) :
  fold_left (fun s c => acceptPre (preVisit interface) c s) l (true, values)
  = (true, values ++ flat_map (caseLabels interface) l).
Proof.
  revert values. induction l as [|c l IH]; intros values; cbn [fold_left flat_map].
  - now rewrite app_nil_r.
  - rewrite (found_level c true values (or_introl eq_refl)), IH.
    now rewrite <- app_assoc.
Qed.

(** A tree without case statements is walked through without effect. *)
Lemma no_case (a : AST) :
  forall values,
    hasCase a = false ->
    acceptPre (preVisit interface) a (false, values) = (false, values).
Proof.
  induction a as [a IH] using AST_subnodes_ind.
  intros values Hno. rewrite acceptPre_eq.
  rewrite hasCase_eq in Hno.
  assert (Hpre : preVisit interface a (false, values)
                 = (true, (false, values)))
    by (destruct a; try reflexivity; discriminate).
  rewrite Hpre. rewrite acceptChildren_fold.
  assert (Hsub : existsb hasCase (subnodes a) = false)
    by (destruct a; try assumption; discriminate).
  clear Hno Hpre. induction (subnodes a) as [|c l IHl]; [reflexivity|].
  cbn [fold_left]. cbn [existsb] in Hsub.
  apply orb_false_iff in Hsub as [Hc Hl].
  rewrite (List.Forall_inv IH values Hc).
  apply IHl; [exact (List.Forall_inv_tail IH) | assumption].
Qed.

Lemma no_case_list (l : list AST) (values : list string) :
  existsb hasCase l = false ->
  fold_left (fun s c => acceptPre (preVisit interface) c s) l (false, values)
  = (false, values).
Proof.
  induction l as [|c l IH]; [reflexivity|].
  cbn [existsb fold_left]. intros H.
  apply orb_false_iff in H as [Hc Hl].
  rewrite (no_case c values Hc). now apply IH.
Qed.
End Collector.
End CollectorFacts.

(** X19.  In a switch statement whose body is a compound statement, the
    collector of the used values takes the labels of the case statements
    that are statements of the body, and of the case statements they label
    in turn, in their order; it does not enter the other statements from
    the first case statement on, so the labels of a switch statement nested
    in a case are not taken.  (The condition and the statements in front
    of the first case statement are assumed to hold no case statement.) *)
Theorem case_values_of_switch (interface : CppQuickFixInterface)
    (rg rg' : Range) (condition : option AST) (lbrace_token : nat)
    (front rest : list AST) (symbol : option Block) :
  match condition with
  | Some e => CaseLabelSpec.hasCase e
  | None => false
  end = false ->
  existsb CaseLabelSpec.hasCase front = false ->
  match rest with
  | c :: _ => CaseLabelSpec.asCaseStatement c
  | [] => true
  end = true ->
  caseValues interface
    (SwitchStatementAST rg condition
       (Some (CompoundStatementAST rg' lbrace_token (front ++ rest))) symbol)
  = flat_map (CaseLabelSpec.caseLabels interface) rest.
Proof.
  intros Hcond Hfront Hrest.
  unfold caseValues. rewrite CollectorFacts.acceptPre_eq.
  cbn [preVisit acceptChildren].
  assert (Hc : acceptOpt (acceptPre (preVisit interface)) condition
                 (false, []) = (false, [])).
  { destruct condition as [e|]; [|reflexivity].
    now apply CollectorFacts.no_case. }
  rewrite Hc. cbn [acceptOpt]. rewrite CollectorFacts.acceptPre_eq.
  cbn [preVisit acceptChildren].
  rewrite acceptList_fold, fold_left_app.
  rewrite CollectorFacts.no_case_list by assumption.
  destruct rest as [|c rest]; [reflexivity|].
  cbn [fold_left].
  rewrite (CollectorFacts.found_level interface c false []
             (or_intror Hrest)).
  rewrite CollectorFacts.found_level_list. reflexivity.
Qed.

Lemma case_values_of_switch_witness :
  caseValues (onSwitch (switchBody ["A"; "C"]))
    (switchOf (switchBody ["A"; "C"]))
  = ["A"; "C"].
Proof.
  exact (case_values_of_switch (onSwitch (switchBody ["A"; "C"]))
           (rng 0 29) (rng 11 29) (Some (IdExpressionAST (rng 8 9) "e")) 5
           [] [caseOf "A"; caseOf "C"] (Some {| line := 1; column := 1 |})
           eq_refl eq_refl eq_refl).
Defined.

(** ** Extract Constant as Function Parameter: the function found *)

Module ExtractLiteralFacts.
Import ExtractLiteralAsParameter.

Lemma enclosingFunction_spec (path : list AST) (n : nat) (function : AST) :
  enclosingFunction path n = Some function ->
  exists i,
    (i < n)%nat /\ nth_error path i = Some function
    /\ ExtractFunction.asFunctionDefinition function = Some function
    /\ forall j node, (i < j < n)%nat -> nth_error path j = Some node ->
         ExtractFunction.asFunctionDefinition node = None
         /\ forall rg statement, node <> LambdaExpressionAST rg statement.
Proof.
  induction n as [|n IH]; cbn [enclosingFunction]; [discriminate|].
  destruct (nth_error path n) as [node|] eqn:En; [|discriminate].
  assert (Hrec : enclosingFunction path n = Some function ->
                 ExtractFunction.asFunctionDefinition node = None ->
                 (forall rg statement, node <> LambdaExpressionAST rg statement) ->
                 exists i,
                   (i < S n)%nat /\ nth_error path i = Some function
                   /\ ExtractFunction.asFunctionDefinition function
                      = Some function
                   /\ forall j node, (i < j < S n)%nat ->
                        nth_error path j = Some node ->
                        ExtractFunction.asFunctionDefinition node = None
                        /\ forall rg statement,
                             node <> LambdaExpressionAST rg statement).
  { intros H Hf Hl. destruct (IH H) as (i & Hi & Hnth & Hfun & Hbetween).
    exists i. split; [lia|]. split; [assumption|]. split; [assumption|].
    intros j node' Hj Hn. destruct (Nat.eq_dec j n) as [->|Hne].
    - rewrite En in Hn. injection Hn as <-. now split.
    - apply (Hbetween j); [lia | assumption]. }
  destruct node; try (intros H; apply Hrec; [exact H | reflexivity
                                            | intros ? ?; discriminate]).
  - intros [= <-]. exists n. split; [lia|]. split; [assumption|].
    split; [reflexivity|]. intros j node' Hj. lia.
  - discriminate.
Qed.

Lemma enclosingFunction_lambda (path : list AST) (n j : nat) (rg : Range)
    (statement : option AST) :
  (j < n)%nat -> nth_error path j = Some (LambdaExpressionAST rg statement) ->
  (forall k node, (j < k < n)%nat -> nth_error path k = Some node ->
                  ExtractFunction.asFunctionDefinition node = None) ->
  enclosingFunction path n = None.
Proof.
  induction n as [|n IH]; intros Hj Hl Hnone; [lia|].
  cbn [enclosingFunction].
  destruct (Nat.eq_dec j n) as [->|Hne]; [now rewrite Hl|].
  destruct (nth_error path n) as [node|] eqn:En; [|reflexivity].
  assert (Hf : ExtractFunction.asFunctionDefinition node = None)
    by (apply (Hnone n); [lia | assumption]).
  assert (Hrec : enclosingFunction path n = None).
  { apply IH; [lia | assumption |].
    intros k node' Hk. apply Hnone. lia. }
  destruct node; try exact Hrec; try reflexivity. discriminate.
Qed.

Lemma doMatch_cases (interface : CppQuickFixInterface)
    (result : QuickFixOperations) :
  doMatch interface result = result
  \/ exists literal function i,
       doMatch interface result
       = result ++ [ExtractLiteralAsParameterOp
                      (Z.of_nat (length (path interface)) - 1) literal
                      function]
       /\ lastValue (path interface) = Some literal
       /\ (exists rg literal_token,
             literal = NumericLiteralAST rg literal_token
             \/ literal = StringLiteralAST rg literal_token
             \/ literal = BoolLiteralAST rg literal_token)
       /\ (i + 2 <= length (path interface))%nat
       /\ nth_error (path interface) i = Some function
       /\ (forall j node,
             (i < j < length (path interface) - 1)%nat ->
             nth_error (path interface) j = Some node ->
             ExtractFunction.asFunctionDefinition node = None
             /\ forall rg statement, node <> LambdaExpressionAST rg statement)
       /\ exists rg rg' core first more equal_token initializer body symbol,
            function
            = FunctionDefinitionAST rg
                (DeclaratorAST rg' core (first :: more) equal_token
                   initializer) body symbol
            /\ forall rg1 rg2 parameters dot_dot_dot_token rparen_token,
                 first = FunctionDeclaratorAST rg1
                           (Some (ParameterDeclarationClauseAST rg2 parameters
                                    dot_dot_dot_token))
                           rparen_token ->
                 dot_dot_dot_token = 0%nat.
Proof.
  unfold doMatch. cbv zeta.
  destruct (length (path interface) <? 2)%nat eqn:Elen; [now left|].
  apply Nat.ltb_ge in Elen.
  destruct (lastValue (path interface)) as [literal|] eqn:Elast; [|now left].
  destruct (enclosingFunction (path interface)
              (length (path interface) - 1)) as [fn|] eqn:Ef.
  2:{ left. now destruct literal. }
  destruct (enclosingFunction_spec _ _ _ Ef)
    as (i & Hi & Hnth & Hfun & Hbetween).
  assert (Hkind : (exists rg literal_token,
                     literal = NumericLiteralAST rg literal_token
                     \/ literal = StringLiteralAST rg literal_token
                     \/ literal = BoolLiteralAST rg literal_token)
                  \/ forall ops : QuickFixOperations,
                       match literal with
                       | NumericLiteralAST _ _ | StringLiteralAST _ _
                       | BoolLiteralAST _ _ => ops
                       | _ => result
                       end = result)
    by (destruct literal; eauto 6).
  destruct Hkind as [Hkind|Hother]; [|left; apply Hother].
  assert (Hnot : forall ops : QuickFixOperations,
            match literal with
            | NumericLiteralAST _ _ | StringLiteralAST _ _
            | BoolLiteralAST _ _ => ops
            | _ => result
            end = ops)
    by (intros ops; destruct Hkind as (? & ? & [->|[->| ->]]); reflexivity).
  rewrite Hnot.
  destruct fn; try now left.
  destruct fn; try now left.
  destruct postfix_declarator_list as [|first more]; [now left|].
  assert (Hddd : (exists rg1 rg2 parameters ddd rparen_token,
                    first = FunctionDeclaratorAST rg1
                              (Some (ParameterDeclarationClauseAST rg2
                                       parameters (S ddd))) rparen_token)
                 \/ forall rg1 rg2 parameters dot_dot_dot_token rparen_token,
                      first = FunctionDeclaratorAST rg1
                                (Some (ParameterDeclarationClauseAST rg2
                                         parameters dot_dot_dot_token))
                                rparen_token ->
                      dot_dot_dot_token = 0%nat).
  { destruct first; try (right; intros; discriminate).
    destruct parameter_declaration_clause as [[]|];
      try (right; intros; discriminate).
    destruct dot_dot_dot_token as [|ddd].
    - right. now intros ? ? ? ? ? [= _ _ _ <- _].
    - left. eauto 6. }
  destruct Hddd as [(rg1 & rg2 & parameters & ddd & rparen_token & ->)|Hddd];
    [now left|].
  right.
  exists literal,
    (FunctionDefinitionAST rg
       (DeclaratorAST rg0 core_declarator (first :: more) equal_token
          initializer) function_body symbol), i.
  split.
  { destruct first; try reflexivity.
    destruct parameter_declaration_clause as [[]|]; try reflexivity.
    destruct dot_dot_dot_token as [|ddd]; [reflexivity|].
    discriminate (Hddd _ _ _ _ _ eq_refl). }
  split; [reflexivity|]. split; [assumption|]. split; [lia|].
  split; [assumption|]. split; [assumption|].
  do 9 eexists. split; [reflexivity | exact Hddd].
Qed.
End ExtractLiteralFacts.

(** X20.  An operation of ExtractLiteralAsParameter::doMatch is the only one
    offered; its literal is the last node of the path, a numeric, string
    or boolean literal; its function is the nearest function definition
    above the literal, with no lambda expression between the two; the
    declarator of the function has a postfix declarator, which has no
    ellipsis; and the priority is the last index of the path. *)
Theorem extract_literal_offers (interface : CppQuickFixInterface)
    (op : Operation) :
  In op (ExtractLiteralAsParameter.doMatch interface []) ->
  exists literal function i,
    ExtractLiteralAsParameter.doMatch interface [] = [op]
    /\ op = ExtractLiteralAsParameterOp
              (Z.of_nat (length (path interface)) - 1) literal function
    /\ lastValue (path interface) = Some literal
    /\ (exists rg literal_token,
          literal = NumericLiteralAST rg literal_token
          \/ literal = StringLiteralAST rg literal_token
          \/ literal = BoolLiteralAST rg literal_token)
    /\ (i + 2 <= length (path interface))%nat
    /\ nth_error (path interface) i = Some function
    /\ (forall j node,
          (i < j < length (path interface) - 1)%nat ->
          nth_error (path interface) j = Some node ->
          ExtractFunction.asFunctionDefinition node = None
          /\ forall rg statement, node <> LambdaExpressionAST rg statement)
    /\ exists rg rg' core first more equal_token initializer body symbol,
         function
         = FunctionDefinitionAST rg
             (DeclaratorAST rg' core (first :: more) equal_token initializer)
             body symbol
         /\ forall rg1 rg2 parameters dot_dot_dot_token rparen_token,
              first = FunctionDeclaratorAST rg1
                        (Some (ParameterDeclarationClauseAST rg2 parameters
                                 dot_dot_dot_token))
                        rparen_token ->
              dot_dot_dot_token = 0%nat.
Proof.
  intros Hin.
  destruct (ExtractLiteralFacts.doMatch_cases interface [])
    as [H|(literal & function & i & Hdo & Hrest)].
  - rewrite H in Hin. destruct Hin.
  - rewrite Hdo in Hin |- *. destruct Hin as [<-|[]].
    exists literal, function, i. split; [reflexivity|].
    split; [reflexivity | exact Hrest].
Qed.

Lemma extract_literal_offers_witness :
  exists literal function i,
    ExtractLiteralAsParameter.doMatch Samples.onLiteral42 []
    = [ExtractLiteralAsParameterOp 3 Samples.literal42 Samples.functionG]
    /\ ExtractLiteralAsParameterOp 3 Samples.literal42 Samples.functionG
       = ExtractLiteralAsParameterOp
           (Z.of_nat (length (path Samples.onLiteral42)) - 1) literal function
    /\ nth_error (path Samples.onLiteral42) i = Some function.
Proof.
  destruct (extract_literal_offers Samples.onLiteral42
              (ExtractLiteralAsParameterOp 3 Samples.literal42
                 Samples.functionG) (or_introl eq_refl))
    as (literal & function & i & H1 & H2 & _ & _ & _ & H6 & _).
  exists literal, function, i. repeat split; assumption.
Defined.


(** X21.  A literal inside a lambda expression is not offered: when a lambda
    expression is above the literal on the path, with no function
    definition between the two, ExtractLiteralAsParameter::doMatch returns
    the result unchanged. *)
Theorem extract_literal_in_lambda (interface : CppQuickFixInterface)
    (result : QuickFixOperations) (j : nat) (rg : Range)
    (statement : option AST) :
  (j + 1 < length (path interface))%nat ->
  nth_error (path interface) j = Some (LambdaExpressionAST rg statement) ->
  (forall k node, (j < k < length (path interface) - 1)%nat ->
                  nth_error (path interface) k = Some node ->
                  ExtractFunction.asFunctionDefinition node = None) ->
  ExtractLiteralAsParameter.doMatch interface result = result.
Proof.
  intros Hj Hl Hnone. unfold ExtractLiteralAsParameter.doMatch. cbv zeta.
  rewrite (ExtractLiteralFacts.enclosingFunction_lambda (path interface)
             (length (path interface) - 1) j rg statement); try assumption;
    [|lia].
  destruct (_ <? 2)%nat; [reflexivity|].
  destruct (lastValue _) as [[]|]; reflexivity.
Qed.

Lemma extract_literal_in_lambda_witness :
  ((2 + 1 < length (path Samples.onLambdaLiteral))%nat
   /\ nth_error (path Samples.onLambdaLiteral) 2
      = Some (LambdaExpressionAST (rng 10 20) (Some Samples.return42)))
  /\ ExtractLiteralAsParameter.doMatch Samples.onLambdaLiteral [] = [].
Proof.
  split; [split; [cbn; lia | reflexivity]|].
  apply (extract_literal_in_lambda Samples.onLambdaLiteral [] 2 (rng 10 20)
           (Some Samples.return42)); [cbn; lia | reflexivity |].
  intros k node Hk Hn. cbn in Hk.
  assert (k = 3%nat) by lia. subst k. injection Hn as <-. reflexivity.
Defined.
